(** * apple-health-mcp: the lazy-loading data access core

    A shallow embedding of the TypeScript core of the server and the
    properties its specification states about it:
    - src/core/cache.ts (QueryCache),
    - src/db/catalog.ts (FileCatalog and TableLoader),
    - src/core/memory.ts (MemoryManager),
    - src/core/optimizer.ts (QueryOptimizer, the one with view
      definitions, which the server constructs),
    - the tool that runs a query through optimizer, cache and engine
      (HealthQueryTool).

    Conventions.
    - A JavaScript [number] that holds an integer (a millisecond
      timestamp, a row count, a size) is a [Z].  NaN and the infinities
      are not values of the model; [Infinity] as the start value of a
      running minimum is [None].
    - A JavaScript string is a [string]; the text the server handles
      (SQL, table names, view names) is ASCII.
    - A [Map] is an association list in insertion order with pairwise
      distinct keys, because [Map] iteration order is observable in
      [findOldestEntry] and in [getTablesByLastAccess].
    - An [async] method is a function from the world to the world
      afterwards and a result or a thrown error; awaits are sequential.
    - [Date.now()] and [new Date()] consume the next reading of the
      clock of the world.
    - [console.log] and [console.error] are not modelled. *)

From Stdlib Require Import String Ascii List ZArith Lia Bool.
From Stdlib Require Import Permutation Sorted.
Import ListNotations.

Local Open Scope string_scope.
Local Open Scope Z_scope.

(* ================================================================== *)
(** * Part I: the embedding *)
(* ================================================================== *)

(** ** JavaScript strings *)

Module JsString.

(** [String.prototype.toLowerCase] on one ASCII character. *)
Definition lowerChar (c : ascii) : ascii :=
  let n := nat_of_ascii c in
  if ((65 <=? n) && (n <=? 90))%nat then ascii_of_nat (n + 32) else c.

Fixpoint toLowerCase (s : string) : string :=
  match s with
  | EmptyString => EmptyString
  | String c r => String (lowerChar c) (toLowerCase r)
  end.

(** [s.includes(sub)]: [sub] occurs in [s] at some position. *)
Fixpoint includes (s sub : string) : bool :=
  prefix sub s ||
  match s with
  | EmptyString => false
  | String _ r => includes r sub
  end.

(** The patterns and replacement texts of [optimizeQuery].

    [new RegExp(pat, 'gi')] reads [pat] as a regular expression, and
    [replace] reads [$] in the replacement text as the start of a
    substitution pattern.  The view names of the source are made of
    letters, digits and underscores, which stand for themselves in a
    regular expression, and the view definitions hold no [$].  The
    replacement below is the source's [replace] on such patterns and
    replacement texts, and every property that speaks of it is stated
    for them. *)
Definition literalChar (c : ascii) : bool :=
  let n := nat_of_ascii c in
  ((48 <=? n) && (n <=? 57) || (65 <=? n) && (n <=? 90)
   || (97 <=? n) && (n <=? 122) || (n =? 95))%nat.

Fixpoint allLiteral (s : string) : bool :=
  match s with
  | EmptyString => true
  | String c r => literalChar c && allLiteral r
  end.

(** A non-empty pattern without metacharacters. *)
Definition literalPattern (pat : string) : bool :=
  match pat with
  | EmptyString => false
  | String _ _ => allLiteral pat
  end.

(** A replacement text without substitution patterns. *)
Definition literalReplacement (rep : string) : bool := negb (includes rep "$").

(** The regular expression [new RegExp(pat, 'gi')] for a [pat] without
    metacharacters matches at the head of [s] when the first
    [length pat] characters of [s] equal [pat] up to letter case. *)
Definition matchesAt (pat s : string) : bool :=
  prefix (toLowerCase pat) (toLowerCase s).

(** [s.replace(new RegExp(pat, 'gi'), rep)] for a non-empty [pat] without
    metacharacters and a [rep] without [$] ([literalPattern pat] and
    [literalReplacement rep]): the matches are found left to right, each
    match resumes the scan behind itself, and every match is replaced.
    [skip] counts the characters of the current match that are still to
    be consumed. *)
Fixpoint replaceFrom (pat rep : string) (skip : nat) (s : string) : string :=
  match s with
  | EmptyString => EmptyString
  | String c r =>
      match skip with
      | S k => replaceFrom pat rep k r
      | O =>
          if matchesAt pat s
          then rep ++ replaceFrom pat rep (Nat.pred (String.length pat)) r
          else String c (replaceFrom pat rep O r)
      end
  end.

Definition replaceAllCI (pat rep s : string) : string :=
  replaceFrom pat rep O s.

(** Truthiness of a string: only the empty string is falsy. *)
Definition truthy (s : string) : bool :=
  match s with EmptyString => false | _ => true end.

End JsString.

(** ** JavaScript [Map] with string keys *)

Module JsMap.
Section Ops.
Context {V : Type}.

Definition t := list (string * V).

Definition empty : t := [].

Fixpoint get (k : string) (m : t) : option V :=
  match m with
  | [] => None
  | (k', v) :: r => if String.eqb k k' then Some v else get k r
  end.

(** [m.set(k, v)]: an existing key keeps its place in the iteration
    order, a new key goes last. *)
Fixpoint set (k : string) (v : V) (m : t) : t :=
  match m with
  | [] => [(k, v)]
  | (k', v') :: r =>
      if String.eqb k k' then (k, v) :: r else (k', v') :: set k v r
  end.

Fixpoint delete (k : string) (m : t) : t :=
  match m with
  | [] => []
  | (k', v') :: r =>
      if String.eqb k k' then r else (k', v') :: delete k r
  end.

Definition size (m : t) : Z := Z.of_nat (length m).

Definition keys (m : t) : list string := map fst m.

Definition entries (m : t) : list (string * V) := m.

(** The representation invariant: a [Map] holds a key once. *)
Definition wf (m : t) : Prop := NoDup (keys m).

End Ops.
Arguments t : clear implicits.
End JsMap.

(** ** src/types: the records shared by the components *)

(** A cell of a result row ([any] in the source). *)
Inductive Value : Type :=
| VNull
| VNumber (n : Z)
| VString (s : string).

(** A row as the engine returns it: an object, its properties in order. *)
Definition Row : Type := list (string * Value).

Module QueryResult.
Record t : Type := mk {
  columns : list string;
  rows : list (list Value);
  rowCount : Z;
  executionTime : Z
}.
End QueryResult.

Module CachedResult.
Record t : Type := mk {
  result : QueryResult.t;
  timestamp : Z;
  ttl : Z
}.
End CachedResult.

Module CatalogEntry.
(** [rowCount : number | null] and [lastAccessed?: Date]; a [Date] is its
    [getTime()] value. *)
Record t : Type := mk {
  path : string;
  loaded : bool;
  rowCount : option Z;
  lastAccessed : option Z
}.
End CatalogEntry.

(** ** src/core/cache.ts *)

(** [createHash('sha256').update(input).digest('hex')] of node:crypto. *)
Class Sha256 : Type := { sha256_hex : string -> string }.

Module QueryCache.
Section WithHash.
Context `{Sha256}.

Record t : Type := mk {
  cache : JsMap.t CachedResult.t;
  maxSize : Z
}.

Definition defaultTTL : Z := 5 * 60 * 1000.

(** [new QueryCache(maxSize)]. *)
Definition create (maxSize : Z) : t := mk JsMap.empty maxSize.

(** [params] is [Some j] for a truthy parameter object whose
    [JSON.stringify] text is [j], and [None] when it is omitted or
    falsy. *)
Definition getCacheKey (query : string) (params : option string) : string :=
  let input := query ++ match params with Some j => j | None => "" end in
  sha256_hex input.

Definition getTTL (query : string) : Z :=
  let q := JsString.toLowerCase query in
  if JsString.includes q "group by"
     || JsString.includes q "avg("
     || JsString.includes q "sum("
  then 10 * 60 * 1000
  else if JsString.includes q "current_date"
          || JsString.includes q "now()"
  then 60 * 1000
  else defaultTTL.

(** [get], at clock reading [now]: the cache afterwards and the result. *)
Definition get (now : Z) (query : string) (params : option string) (c : t)
  : t * option QueryResult.t :=
  let key := getCacheKey query params in
  match JsMap.get key (cache c) with
  | None => (c, None)
  | Some cached =>
      if now - CachedResult.timestamp cached >? CachedResult.ttl cached
      then (mk (JsMap.delete key (cache c)) (maxSize c), None)
      else (c, Some (CachedResult.result cached))
  end.

(** One turn of the loop of [findOldestEntry]; [None] as [oldestTime]
    is [Infinity]. *)
Definition olderOf (acc : option string * option Z)
                   (kv : string * CachedResult.t) : option string * option Z :=
  let '(key, value) := kv in
  match snd acc with
  | None => (Some key, Some (CachedResult.timestamp value))
  | Some oldestTime =>
      if CachedResult.timestamp value <? oldestTime
      then (Some key, Some (CachedResult.timestamp value))
      else acc
  end.

Definition findOldestEntry (c : t) : option string :=
  fst (fold_left olderOf (JsMap.entries (cache c)) (None, None)).

Definition set (now : Z) (query : string) (result : QueryResult.t)
               (params : option string) (c : t) : t :=
  let key := getCacheKey query params in
  let m :=
    if JsMap.size (cache c) >=? maxSize c
    then match findOldestEntry c with
         | Some oldestKey =>
             if JsString.truthy oldestKey
             then JsMap.delete oldestKey (cache c)
             else cache c
         | None => cache c
         end
    else cache c in
  mk (JsMap.set key (CachedResult.mk result now (getTTL query)) m) (maxSize c).

Definition getSize (c : t) : Z := JsMap.size (cache c).

Definition clear (c : t) : t := mk JsMap.empty (maxSize c).

End WithHash.
End QueryCache.

(** ** JavaScript arrays *)

Module JsArray.
Section Ops.
Context {A : Type}.

(** [Array.prototype.sort(cmp)] is a stable sort (ECMAScript 2019); for
    a comparator that is a consistent order, as the difference of two
    integer keys is, its result is the one a stable insertion sort
    gives. *)
Fixpoint insert (cmp : A -> A -> Z) (x : A) (l : list A) : list A :=
  match l with
  | [] => [x]
  | y :: r => if cmp x y <=? 0 then x :: y :: r else y :: insert cmp x r
  end.

Definition sort (cmp : A -> A -> Z) (l : list A) : list A :=
  fold_right (insert cmp) [] l.

(** [l.slice(0, count)] for an integer [count]; a negative [count]
    counts from the end. *)
Definition slice0 (count : Z) (l : list A) : list A :=
  if count <? 0
  then firstn (Z.to_nat (Z.max (Z.of_nat (length l) + count) 0)) l
  else firstn (Z.to_nat count) l.

(** [new Set()] filled by [add] and read by [Array.from]: insertion
    order, an element once. *)
Definition setAdd (eqb : A -> A -> bool) (s : list A) (x : A) : list A :=
  if existsb (eqb x) s then s else s ++ [x].

End Ops.
End JsArray.

(** Lines of a template literal, joined by line feeds. *)
Definition lineFeed : string := String (ascii_of_nat 10) EmptyString.

Definition joinLines (ls : list string) : string := String.concat lineFeed ls.

(** ** src/db/catalog.ts: FileCatalog *)

Module FileCatalog.

Definition t : Type := JsMap.t CatalogEntry.t.

(** The body of the loop of [scanDirectory] for a file the dataset
    pattern matched: [match1] is the captured name, [filePath] is
    [join(dataDir, file)]. *)
Definition register (c : t) (m : string * string) : t :=
  let '(match1, filePath) := m in
  let tableName := JsString.toLowerCase match1 in
  JsMap.set tableName (CatalogEntry.mk filePath false None None) c.

(** [scanDirectory] over the matched files of the directory, in
    [readdir] order. *)
Definition scanDirectory (matched : list (string * string)) : t :=
  fold_left register matched JsMap.empty.

Definition getTablePath (tableName : string) (c : t) : option string :=
  option_map CatalogEntry.path (JsMap.get (JsString.toLowerCase tableName) c).

Definition getEntry (tableName : string) (c : t) : option CatalogEntry.t :=
  JsMap.get (JsString.toLowerCase tableName) c.

(** The entry is an object shared with the map: a write to one of its
    fields is a [set] at its key, which keeps the key's place. *)
Definition markLoaded (tableName : string) (rowCount now : Z) (c : t) : t :=
  match JsMap.get (JsString.toLowerCase tableName) c with
  | Some entry =>
      JsMap.set (JsString.toLowerCase tableName)
        (CatalogEntry.mk (CatalogEntry.path entry) true (Some rowCount) (Some now)) c
  | None => c
  end.

Definition markUnloaded (tableName : string) (c : t) : t :=
  match JsMap.get (JsString.toLowerCase tableName) c with
  | Some entry =>
      JsMap.set (JsString.toLowerCase tableName)
        (CatalogEntry.mk (CatalogEntry.path entry) false
           (CatalogEntry.rowCount entry) (CatalogEntry.lastAccessed entry)) c
  | None => c
  end.

(** [entry.lastAccessed = new Date()] on the entry [getEntry] returned
    (in [ensureTableLoaded]). *)
Definition setLastAccessed (tableName : string) (now : Z) (c : t) : t :=
  match JsMap.get (JsString.toLowerCase tableName) c with
  | Some entry =>
      JsMap.set (JsString.toLowerCase tableName)
        (CatalogEntry.mk (CatalogEntry.path entry) (CatalogEntry.loaded entry)
           (CatalogEntry.rowCount entry) (Some now)) c
  | None => c
  end.

Definition isLoaded (kv : string * CatalogEntry.t) : bool :=
  CatalogEntry.loaded (snd kv).

Definition getLoadedTables (c : t) : list string :=
  map fst (filter isLoaded (JsMap.entries c)).

(** [lastAccessed?.getTime() || 0]. *)
Definition accessTime (kv : string * CatalogEntry.t) : Z :=
  match CatalogEntry.lastAccessed (snd kv) with
  | Some time => time
  | None => 0
  end.

Definition byAccessTime (a b : string * CatalogEntry.t) : Z :=
  accessTime a - accessTime b.

(** The entries [getTablesByLastAccess] maps to their names. *)
Definition loadedByLastAccess (c : t) : list (string * CatalogEntry.t) :=
  JsArray.sort byAccessTime (filter isLoaded (JsMap.entries c)).

Definition getTablesByLastAccess (c : t) : list string :=
  map fst (loadedByLastAccess c).

Definition getAllTables (c : t) : list string := JsMap.keys c.

(** What [scanDirectory] establishes and no method breaks: a name is
    held once and is its own lower-case form. *)
Definition wf (c : t) : Prop :=
  JsMap.wf c /\ Forall (fun k => JsString.toLowerCase k = k) (JsMap.keys c).

End FileCatalog.

(** ** Failures

    Every [throw new Error(...)] of the core and the rejection of an
    engine call, with the message text the source builds. *)

Inductive Exn : Type :=
| TableNotFound (tableName : string)
| FailedToLoad (tableName : string) (cause : Exn)
| ForbiddenKeyword (keyword : string)
| OnlySelect
| EngineError (msg : string).

Fixpoint message (e : Exn) : string :=
  match e with
  | TableNotFound tableName => "Table " ++ tableName ++ " not found in catalog"
  | FailedToLoad tableName cause =>
      "Failed to load table " ++ tableName ++ ": " ++ ("Error: " ++ message cause)
  | ForbiddenKeyword keyword => "Query contains forbidden keyword: " ++ keyword
  | OnlySelect => "Only SELECT queries are allowed"
  | EngineError msg => msg
  end.

(** [`${error}`] for an [Error] object. *)
Definition toString (e : Exn) : string := "Error: " ++ message e.

Inductive Outcome (A : Type) : Type :=
| Returned (a : A)
| Thrown (e : Exn).
Arguments Returned {A} a.
Arguments Thrown {A} e.

(** ** The collaborators outside the core *)

(** The DuckDB connection behind [HealthDataDB]: [conn.run] answers with
    an error or nothing, [conn.all] with an error or the rows. *)
Class Engine : Type := {
  Conn : Type;
  conn_run : string -> Conn -> Conn * option string;
  conn_all : string -> Conn -> Conn * (string + list Row)
}.

(** [cutoffStr] of [loadTable]: the calendar day (yyyy-mm-dd, from
    [setDate], [getDate] and [toISOString]) that lies the given number of
    days before a clock reading. *)
Class Calendar : Type := { isoDayBefore : Z -> Z -> string }.

(** ** The world the asynchronous methods run in

    [issued] records, in order, the statements handed to the engine.
    [clock] gives the reading of every future look at the clock and
    [reads] counts the looks taken so far. *)

Section Core.
Context `{Engine} `{Calendar} `{Sha256}.

Record World : Type := mkWorld {
  conn : Conn;
  issued : list string;
  catalog : FileCatalog.t;
  queryCache : QueryCache.t;
  clock : nat -> Z;
  reads : nat
}.

(** An [async] method: it changes the world and returns or throws. *)
Definition M (A : Type) : Type := World -> World * Outcome A.

Definition ret {A : Type} (a : A) : M A := fun w => (w, Returned a).

Definition throw {A : Type} (e : Exn) : M A := fun w => (w, Thrown e).

Definition bind {A B : Type} (m : M A) (k : A -> M B) : M B :=
  fun w =>
    match m w with
    | (w', Returned a) => k a w'
    | (w', Thrown e) => (w', Thrown e)
    end.

(** [try { m } catch (error) { handler error }]. *)
Definition tryCatch {A : Type} (m : M A) (handler : Exn -> M A) : M A :=
  fun w =>
    match m w with
    | (w', Returned a) => (w', Returned a)
    | (w', Thrown e) => handler e w'
    end.

Definition getCatalog : M FileCatalog.t := fun w => (w, Returned (catalog w)).

Definition modifyCatalog (f : FileCatalog.t -> FileCatalog.t) : M unit :=
  fun w =>
    (mkWorld (conn w) (issued w) (f (catalog w)) (queryCache w) (clock w) (reads w),
     Returned tt).

Definition getQueryCache : M QueryCache.t :=
  fun w => (w, Returned (queryCache w)).

Definition putQueryCache (c : QueryCache.t) : M unit :=
  fun w =>
    (mkWorld (conn w) (issued w) (catalog w) c (clock w) (reads w), Returned tt).

(** [Date.now()], [new Date()]. *)
Definition dateNow : M Z :=
  fun w =>
    (mkWorld (conn w) (issued w) (catalog w) (queryCache w) (clock w) (S (reads w)),
     Returned (clock w (reads w))).

End Core.

Declare Scope js_scope.
Delimit Scope js_scope with js.
Notation "x <- m ;; k" := (bind m (fun x => k))
  (at level 61, m at next level, right associativity) : js_scope.
Notation "m ;; k" := (bind m (fun _ => k))
  (at level 61, right associativity) : js_scope.
Local Open Scope js_scope.

(** ** src/db/database.ts: HealthDataDB (one connection) *)

Module HealthDataDB.
Section WithEngine.
Context `{Engine} `{Calendar} `{Sha256}.

Definition run (query : string) : M unit :=
  fun w =>
    let '(c', err) := conn_run query (conn w) in
    let w' := mkWorld c' (issued w ++ [query]) (catalog w) (queryCache w)
                      (clock w) (reads w) in
    match err with
    | Some msg => (w', Thrown (EngineError msg))
    | None => (w', Returned tt)
    end.

Definition execute (query : string) : M (list Row) :=
  fun w =>
    let '(c', res) := conn_all query (conn w) in
    let w' := mkWorld c' (issued w ++ [query]) (catalog w) (queryCache w)
                      (clock w) (reads w) in
    match res with
    | inl msg => (w', Thrown (EngineError msg))
    | inr result => (w', Returned result)
    end.

End WithEngine.
End HealthDataDB.

(** ** src/db/catalog.ts: TableLoader *)

Module TableLoader.
Section WithEngine.
Context `{Engine} `{Calendar} `{Sha256}.

(** The default of the constructor, which the server keeps. *)
Definition rollingWindowDays : Z := 90.

Definition stagingName (tableName : string) : string := tableName ++ "_staging".

Definition createStagingSql (tempTableName filePath cutoffStr : string) : string :=
  joinLines
    [ "";
      "        CREATE TABLE " ++ tempTableName ++ " AS";
      "        SELECT * FROM read_csv('" ++ filePath ++ "',";
      "          header = true,";
      "          skip = 1,";
      "          auto_detect = true";
      "        )";
      "        WHERE TRY_CAST(startDate AS TIMESTAMP) >= '" ++ cutoffStr ++ "'";
      "      " ].

Definition countSql (tempTableName : string) : string :=
  "SELECT COUNT(*) as count FROM " ++ tempTableName.

Definition dropIfExistsSql (table : string) : string :=
  "DROP TABLE IF EXISTS " ++ table.

Definition dropSql (table : string) : string := "DROP TABLE " ++ table.

Definition createFinalSql (stagingTable finalTable : string) : string :=
  joinLines
    [ "";
      "      CREATE TABLE " ++ finalTable ++ " AS";
      "      SELECT ";
      "        type,";
      "        sourceName,";
      "        sourceVersion,";
      "        unit,";
      "        creationDate::TIMESTAMP as creationDate,";
      "        startDate::TIMESTAMP as startDate,";
      "        endDate::TIMESTAMP as endDate,";
      "        TRY_CAST(value AS DOUBLE) as value,";
      "        device,";
      "        productType";
      "      FROM " ++ stagingTable;
      "      WHERE value IS NOT NULL";
      "    " ].

Definition indexStartDateSql (finalTable : string) : string :=
  joinLines
    [ "";
      "      CREATE INDEX IF NOT EXISTS idx_" ++ finalTable ++ "_startdate ";
      "      ON " ++ finalTable ++ "(startDate)";
      "    " ].

Definition indexTypeSql (finalTable : string) : string :=
  joinLines
    [ "";
      "      CREATE INDEX IF NOT EXISTS idx_" ++ finalTable ++ "_type ";
      "      ON " ++ finalTable ++ "(type)";
      "    " ].

(** [row.count] of a result row. *)
Definition property (name : string) (row : Row) : option Value :=
  option_map snd (find (fun kv => String.eqb name (fst kv)) row).

(** [countResult[0]?.count || 0]; the count column of [COUNT] is a
    number. *)
Definition countOf (countResult : list Row) : Z :=
  match countResult with
  | [] => 0
  | row :: _ =>
      match property "count" row with
      | Some (VNumber n) => n
      | _ => 0
      end
  end.

Definition cleanAndOptimizeTable (stagingTable finalTable : string) : M unit :=
  HealthDataDB.run (dropIfExistsSql finalTable) ;;
  HealthDataDB.run (createFinalSql stagingTable finalTable) ;;
  HealthDataDB.run (indexStartDateSql finalTable) ;;
  HealthDataDB.run (indexTypeSql finalTable) ;;
  HealthDataDB.run (dropSql stagingTable).

(** The [try] block of [loadTable]: the load attempt. *)
Definition loadAttempt (tableName filePath : string) : M unit :=
  let tempTableName := stagingName tableName in
  cutoffDate <- dateNow ;;
  let cutoffStr := isoDayBefore cutoffDate rollingWindowDays in
  HealthDataDB.run (createStagingSql tempTableName filePath cutoffStr) ;;
  countResult <- HealthDataDB.execute (countSql tempTableName) ;;
  let rowCount := countOf countResult in
  if rowCount >? 0
  then
    cleanAndOptimizeTable tempTableName tableName ;;
    (* markLoaded stamps the entry, which ensureTableLoaded found *)
    now <- dateNow ;;
    modifyCatalog (FileCatalog.markLoaded tableName rowCount now)
  else
    HealthDataDB.run (dropIfExistsSql tempTableName).

(** [loadTable]: the attempt, and the [catch] block that drops the
    staging table and throws the wrapped error. *)
Definition loadTable (tableName filePath : string) : M unit :=
  let tempTableName := stagingName tableName in
  tryCatch
    (loadAttempt tableName filePath)
    (fun error =>
       HealthDataDB.run (dropIfExistsSql tempTableName) ;;
       throw (FailedToLoad tableName error)).

Definition ensureTableLoaded (tableName : string) : M unit :=
  c <- getCatalog ;;
  match FileCatalog.getEntry tableName c with
  | None => throw (TableNotFound tableName)
  | Some entry =>
      if CatalogEntry.loaded entry
      then
        now <- dateNow ;;
        modifyCatalog (FileCatalog.setLastAccessed tableName now)
      else loadTable tableName (CatalogEntry.path entry)
  end.

Definition unloadTable (tableName : string) : M unit :=
  tryCatch
    (HealthDataDB.run (dropIfExistsSql tableName) ;;
     modifyCatalog (FileCatalog.markUnloaded tableName))
    (fun _ => ret tt).

Definition extractTableNames (query : string) (c : FileCatalog.t) : list string :=
  let allTables := FileCatalog.getAllTables c in
  let queryLower := JsString.toLowerCase query in
  fold_left
    (fun tables table =>
       if JsString.includes queryLower table
       then JsArray.setAdd String.eqb tables table
       else tables)
    allTables [].

(** The loop of [loadAllTables]: a load that fails is logged and the
    loop goes on. *)
Fixpoint loadEach (tables : list string) : M unit :=
  match tables with
  | [] => ret tt
  | table :: rest =>
      tryCatch (ensureTableLoaded table) (fun _ => ret tt) ;;
      loadEach rest
  end.

Definition loadAllTables : M unit :=
  c <- getCatalog ;;
  let tables := FileCatalog.getAllTables c in
  loadEach tables.

End WithEngine.
End TableLoader.

(** ** src/core/memory.ts: MemoryManager *)

Module MemoryManager.
Section WithEngine.
Context `{Engine} `{Calendar} `{Sha256}.

(** [for (const table of tables) await this.loader.unloadTable(table)]. *)
Fixpoint unloadEach (tables : list string) : M unit :=
  match tables with
  | [] => ret tt
  | table :: rest => TableLoader.unloadTable table ;; unloadEach rest
  end.

Definition forceEviction (count : Z) : M unit :=
  c <- getCatalog ;;
  let tables := FileCatalog.getTablesByLastAccess c in
  let toEvict := JsArray.slice0 count tables in
  unloadEach toEvict.

End WithEngine.

(** [getEstimatedMemoryUsage] sums, in floating point, a number of
    megabytes per loaded table that depends on the catalog only; the
    monitor compares the sum with two floating-point thresholds.  The
    two comparisons are taken as functions of the catalog:
    [overHighWater c] is [memoryUsage > maxMemoryMB * 0.8] and
    [underLowWater c] is [currentUsage < maxMemoryMB * 0.6]. *)
Class MemoryPolicy : Type := {
  overHighWater : FileCatalog.t -> bool;
  underLowWater : FileCatalog.t -> bool
}.

Section WithPolicy.
Context `{Engine} `{Calendar} `{Sha256} `{MemoryPolicy}.

(** The loop of [evictLRUTables] over the list taken at its start. *)
Fixpoint evictWhileAbove (tables : list string) : M unit :=
  match tables with
  | [] => ret tt
  | table :: rest =>
      c <- getCatalog ;;
      if underLowWater c
      then ret tt
      else TableLoader.unloadTable table ;; evictWhileAbove rest
  end.

Definition evictLRUTables : M unit :=
  c <- getCatalog ;;
  let tables := FileCatalog.getTablesByLastAccess c in
  evictWhileAbove tables.

Definition checkMemoryPressure : M unit :=
  tryCatch
    (c <- getCatalog ;;
     if overHighWater c then evictLRUTables else ret tt)
    (fun _ => ret tt).

End WithPolicy.
End MemoryManager.

(** ** src/core/optimizer.ts: QueryOptimizer *)

Module QueryOptimizer.
Section WithEngine.
Context `{Engine} `{Calendar} `{Sha256}.

Definition daily_heart_rate : string :=
  joinLines
    [ "";
      "      SELECT ";
      "        DATE(startDate) as date,";
      "        AVG(value) as avg_hr,";
      "        MIN(value) as min_hr,";
      "        MAX(value) as max_hr,";
      "        COUNT(*) as readings";
      "      FROM hkquantitytypeidentifierheartrate";
      "      GROUP BY DATE(startDate)";
      "    " ].

Definition weekly_activity : string :=
  joinLines
    [ "";
      "      SELECT ";
      "        DATE_TRUNC('week', startDate) as week_start,";
      "        SUM(CASE WHEN type LIKE '%StepCount%' THEN value ELSE 0 END) as total_steps,";
      "        SUM(CASE WHEN type LIKE '%ActiveEnergyBurned%' THEN value ELSE 0 END) as active_calories,";
      "        SUM(CASE WHEN type LIKE '%DistanceWalkingRunning%' THEN value ELSE 0 END) as distance_km";
      "      FROM (";
      "        SELECT * FROM hkquantitytypeidentifierstepcount";
      "        UNION ALL";
      "        SELECT * FROM hkquantitytypeidentifieractiveenergyburned";
      "        UNION ALL";
      "        SELECT * FROM hkquantitytypeidentifierdistancewalkingrunning";
      "      )";
      "      GROUP BY DATE_TRUNC('week', startDate)";
      "    " ].

Definition sleep_summary : string :=
  joinLines
    [ "";
      "      SELECT ";
      "        DATE(startDate) as sleep_date,";
      "        SUM(CASE WHEN type LIKE '%AsleepCore%' THEN value ELSE 0 END) / 3600 as core_hours,";
      "        SUM(CASE WHEN type LIKE '%AsleepDeep%' THEN value ELSE 0 END) / 3600 as deep_hours,";
      "        SUM(CASE WHEN type LIKE '%AsleepREM%' THEN value ELSE 0 END) / 3600 as rem_hours,";
      "        SUM(value) / 3600 as total_hours";
      "      FROM hkcategorytypeidentifiersleepanalysis";
      "      WHERE type LIKE '%Asleep%'";
      "      GROUP BY DATE(startDate)";
      "    " ].

(** [initializeViews]. *)
Definition viewDefinitions : JsMap.t string :=
  JsMap.set "sleep_summary" sleep_summary
    (JsMap.set "weekly_activity" weekly_activity
       (JsMap.set "daily_heart_rate" daily_heart_rate JsMap.empty)).

(** The body of the loop over the views: the test reads the query as
    it came in, the replacement works on the text rewritten so far. *)
Definition substituteView (query optimized : string) (view : string * string)
  : string :=
  let '(viewName, viewDef) := view in
  if JsString.includes (JsString.toLowerCase query) viewName
  then JsString.replaceAllCI viewName ("(" ++ viewDef ++ ")") optimized
  else optimized.

Definition substituteViews (views : JsMap.t string) (query : string) : string :=
  fold_left (substituteView query) (JsMap.entries views) query.

(** [await Promise.all(ps)]: every promise runs to its end, whether or
    not another one rejects, and the first rejection is thrown.  The
    source starts the loads together and they interleave at their
    awaits; here they run one after the other, which gives the same
    catalog, since they work on distinct entries and tables. *)
Fixpoint awaitAll (ps : list (M unit)) : M unit :=
  match ps with
  | [] => ret tt
  | p :: rest =>
      fun w =>
        match p w with
        | (w', Returned _) => awaitAll rest w'
        | (w', Thrown e) => (fst (awaitAll rest w'), Thrown e)
        end
  end.

Definition optimizeQuery (query : string) : M string :=
  c <- getCatalog ;;
  let requiredTables := TableLoader.extractTableNames query c in
  awaitAll (map TableLoader.ensureTableLoaded requiredTables) ;;
  ret (substituteViews viewDefinitions query).

End WithEngine.
End QueryOptimizer.

(** ** src/core/cache.ts: the cache of the running server *)

Module QueryCacheAsync.
Section WithEngine.
Context `{Engine} `{Calendar} `{Sha256}.

(** [get]; the clock is read only when the key is stored. *)
Definition get (query : string) (params : option string)
  : M (option QueryResult.t) :=
  c <- getQueryCache ;;
  match JsMap.get (QueryCache.getCacheKey query params) (QueryCache.cache c) with
  | None => ret None
  | Some _ =>
      now <- dateNow ;;
      let '(c', r) := QueryCache.get now query params c in
      putQueryCache c' ;;
      ret r
  end.

Definition set (query : string) (result : QueryResult.t)
               (params : option string) : M unit :=
  c <- getQueryCache ;;
  now <- dateNow ;;
  putQueryCache (QueryCache.set now query result params c).

Definition getOrExecute (query : string) (executor : M QueryResult.t)
                        (params : option string) : M QueryResult.t :=
  cached <- get query params ;;
  match cached with
  | Some r => ret r
  | None =>
      result <- executor ;;
      set query result params ;;
      ret result
  end.

End WithEngine.
End QueryCacheAsync.

(** ** src/tools/health-query.ts: HealthQueryTool

    [execute] up to the shaping of the result for the output format. *)

Module HealthQueryTool.
Section WithEngine.
Context `{Engine} `{Calendar} `{Sha256}.

Definition forbidden : list string :=
  ["drop"; "delete"; "truncate"; "insert"; "update"; "create table"; "alter"].

Definition validateQuery (query : string) : M unit :=
  let queryLower := JsString.toLowerCase query in
  match find (fun keyword => JsString.includes queryLower keyword) forbidden with
  | Some keyword => throw (ForbiddenKeyword keyword)
  | None =>
      if negb (JsString.includes queryLower "select")
      then throw OnlySelect
      else ret tt
  end.

(** The executor handed to [getOrExecute]. *)
Definition runQuery (optimizedQuery : string) : M QueryResult.t :=
  startTime <- dateNow ;;
  rows <- HealthDataDB.execute optimizedQuery ;;
  endTime <- dateNow ;;
  ret (QueryResult.mk
         (match rows with
          | row :: _ => map fst row
          | [] => []
          end)
         (map (map snd) rows)
         (Z.of_nat (length rows))
         (endTime - startTime)).

Definition execute (query : string) : M QueryResult.t :=
  validateQuery query ;;
  optimizedQuery <- QueryOptimizer.optimizeQuery query ;;
  QueryCacheAsync.getOrExecute optimizedQuery (runQuery optimizedQuery) None.

End WithEngine.
End HealthQueryTool.

(** ** Vocabulary of the properties *)

Module Occurrence.

(** No match of [pat] begins at a position of [pre], in the text
    [pre ++ rest]. *)
Fixpoint noneStartsIn (pat pre rest : string) : bool :=
  match pre with
  | EmptyString => true
  | String _ r =>
      negb (JsString.matchesAt pat (pre ++ rest)) && noneStartsIn pat r rest
  end.

(** No proper, non-empty tail of [pat] is a prefix of [text]: a match of
    [pat] that begins before [text] does not reach into it. *)
Fixpoint tailsMiss (pat text : string) : bool :=
  match pat with
  | EmptyString => true
  | String _ tail =>
      match tail with
      | EmptyString => true
      | String _ _ => negb (prefix tail text) && tailsMiss tail text
      end
  end.

(** Whole-word occurrence, in the words of the specification: a match
    with no word character ([A-Za-z0-9_]) directly before or behind
    it. *)
Definition isWordChar (c : ascii) : bool :=
  let n := nat_of_ascii c in
  ((48 <=? n) && (n <=? 57) || (65 <=? n) && (n <=? 90)
   || (97 <=? n) && (n <=? 122) || (n =? 95))%nat.

Definition endsWord (pat s : string) : bool :=
  JsString.matchesAt pat s &&
  match String.get (String.length pat) s with
  | Some c => negb (isWordChar c)
  | None => true
  end.

Fixpoint wholeWordFrom (pat : string) (prev : option ascii) (s : string) : bool :=
  (match prev with
   | Some p => negb (isWordChar p)
   | None => true
   end && endsWord pat s)
  || match s with
     | EmptyString => false
     | String c r => wholeWordFrom pat (Some c) r
     end.

Definition hasWholeWord (pat s : string) : bool := wholeWordFrom pat None s.

End Occurrence.

(** What the pipeline does with the names of the catalog: [m] leaves the
    catalog with the names [K] it had, and does not fail with "table not
    found". *)
Definition knowsItsTables `{Engine} {A : Type} (K : list string) (m : M A) : Prop :=
  forall w : World,
    JsMap.keys (catalog w) = K ->
    JsMap.keys (catalog (fst (m w))) = K
    /\ forall t : string, snd (m w) <> Thrown (TableNotFound t).

(** [m] leaves the catalog entry stored under the key [k] as it is. *)
Definition leavesEntry `{Engine} {A : Type} (k : string) (m : M A) : Prop :=
  forall w : World,
    JsMap.get k (catalog (fst (m w))) = JsMap.get k (catalog w).

(** ** Runs of the cache: a sequence of [set] calls *)

Module CacheRun.
Section WithHash.
Context `{Sha256}.

(** One call [set(query, result, params)] and the clock reading it
    sees. *)
Record SetCall : Type := mkSetCall {
  now : Z;
  query : string;
  result : QueryResult.t;
  params : option string
}.

Definition keyOf (s : SetCall) : string :=
  QueryCache.getCacheKey (query s) (params s).

(** The map entry the call writes. *)
Definition storedBy (s : SetCall) : string * CachedResult.t :=
  (keyOf s, CachedResult.mk (result s) (now s) (QueryCache.getTTL (query s))).

Definition setAll (calls : list SetCall) (c : QueryCache.t) : QueryCache.t :=
  fold_left
    (fun c s => QueryCache.set (now s) (query s) (result s) (params s) c)
    calls c.

(** One use of the cache by a caller. *)
Inductive Op : Type :=
| OpSet (s : SetCall)
| OpGet (time : Z) (q : string) (p : option string)
| OpClear.

Definition applyOp (c : QueryCache.t) (o : Op) : QueryCache.t :=
  match o with
  | OpSet s => QueryCache.set (now s) (query s) (result s) (params s) c
  | OpGet time q p => fst (QueryCache.get time q p c)
  | OpClear => QueryCache.clear c
  end.

Definition runOps (ops : list Op) (c : QueryCache.t) : QueryCache.t :=
  fold_left applyOp ops c.

End WithHash.
End CacheRun.

(** ** Fixtures: stand-ins for the collaborators, for concrete runs *)

Module Fixture.

(** A digest stand-in: injective and never empty. *)
Definition tagHash : Sha256 := {| sha256_hex := fun input => "h:" ++ input |}.

Definition fixedDay : Calendar := {| isoDayBefore := fun _ _ => "2025-01-01" |}.

(** An engine without state of its own that refuses the statements
    containing one of the texts of [refused], with the message given,
    accepts all others, and answers every accepted query with
    [answer]. *)
Record Script : Type := mkScript {
  refused : list (string * string);
  answer : list Row
}.

Definition verdict (query : string) (s : Script) : option string :=
  option_map snd (find (fun r => JsString.includes query (fst r)) (refused s)).

Definition scripted (s : Script) : Engine := {|
  Conn := unit;
  conn_run := fun query _ => (tt, verdict query s);
  conn_all := fun query _ =>
    (tt, match verdict query s with
         | Some msg => inl msg
         | None => inr (answer s)
         end)
|}.

Definition emptyResult : QueryResult.t := QueryResult.mk [] [] 0 0.

(** A cache of capacity 100 after one [set] at clock reading 0. *)
Definition oneEntry : QueryCache.t :=
  @QueryCache.set tagHash 0 "SELECT 1" emptyResult None (QueryCache.create 100).

Definition callAt (now : Z) (query : string) : CacheRun.SetCall :=
  CacheRun.mkSetCall now query emptyResult None.

(** A cache of capacity 2 that is full: [q1] stored at 10, [q2] at 5. *)
Definition fullOfTwo : QueryCache.t :=
  @CacheRun.setAll tagHash [callAt 10 "q1"; callAt 5 "q2"] (QueryCache.create 2).

(** An engine that accepts everything and reports a count of [n]. *)
Definition counting (n : Z) : Script := mkScript [] [[("count", VNumber n)]].

Definition steps : string := "hkquantitytypeidentifierstepcount".
Definition heart : string := "hkquantitytypeidentifierheartrate".
Definition sleep : string := "hkcategorytypeidentifiersleepanalysis".

Definition stepsEntry : CatalogEntry.t :=
  CatalogEntry.mk "/data/HKQuantityTypeIdentifierStepCount.csv" true (Some 1200) (Some 0).
Definition heartEntry : CatalogEntry.t :=
  CatalogEntry.mk "/data/HKQuantityTypeIdentifierHeartRate.csv" true (Some 5000) (Some 10).
Definition sleepEntry : CatalogEntry.t :=
  CatalogEntry.mk "/data/HKCategoryTypeIdentifierSleepAnalysis.csv" false None None.

(** Three tables: [heart] loaded and accessed at 10, [sleep] not
    loaded, [steps] loaded and accessed at 0. *)
Definition twoLoaded : FileCatalog.t :=
  [(heart, heartEntry); (sleep, sleepEntry); (steps, stepsEntry)].

(** The heart-rate and sleep files as [scanDirectory] records them. *)
Definition discovered : FileCatalog.t :=
  FileCatalog.scanDirectory
    [("HKQuantityTypeIdentifierHeartRate", "/data/HKQuantityTypeIdentifierHeartRate.csv");
     ("HKCategoryTypeIdentifierSleepAnalysis", "/data/HKCategoryTypeIdentifierSleepAnalysis.csv")].

(** An engine that cannot create a table. *)
Definition outOfMemory : Script :=
  mkScript [("CREATE TABLE", "Out of Memory Error: could not allocate block")] [].

(** An engine that rejects every statement. *)
Definition broken : Script := mkScript [("", "IO Error: connection closed")] [].

(** An engine that knows no table named [nosuchtable]. *)
Definition strict : Script :=
  mkScript
    [("nosuchtable", "Catalog Error: Table with name nosuchtable does not exist!")]
    [].

(** The world at start-up: nothing issued, an empty cache of capacity
    100, the clock reading 1000, 1001, ... *)
Definition world0 (s : Script) (c : FileCatalog.t) : @World (scripted s) :=
  @mkWorld (scripted s) tt [] c (QueryCache.create 100)
           (fun n => 1000 + Z.of_nat n) O.

(** An engine on which every load finds five rows. *)
Definition engine5 : Engine := scripted (counting 5).

(** An engine that cannot build an index. *)
Definition noIndex : Script :=
  mkScript [("CREATE INDEX", "Out of Memory Error: could not allocate block")]
           [[("count", VNumber 5)]].

Definition engineNoIndex : Engine := scripted noIndex.

(** An engine that rejects every statement. *)
Definition engineBroken : Engine := scripted broken.

(** An engine that cannot read the heart-rate file: it rejects every
    statement on the staging table of [heart]. *)
Definition noHeartStaging : Script :=
  mkScript
    [("hkquantitytypeidentifierheartrate_staging",
      "IO Error: could not read the file")]
    [[("count", VNumber 5)]].

Definition engineNoHeart : Engine := scripted noHeartStaging.

(** An engine that finds no file, and says which. *)
Definition missingFile : Script :=
  mkScript
    [("read_csv",
      "IO Error: No files found that match the pattern /data/HKQuantityTypeIdentifierHeartRate.csv")]
    [].

(** The start-up world over the discovered files, and the world with the
    two loaded tables. *)
Definition fresh : @World engine5 := world0 (counting 5) discovered.

Definition warm : @World engine5 := world0 (counting 5) twoLoaded.

Definition freshNoIndex : @World engineNoIndex := world0 noIndex discovered.

Definition freshNoHeart : @World engineNoHeart := world0 noHeartStaging discovered.

Definition warmBroken : @World engineBroken := world0 broken twoLoaded.

(** The world [warm] with [oneEntry] as its cache. *)
Definition cached : @World engine5 :=
  @mkWorld engine5 tt [] twoLoaded oneEntry (fun n => 1000 + Z.of_nat n) O.

(** A stand-in for the estimate: over the high-water mark with more than
    one loaded table, under the low-water mark with fewer than two. *)
Definition byLoadedCount : MemoryManager.MemoryPolicy := {|
  MemoryManager.overHighWater :=
    fun c => (1 <? length (FileCatalog.getLoadedTables c))%nat;
  MemoryManager.underLowWater :=
    fun c => (length (FileCatalog.getLoadedTables c) <? 2)%nat
|}.

End Fixture.

(* ================================================================== *)
(** * Part II: the properties *)
(* ================================================================== *)

Local Open Scope list_scope.

(** ** Facts about [Map] *)

Section JsMapFacts.
Context {V : Type}.
Implicit Types (m : JsMap.t V) (k : string) (v : V).

Lemma get_None_iff m k : JsMap.get k m = None <-> ~ In k (JsMap.keys m).
Proof.
  induction m as [|[k' v'] r IH]; simpl.
  - tauto.
  - destruct (String.eqb_spec k k') as [->|Hne].
    + split; [discriminate | intros Hn; exfalso; apply Hn; now left].
    + rewrite IH. split.
      * intros Hn [He|Hi]; [congruence | tauto].
      * tauto.
Qed.

Lemma get_Some_In m k v : JsMap.get k m = Some v -> In (k, v) m.
Proof.
  induction m as [|[k' v'] r IH]; simpl; [discriminate|].
  destruct (String.eqb_spec k k') as [->|Hne].
  - intros [= ->]. now left.
  - intros Hg. right. now apply IH.
Qed.

Lemma get_Some_key m k v : JsMap.get k m = Some v -> In k (JsMap.keys m).
Proof.
  intros Hg. apply get_Some_In in Hg.
  change k with (fst (k, v)). now apply in_map.
Qed.

Lemma get_set_same m k v : JsMap.get k (JsMap.set k v m) = Some v.
Proof.
  induction m as [|[k' v'] r IH]; simpl.
  - now rewrite String.eqb_refl.
  - destruct (String.eqb_spec k k') as [->|Hne]; simpl.
    + now rewrite String.eqb_refl.
    + destruct (String.eqb_spec k k'); [contradiction | exact IH].
Qed.

Lemma get_set_other m k k' v :
  k <> k' -> JsMap.get k' (JsMap.set k v m) = JsMap.get k' m.
Proof.
  intros Hne. induction m as [|[k0 v0] r IH]; simpl.
  - destruct (String.eqb_spec k' k); [congruence | reflexivity].
  - destruct (String.eqb_spec k k0) as [->|Hk]; simpl.
    + destruct (String.eqb_spec k' k0); [congruence | reflexivity].
    + destruct (String.eqb_spec k' k0); [reflexivity | exact IH].
Qed.

Lemma set_fresh m k v : JsMap.get k m = None -> JsMap.set k v m = (m ++ [(k, v)])%list.
Proof.
  induction m as [|[k' v'] r IH]; simpl; [reflexivity|].
  destruct (String.eqb_spec k k'); [discriminate|].
  intros Hg. now rewrite IH.
Qed.

Lemma length_set_present m k v v0 :
  JsMap.get k m = Some v0 -> length (JsMap.set k v m) = length m.
Proof.
  revert v0. induction m as [|[k' v'] r IH]; simpl; [discriminate|].
  intros v0. destruct (String.eqb_spec k k'); simpl; [reflexivity|].
  intros Hg. f_equal. eauto.
Qed.

Lemma get_delete_other m k k' :
  k <> k' -> JsMap.get k' (JsMap.delete k m) = JsMap.get k' m.
Proof.
  intros Hne. induction m as [|[k0 v0] r IH]; simpl; [reflexivity|].
  destruct (String.eqb_spec k k0) as [->|Hk]; simpl.
  - destruct (String.eqb_spec k' k0); [congruence | reflexivity].
  - destruct (String.eqb_spec k' k0); [reflexivity | exact IH].
Qed.

Lemma get_delete_same m k :
  JsMap.wf m -> JsMap.get k (JsMap.delete k m) = None.
Proof.
  unfold JsMap.wf. induction m as [|[k' v'] r IH]; simpl; [reflexivity|].
  intros Hnd. inversion Hnd as [|? ? Hni Hnd']; subst.
  destruct (String.eqb_spec k k') as [->|Hk]; simpl.
  - now apply get_None_iff.
  - destruct (String.eqb_spec k k'); [contradiction | now apply IH].
Qed.

Lemma length_delete_present m k v0 :
  JsMap.get k m = Some v0 -> S (length (JsMap.delete k m)) = length m.
Proof.
  revert v0. induction m as [|[k' v'] r IH]; simpl; [discriminate|].
  intros v0. destruct (String.eqb_spec k k'); simpl; [reflexivity|].
  intros Hg. f_equal. eauto.
Qed.

Lemma delete_split a b k v :
  ~ In k (JsMap.keys a) -> JsMap.delete k (a ++ (k, v) :: b)%list = (a ++ b)%list.
Proof.
  induction a as [|[k' v'] r IH]; simpl; intros Hni.
  - now rewrite String.eqb_refl.
  - destruct (String.eqb_spec k k') as [->|Hk]; [tauto|].
    f_equal. apply IH. tauto.
Qed.

Lemma keys_set_present m k v v0 :
  JsMap.get k m = Some v0 -> JsMap.keys (JsMap.set k v m) = JsMap.keys m.
Proof.
  revert v0. induction m as [|[k' v'] r IH]; simpl; [discriminate|].
  intros v0. destruct (String.eqb_spec k k') as [->|Hk]; simpl; [reflexivity|].
  intros Hg. f_equal. eapply IH; eauto.
Qed.

Lemma wf_set m k v : JsMap.wf m -> JsMap.wf (JsMap.set k v m).
Proof.
  unfold JsMap.wf. intros Hnd.
  destruct (JsMap.get k m) as [v0|] eqn:Hg.
  - now rewrite (keys_set_present _ _ _ _ Hg).
  - rewrite (set_fresh _ _ _ Hg). unfold JsMap.keys. rewrite map_app. simpl.
    apply NoDup_app; [exact Hnd | repeat constructor; simpl; tauto |].
    intros x Hx [<-|[]]. now apply get_None_iff in Hg.
Qed.

End JsMapFacts.

(** ** The query cache: expiry and time-to-live classes *)

Section CacheExpiry.
Context `{Sha256}.

(** C2, amended.  For a cache that stores [cached] under the key of
    (query, params), [get] at clock reading [now] returns the stored
    result if and only if [now - timestamp <= ttl], and then leaves the
    cache as it is; otherwise it deletes the key and returns nothing,
    and the key is absent afterwards.  At [now - timestamp = ttl] the
    entry is still served. *)
Theorem get_serves_until_ttl_exceeded
    (now : Z) (query : string) (params : option string)
    (c : QueryCache.t) (cached : CachedResult.t) :
  JsMap.wf (QueryCache.cache c) ->
  JsMap.get (QueryCache.getCacheKey query params) (QueryCache.cache c)
    = Some cached ->
  (snd (QueryCache.get now query params c) = Some (CachedResult.result cached)
     <-> now - CachedResult.timestamp cached <= CachedResult.ttl cached)
  /\ QueryCache.get now query params c
     = (if now - CachedResult.timestamp cached <=? CachedResult.ttl cached
        then (c, Some (CachedResult.result cached))
        else (QueryCache.mk
                (JsMap.delete (QueryCache.getCacheKey query params)
                              (QueryCache.cache c))
                (QueryCache.maxSize c),
              None))
  /\ JsMap.get (QueryCache.getCacheKey query params)
       (JsMap.delete (QueryCache.getCacheKey query params) (QueryCache.cache c))
     = None.
Proof.
  intros Hwf Hstored. unfold QueryCache.get. rewrite Hstored.
  rewrite Z.gtb_ltb, Z.ltb_antisym.
  destruct (Z.leb_spec (now - CachedResult.timestamp cached)
                       (CachedResult.ttl cached)) as [Hfresh|Hexp]; simpl.
  - split; [split; [lia | reflexivity]|].
    split; [reflexivity | now apply get_delete_same].
  - split; [split; [discriminate | lia]|].
    split; [reflexivity | now apply get_delete_same].
Qed.

(** C8, amended.  A query whose lower-cased text contains
    [current_date] or [now()] is given the short time-to-live (one
    minute) unless it also contains [group by], [avg(] or [sum(]; then
    it is given the long time-to-live (ten minutes): the aggregate
    test comes first. *)
Theorem getTTL_current_moment (query : string) :
  JsString.includes (JsString.toLowerCase query) "current_date"
    || JsString.includes (JsString.toLowerCase query) "now()" = true ->
  QueryCache.getTTL query
  = if JsString.includes (JsString.toLowerCase query) "group by"
       || JsString.includes (JsString.toLowerCase query) "avg("
       || JsString.includes (JsString.toLowerCase query) "sum("
    then 10 * 60 * 1000
    else 60 * 1000.
Proof.
  intros Hmoment. unfold QueryCache.getTTL.
  now rewrite Hmoment.
Qed.

End CacheExpiry.

(** C2 as stated fails at the boundary: an entry created at 0 with a
    time-to-live of 300000 is served at clock reading 300000, where
    [now - createdAt < ttlMs] is false. *)
Lemma get_at_exact_ttl_is_a_hit :
  JsMap.get (@QueryCache.getCacheKey Fixture.tagHash "SELECT 1" None)
            (QueryCache.cache Fixture.oneEntry)
    = Some (CachedResult.mk Fixture.emptyResult 0 300000)
  /\ snd (@QueryCache.get Fixture.tagHash 300000 "SELECT 1" None Fixture.oneEntry)
     = Some Fixture.emptyResult
  /\ ~ (300000 - 0 < 300000).
Proof. split; [reflexivity | split; [reflexivity | lia]]. Qed.

Lemma get_serves_until_ttl_exceeded_witness :
  (snd (@QueryCache.get Fixture.tagHash 300001 "SELECT 1" None Fixture.oneEntry)
     = Some Fixture.emptyResult
   <-> 300001 - 0 <= 300000)
  /\ @QueryCache.get Fixture.tagHash 300001 "SELECT 1" None Fixture.oneEntry
     = (QueryCache.create 100, None)
  /\ JsMap.get (@QueryCache.getCacheKey Fixture.tagHash "SELECT 1" None)
       (JsMap.delete (@QueryCache.getCacheKey Fixture.tagHash "SELECT 1" None)
                     (QueryCache.cache Fixture.oneEntry))
     = None.
Proof.
  apply (@get_serves_until_ttl_exceeded Fixture.tagHash 300001 "SELECT 1" None
           Fixture.oneEntry (CachedResult.mk Fixture.emptyResult 0 300000)).
  - repeat constructor. simpl. tauto.
  - reflexivity.
Defined.

(** C8 as stated fails: a query that contains [current_date] and an
    aggregate is given the long time-to-live, not the short one. *)
Lemma getTTL_aggregate_wins_over_current_date :
  JsString.includes
    (JsString.toLowerCase
       "SELECT AVG(value) FROM hkquantitytypeidentifierheartrate WHERE startDate >= CURRENT_DATE")
    "current_date" = true
  /\ QueryCache.getTTL
       "SELECT AVG(value) FROM hkquantitytypeidentifierheartrate WHERE startDate >= CURRENT_DATE"
     = 10 * 60 * 1000
  /\ 10 * 60 * 1000 <> 60 * 1000.
Proof. split; [reflexivity | split; [reflexivity | discriminate]]. Qed.

Lemma getTTL_current_moment_witness :
  QueryCache.getTTL "SELECT value FROM t WHERE startDate >= CURRENT_DATE"
  = 60 * 1000.
Proof.
  apply (getTTL_current_moment "SELECT value FROM t WHERE startDate >= CURRENT_DATE").
  reflexivity.
Defined.

(** ** The query cache: capacity *)

Section CacheCapacity.
Context `{Sha256}.

(** The loop of [findOldestEntry], started with a candidate: either the
    candidate survives and nothing is strictly older, or the winner is
    the first entry that holds the least timestamp. *)
Lemma olderOf_fold (m : list (string * CachedResult.t)) :
  forall (k0 : string) (t0 : Z),
    (fold_left QueryCache.olderOf m (Some k0, Some t0) = (Some k0, Some t0)
     /\ Forall (fun x => t0 <= CachedResult.timestamp (snd x)) m)
    \/ exists a k v b,
         m = (a ++ (k, v) :: b)%list
         /\ fold_left QueryCache.olderOf m (Some k0, Some t0)
            = (Some k, Some (CachedResult.timestamp v))
         /\ CachedResult.timestamp v < t0
         /\ Forall (fun x => CachedResult.timestamp v < CachedResult.timestamp (snd x)) a
         /\ Forall (fun x => CachedResult.timestamp v <= CachedResult.timestamp (snd x)) b.
Proof.
  induction m as [|[k1 v1] m IH]; intros k0 t0.
  - left. split; [reflexivity | constructor].
  - cbn [fold_left QueryCache.olderOf snd].
    destruct (Z.ltb_spec (CachedResult.timestamp v1) t0) as [Hlt|Hge].
    + right. destruct (IH k1 (CachedResult.timestamp v1))
        as [[Hfix Hall] | (a & k & v & b & -> & Hres & Hv & Ha & Hb)].
      * exists [], k1, v1, m. repeat split; auto.
      * exists ((k1, v1) :: a), k, v, b.
        split; [reflexivity|]. split; [exact Hres|]. split; [lia|].
        split; [|exact Hb]. constructor; [simpl; lia | exact Ha].
    + destruct (IH k0 t0)
        as [[Hfix Hall] | (a & k & v & b & -> & Hres & Hv & Ha & Hb)].
      * left. split; [exact Hfix | constructor; [simpl; lia | exact Hall]].
      * right. exists ((k1, v1) :: a), k, v, b.
        split; [reflexivity|]. split; [exact Hres|]. split; [exact Hv|].
        split; [|exact Hb]. constructor; [simpl; lia | exact Ha].
Qed.

(** [findOldestEntry] on a non-empty cache returns the key of the first
    entry, in insertion order, with the least timestamp. *)
Lemma findOldestEntry_first_minimum (c : QueryCache.t) :
  QueryCache.cache c <> [] ->
  exists a k v b,
    QueryCache.cache c = (a ++ (k, v) :: b)%list
    /\ QueryCache.findOldestEntry c = Some k
    /\ Forall (fun x => CachedResult.timestamp v < CachedResult.timestamp (snd x)) a
    /\ Forall (fun x => CachedResult.timestamp v <= CachedResult.timestamp (snd x)) b.
Proof.
  unfold QueryCache.findOldestEntry, JsMap.entries.
  destruct (QueryCache.cache c) as [|[k1 v1] m]; [congruence|]. intros _.
  cbn [fold_left QueryCache.olderOf snd].
  destruct (olderOf_fold m k1 (CachedResult.timestamp v1))
    as [[Hfix Hall] | (a & k & v & b & -> & Hres & Hv & Ha & Hb)].
  - exists [], k1, v1, m. rewrite Hfix. repeat split; auto.
  - exists ((k1, v1) :: a), k, v, b. rewrite Hres.
    split; [reflexivity|]. split; [reflexivity|].
    split; [|exact Hb]. constructor; [simpl; lia | exact Ha].
Qed.

Lemma setAll_maxSize (calls : list CacheRun.SetCall) :
  forall c, QueryCache.maxSize (CacheRun.setAll calls c) = QueryCache.maxSize c.
Proof.
  induction calls as [|s calls IH]; intros c; [reflexivity|].
  unfold CacheRun.setAll in *. simpl. now rewrite IH.
Qed.

Lemma keys_storedBy (calls : list CacheRun.SetCall) :
  JsMap.keys (map CacheRun.storedBy calls) = map CacheRun.keyOf calls.
Proof. unfold JsMap.keys. rewrite map_map. reflexivity. Qed.

(** Below capacity and with fresh keys, every [set] appends. *)
Lemma setAll_below_capacity (calls : list CacheRun.SetCall) :
  forall c,
    NoDup (JsMap.keys (QueryCache.cache c) ++ map CacheRun.keyOf calls) ->
    Z.of_nat (length (QueryCache.cache c)) + Z.of_nat (length calls)
      <= QueryCache.maxSize c ->
    CacheRun.setAll calls c
    = QueryCache.mk (QueryCache.cache c ++ map CacheRun.storedBy calls)
                    (QueryCache.maxSize c).
Proof.
  induction calls as [|s calls IH]; intros [m N] Hnd Hlen; simpl in *.
  - now rewrite app_nil_r.
  - unfold CacheRun.setAll in *. cbn [fold_left].
    assert (Hset : QueryCache.set (CacheRun.now s) (CacheRun.query s)
                     (CacheRun.result s) (CacheRun.params s) (QueryCache.mk m N)
                   = QueryCache.mk (m ++ [CacheRun.storedBy s]) N).
    { unfold QueryCache.set. cbn [QueryCache.cache QueryCache.maxSize].
      unfold JsMap.size. rewrite Z.geb_leb.
      destruct (Z.leb_spec N (Z.of_nat (length m))) as [Hfull|_]; [lia|].
      rewrite set_fresh; [reflexivity|].
      apply get_None_iff. apply NoDup_remove_2 in Hnd.
      intros Hin. apply Hnd. apply in_or_app. now left. }
    rewrite Hset, IH; cbn [QueryCache.cache QueryCache.maxSize].
    + now rewrite <- app_assoc.
    + unfold JsMap.keys in *. rewrite map_app, <- app_assoc. exact Hnd.
    + rewrite length_app. simpl. lia.
Qed.

Lemma get_split (a b : JsMap.t CachedResult.t) (k : string) (v : CachedResult.t) :
  ~ In k (JsMap.keys a) -> JsMap.get k (a ++ (k, v) :: b) = Some v.
Proof.
  induction a as [|[k' v'] r IH]; simpl; intros Hni.
  - now rewrite String.eqb_refl.
  - destruct (String.eqb_spec k k') as [->|Hk]; [tauto|]. apply IH. tauto.
Qed.

(** C3, amended.  For a cache of capacity [N >= 1], [N + 1] calls of
    [set] with pairwise distinct keys, started on the empty cache,
    leave exactly [N] entries.  The last call finds the cache full and
    deletes one entry before it inserts: the first one, in insertion
    order, that holds the least creation timestamp among the [N]
    stored ones.  All other entries and the new one are stored. *)
Theorem set_at_capacity_evicts_first_oldest
    (N : Z) (pre : list CacheRun.SetCall) (last : CacheRun.SetCall) :
  (forall input, sha256_hex input <> EmptyString) ->
  1 <= N ->
  Z.of_nat (length pre) = N ->
  NoDup (map CacheRun.keyOf (pre ++ [last])) ->
  QueryCache.getSize (CacheRun.setAll (pre ++ [last]) (QueryCache.create N)) = N
  /\ exists a victim b,
       pre = a ++ victim :: b
       /\ Forall (fun s => CacheRun.now victim < CacheRun.now s) a
       /\ Forall (fun s => CacheRun.now victim <= CacheRun.now s) b
       /\ QueryCache.findOldestEntry (CacheRun.setAll pre (QueryCache.create N))
          = Some (CacheRun.keyOf victim)
       /\ CacheRun.setAll (pre ++ [last]) (QueryCache.create N)
          = QueryCache.mk (map CacheRun.storedBy (a ++ b ++ [last])) N
       /\ JsMap.get (CacheRun.keyOf victim)
            (QueryCache.cache
               (CacheRun.setAll (pre ++ [last]) (QueryCache.create N)))
          = None.
Proof.
  intros Hhash HN Hlen Hnd.
  assert (Hndpre : NoDup (map CacheRun.keyOf pre)).
  { rewrite map_app in Hnd. now apply NoDup_app_remove_r in Hnd. }
  assert (Hpre : CacheRun.setAll pre (QueryCache.create N)
                 = QueryCache.mk (map CacheRun.storedBy pre) N).
  { rewrite setAll_below_capacity; simpl; [reflexivity | exact Hndpre | lia]. }
  destruct (findOldestEntry_first_minimum
              (QueryCache.mk (map CacheRun.storedBy pre) N))
    as (ma & k & v & mb & Hsplit & Hfind & Hma & Hmb).
  { simpl. destruct pre; simpl in *; [lia | discriminate]. }
  cbn [QueryCache.cache] in Hsplit.
  apply map_eq_app in Hsplit. destruct Hsplit as (a & rest & -> & <- & Hrest).
  apply map_eq_cons in Hrest. destruct Hrest as (victim & b & -> & Hvic & <-).
  assert (Hk : k = CacheRun.keyOf victim) by (now inversion Hvic).
  assert (Hv : CachedResult.timestamp v = CacheRun.now victim)
    by (inversion Hvic; reflexivity).
  subst k. rewrite Hv in Hma, Hmb.
  rewrite Forall_map in Hma, Hmb. cbn [CacheRun.storedBy snd CachedResult.timestamp] in Hma, Hmb.
  assert (Hfinal : CacheRun.setAll ((a ++ victim :: b) ++ [last]) (QueryCache.create N)
                   = QueryCache.mk (map CacheRun.storedBy (a ++ b ++ [last])) N).
  { unfold CacheRun.setAll at 1. rewrite fold_left_app. cbn [fold_left].
    fold (CacheRun.setAll (a ++ victim :: b) (QueryCache.create N)).
    rewrite Hpre. unfold QueryCache.set.
    cbn [QueryCache.cache QueryCache.maxSize]. rewrite Hfind.
    unfold JsMap.size. rewrite length_map, Hlen, Z.geb_leb, Z.leb_refl.
    assert (Htruthy : JsString.truthy (CacheRun.keyOf victim) = true).
    { unfold CacheRun.keyOf, QueryCache.getCacheKey.
      specialize (Hhash (CacheRun.query victim ++
                           match CacheRun.params victim with
                           | Some j => j
                           | None => EmptyString
                           end)%string).
      destruct (sha256_hex _); [congruence | reflexivity]. }
    rewrite Htruthy. f_equal.
    rewrite map_app. cbn [map]. rewrite Hvic.
    rewrite delete_split.
    - rewrite set_fresh.
      + rewrite !map_app. cbn [map]. now rewrite app_assoc.
      + apply get_None_iff. rewrite <- map_app, keys_storedBy.
        rewrite map_app in Hnd. cbn [map] in Hnd.
        apply NoDup_remove_2 in Hnd. rewrite app_nil_r in Hnd.
        intros Hin. apply Hnd. rewrite !map_app in *. cbn [map].
        apply in_app_or in Hin. apply in_or_app.
        destruct Hin; [now left | right; now right].
    - rewrite keys_storedBy. rewrite map_app in Hndpre. cbn [map] in Hndpre.
      apply NoDup_remove_2 in Hndpre. intros Hin. apply Hndpre.
      apply in_or_app. now left. }
  split.
  - rewrite Hfinal. unfold QueryCache.getSize, JsMap.size.
    cbn [QueryCache.cache]. rewrite length_map, !length_app. cbn [length].
    rewrite length_app in Hlen. cbn [length] in Hlen. lia.
  - exists a, victim, b. split; [reflexivity|].
    split; [exact Hma|]. split; [exact Hmb|].
    split; [rewrite Hpre; exact Hfind|].
    split; [exact Hfinal|].
    rewrite Hfinal. cbn [QueryCache.cache]. apply get_None_iff.
    rewrite keys_storedBy.
    replace ((a ++ victim :: b) ++ [last]) with (a ++ victim :: (b ++ [last])) in Hnd
      by (now rewrite <- app_assoc).
    rewrite map_app in Hnd. cbn [map] in Hnd. apply NoDup_remove_2 in Hnd.
    now rewrite map_app.
Qed.

End CacheCapacity.

Section CacheOverwrite.
Context `{Sha256}.

(** C9.  On a full cache (size equal to [maxSize]), [set] for a key
    that is already stored first deletes the oldest entry, the one
    [findOldestEntry] names and whose timestamp no stored entry
    undercuts, and then writes the key.  When the oldest entry has
    another key, that entry is lost and the size drops to
    [maxSize - 1]; when it is the key itself, the size stays. *)
Theorem set_stored_key_on_full_cache_drops_oldest
    (now : Z) (query : string) (result : QueryResult.t)
    (params : option string) (c : QueryCache.t) (old : CachedResult.t) :
  JsMap.wf (QueryCache.cache c) ->
  Forall (fun k => JsString.truthy k = true) (JsMap.keys (QueryCache.cache c)) ->
  JsMap.size (QueryCache.cache c) = QueryCache.maxSize c ->
  JsMap.get (QueryCache.getCacheKey query params) (QueryCache.cache c) = Some old ->
  exists (oldest : string) (stamped : CachedResult.t),
    QueryCache.findOldestEntry c = Some oldest
    /\ JsMap.get oldest (QueryCache.cache c) = Some stamped
    /\ Forall (fun x => CachedResult.timestamp stamped
                        <= CachedResult.timestamp (snd x))
              (QueryCache.cache c)
    /\ QueryCache.cache (QueryCache.set now query result params c)
       = JsMap.set (QueryCache.getCacheKey query params)
           (CachedResult.mk result now (QueryCache.getTTL query))
           (JsMap.delete oldest (QueryCache.cache c))
    /\ QueryCache.getSize (QueryCache.set now query result params c)
       = (if String.eqb oldest (QueryCache.getCacheKey query params)
          then QueryCache.maxSize c
          else QueryCache.maxSize c - 1)
    /\ JsMap.get oldest
         (QueryCache.cache (QueryCache.set now query result params c))
       = (if String.eqb oldest (QueryCache.getCacheKey query params)
          then Some (CachedResult.mk result now (QueryCache.getTTL query))
          else None)
    /\ JsMap.get (QueryCache.getCacheKey query params)
         (QueryCache.cache (QueryCache.set now query result params c))
       = Some (CachedResult.mk result now (QueryCache.getTTL query)).
Proof.
  intros Hwf Htruthy Hfull Hstored.
  destruct (findOldestEntry_first_minimum c)
    as (a & oldest & v & b & Hsplit & Hfind & Ha & Hb).
  { intros Hnil. rewrite Hnil in Hstored. discriminate. }
  assert (Hni : ~ In oldest (JsMap.keys a)).
  { unfold JsMap.wf in Hwf. rewrite Hsplit in Hwf. unfold JsMap.keys in *.
    rewrite map_app in Hwf. cbn [map fst] in Hwf.
    apply NoDup_remove_2 in Hwf. intros Hin. apply Hwf.
    apply in_or_app. now left. }
  assert (Hold : JsMap.get oldest (QueryCache.cache c) = Some v).
  { rewrite Hsplit. now apply get_split. }
  assert (Hset : QueryCache.cache (QueryCache.set now query result params c)
                 = JsMap.set (QueryCache.getCacheKey query params)
                     (CachedResult.mk result now (QueryCache.getTTL query))
                     (JsMap.delete oldest (QueryCache.cache c))).
  { unfold QueryCache.set. cbn [QueryCache.cache]. rewrite Hfull, Hfind.
    rewrite Z.geb_leb, Z.leb_refl.
    rewrite Forall_forall in Htruthy.
    rewrite (Htruthy oldest (get_Some_key _ _ _ Hold)). reflexivity. }
  pose proof (length_delete_present _ _ _ Hold) as Hlen.
  unfold JsMap.size in Hfull.
  exists oldest, v.
  split; [exact Hfind|]. split; [exact Hold|].
  split.
  { rewrite Hsplit. apply Forall_app. split.
    - eapply Forall_impl; [|exact Ha]. simpl. intros; lia.
    - constructor; [simpl; lia | exact Hb]. }
  split; [exact Hset|].
  unfold QueryCache.getSize, JsMap.size. rewrite Hset.
  destruct (String.eqb_spec oldest (QueryCache.getCacheKey query params))
    as [Hsame|Hother].
  - rewrite <- Hsame.
    rewrite (set_fresh _ _ _ (get_delete_same _ _ Hwf)).
    rewrite length_app. cbn [length].
    split; [lia|]. rewrite <- set_fresh by now apply get_delete_same.
    split; apply get_set_same.
  - assert (Hkept : JsMap.get (QueryCache.getCacheKey query params)
                      (JsMap.delete oldest (QueryCache.cache c)) = Some old)
      by (rewrite get_delete_other; assumption).
    rewrite (length_set_present _ _ _ _ Hkept).
    split; [lia|]. split; [|apply get_set_same].
    rewrite get_set_other by congruence. now apply get_delete_same.
Qed.

End CacheOverwrite.

(** C3 as stated fails for capacity 0: the cache is "full" when empty,
    [findOldestEntry] finds nothing to delete, and the entry is
    inserted; one call leaves one entry, not zero. *)
Lemma capacity_zero_keeps_the_entry :
  QueryCache.getSize
    (@CacheRun.setAll Fixture.tagHash ([] ++ [Fixture.callAt 5 "q1"])
       (QueryCache.create 0)) = 1
  /\ Z.of_nat (length (@nil CacheRun.SetCall)) = 0
  /\ 1 <> 0.
Proof. split; [reflexivity | split; [reflexivity | discriminate]]. Qed.

Lemma set_at_capacity_evicts_first_oldest_witness :
  QueryCache.getSize
    (@CacheRun.setAll Fixture.tagHash
       ([Fixture.callAt 10 "q1"; Fixture.callAt 5 "q2"] ++ [Fixture.callAt 20 "q3"])
       (QueryCache.create 2)) = 2
  /\ exists a victim b,
       [Fixture.callAt 10 "q1"; Fixture.callAt 5 "q2"] = a ++ victim :: b
       /\ Forall (fun s => CacheRun.now victim < CacheRun.now s) a
       /\ Forall (fun s => CacheRun.now victim <= CacheRun.now s) b
       /\ QueryCache.findOldestEntry
            (@CacheRun.setAll Fixture.tagHash
               [Fixture.callAt 10 "q1"; Fixture.callAt 5 "q2"] (QueryCache.create 2))
          = Some (@CacheRun.keyOf Fixture.tagHash victim)
       /\ @CacheRun.setAll Fixture.tagHash
            ([Fixture.callAt 10 "q1"; Fixture.callAt 5 "q2"] ++ [Fixture.callAt 20 "q3"])
            (QueryCache.create 2)
          = QueryCache.mk
              (map (@CacheRun.storedBy Fixture.tagHash) (a ++ b ++ [Fixture.callAt 20 "q3"])) 2
       /\ JsMap.get (@CacheRun.keyOf Fixture.tagHash victim)
            (QueryCache.cache
               (@CacheRun.setAll Fixture.tagHash
                  ([Fixture.callAt 10 "q1"; Fixture.callAt 5 "q2"]
                     ++ [Fixture.callAt 20 "q3"])
                  (QueryCache.create 2)))
          = None.
Proof.
  apply (@set_at_capacity_evicts_first_oldest Fixture.tagHash 2
           [Fixture.callAt 10 "q1"; Fixture.callAt 5 "q2"] (Fixture.callAt 20 "q3")).
  - intros input. discriminate.
  - lia.
  - reflexivity.
  - repeat constructor; simpl; intuition discriminate.
Defined.

Lemma set_stored_key_on_full_cache_drops_oldest_witness :
  exists (oldest : string) (stamped : CachedResult.t),
    QueryCache.findOldestEntry Fixture.fullOfTwo = Some oldest
    /\ JsMap.get oldest (QueryCache.cache Fixture.fullOfTwo) = Some stamped
    /\ Forall (fun x => CachedResult.timestamp stamped
                        <= CachedResult.timestamp (snd x))
              (QueryCache.cache Fixture.fullOfTwo)
    /\ QueryCache.cache
         (@QueryCache.set Fixture.tagHash 30 "q1" Fixture.emptyResult None
            Fixture.fullOfTwo)
       = JsMap.set "h:q1" (CachedResult.mk Fixture.emptyResult 30 300000)
           (JsMap.delete oldest (QueryCache.cache Fixture.fullOfTwo))
    /\ QueryCache.getSize
         (@QueryCache.set Fixture.tagHash 30 "q1" Fixture.emptyResult None
            Fixture.fullOfTwo)
       = (if String.eqb oldest "h:q1" then 2 else 2 - 1)
    /\ JsMap.get oldest
         (QueryCache.cache
            (@QueryCache.set Fixture.tagHash 30 "q1" Fixture.emptyResult None
               Fixture.fullOfTwo))
       = (if String.eqb oldest "h:q1"
          then Some (CachedResult.mk Fixture.emptyResult 30 300000)
          else None)
    /\ JsMap.get "h:q1"
         (QueryCache.cache
            (@QueryCache.set Fixture.tagHash 30 "q1" Fixture.emptyResult None
               Fixture.fullOfTwo))
       = Some (CachedResult.mk Fixture.emptyResult 30 300000).
Proof.
  apply (@set_stored_key_on_full_cache_drops_oldest Fixture.tagHash 30 "q1"
           Fixture.emptyResult None Fixture.fullOfTwo
           (CachedResult.mk Fixture.emptyResult 10 300000)).
  - repeat constructor; simpl; intuition discriminate.
  - repeat constructor.
  - reflexivity.
  - reflexivity.
Defined.

(** The run behind it: the cache holds [q1] (stored at 10) and [q2]
    (stored at 5) and is full; writing [q1] again deletes [q2]. *)
Example set_stored_key_loses_the_other_entry :
  QueryCache.findOldestEntry Fixture.fullOfTwo = Some "h:q2"%string
  /\ QueryCache.cache
       (@QueryCache.set Fixture.tagHash 30 "q1" Fixture.emptyResult None
          Fixture.fullOfTwo)
     = [("h:q1"%string, CachedResult.mk Fixture.emptyResult 30 300000)]
  /\ QueryCache.getSize
       (@QueryCache.set Fixture.tagHash 30 "q1" Fixture.emptyResult None
          Fixture.fullOfTwo) = 1.
Proof. repeat split; reflexivity. Qed.

(** ** The catalog: least-recently-used order *)

Section StableSort.
(** A comparator that is the difference of two integer keys. *)
Context {A : Type} (key : A -> Z) (byKey : A -> A -> Z).
Hypothesis byKey_difference : forall x y, byKey x y = key x - key y.

Lemma insert_perm (x : A) (l : list A) :
  Permutation (JsArray.insert byKey x l) (x :: l).
Proof.
  induction l as [|y r IH]; simpl; [reflexivity|].
  destruct (byKey x y <=? 0); [reflexivity|].
  rewrite IH. apply perm_swap.
Qed.

Lemma sort_perm (l : list A) : Permutation (JsArray.sort byKey l) l.
Proof.
  induction l as [|x r IH]; simpl; [reflexivity|].
  unfold JsArray.sort in IH |- *. simpl.
  rewrite insert_perm. now constructor.
Qed.

Lemma insert_Forall (P : A -> Prop) (x : A) (l : list A) :
  P x -> Forall P l -> Forall P (JsArray.insert byKey x l).
Proof.
  intros Hx Hl. induction Hl as [|y r Hy Hr IH]; simpl.
  - now constructor.
  - destruct (byKey x y <=? 0); repeat constructor; assumption.
Qed.

Lemma insert_sorted (x : A) (l : list A) :
  StronglySorted (fun a b => key a <= key b) l ->
  StronglySorted (fun a b => key a <= key b) (JsArray.insert byKey x l).
Proof.
  induction 1 as [|y r Hr IH Hy]; simpl.
  - repeat constructor.
  - rewrite byKey_difference. destruct (Z.leb_spec (key x - key y) 0) as [Hle|Hgt].
    + constructor; [now constructor|].
      constructor; [lia|]. eapply Forall_impl; [|exact Hy].
      simpl. intros; lia.
    + constructor; [exact IH|].
      apply insert_Forall; [lia | exact Hy].
Qed.

Lemma sort_sorted (l : list A) :
  StronglySorted (fun a b => key a <= key b) (JsArray.sort byKey l).
Proof.
  induction l as [|x r IH]; [constructor|].
  unfold JsArray.sort in *. simpl. now apply insert_sorted.
Qed.

(** An element only moves behind elements with a strictly smaller key,
    so the elements of one key keep their order. *)
Lemma insert_stable (t : Z) (x : A) (l : list A) :
  filter (fun a => key a =? t) (JsArray.insert byKey x l)
  = filter (fun a => key a =? t) (x :: l).
Proof.
  induction l as [|y r IH]; [reflexivity|].
  cbn [JsArray.insert]. rewrite byKey_difference.
  destruct (Z.leb_spec (key x - key y) 0) as [Hle|Hgt]; [reflexivity|].
  cbn [filter] in *. rewrite IH.
  destruct (Z.eqb_spec (key x) t), (Z.eqb_spec (key y) t);
    try reflexivity; lia.
Qed.

Lemma sort_stable (t : Z) (l : list A) :
  filter (fun a => key a =? t) (JsArray.sort byKey l)
  = filter (fun a => key a =? t) l.
Proof.
  induction l as [|x r IH]; [reflexivity|].
  unfold JsArray.sort in *. cbn [fold_right].
  rewrite insert_stable. cbn [filter]. now rewrite IH.
Qed.

End StableSort.

(** ** Facts about the catalog *)

Lemma lowerChar_idempotent (c : ascii) :
  JsString.lowerChar (JsString.lowerChar c) = JsString.lowerChar c.
Proof. destruct c as [[] [] [] [] [] [] [] []]; reflexivity. Qed.

Lemma toLowerCase_idempotent (s : string) :
  JsString.toLowerCase (JsString.toLowerCase s) = JsString.toLowerCase s.
Proof.
  induction s as [|c r IH]; simpl; [reflexivity|].
  now rewrite lowerChar_idempotent, IH.
Qed.

Lemma In_get {V : Type} (m : JsMap.t V) (k : string) (v : V) :
  JsMap.wf m -> In (k, v) m -> JsMap.get k m = Some v.
Proof.
  unfold JsMap.wf. induction m as [|[k' v'] r IH]; simpl; [tauto|].
  intros Hnd [Heq|Hin]; inversion Hnd as [|? ? Hni Hnd']; subst.
  - inversion Heq; subst. now rewrite String.eqb_refl.
  - destruct (String.eqb_spec k k') as [->|Hne]; [|now apply IH].
    exfalso. apply Hni. change k' with (fst (k', v)). now apply in_map.
Qed.

Lemma keys_set_subset {V : Type} (m : JsMap.t V) (k : string) (v : V) :
  forall x, In x (JsMap.keys (JsMap.set k v m)) -> x = k \/ In x (JsMap.keys m).
Proof.
  induction m as [|[k' v'] r IH]; simpl; intros x.
  - intros [<-|[]]. now left.
  - destruct (String.eqb_spec k k') as [->|Hne]; simpl.
    + intros [<-|Hin]; [now left | right; now right].
    + intros [<-|Hin]; [right; now left|].
      destruct (IH x Hin) as [->|Hin']; [now left | right; now right].
Qed.

Lemma wf_catalog_set (c : FileCatalog.t) (k : string) (e : CatalogEntry.t) :
  JsString.toLowerCase k = k ->
  FileCatalog.wf c -> FileCatalog.wf (JsMap.set k e c).
Proof.
  intros Hk [Hnd Hlow]. split; [now apply wf_set|].
  rewrite Forall_forall in *. intros x Hx.
  destruct (keys_set_subset _ _ _ _ Hx) as [->|Hin]; auto.
Qed.

(** Every catalog [scanDirectory] builds is well formed. *)
Lemma scanDirectory_wf (matched : list (string * string)) :
  FileCatalog.wf (FileCatalog.scanDirectory matched).
Proof.
  unfold FileCatalog.scanDirectory.
  assert (Hgen : forall c, FileCatalog.wf c ->
                           FileCatalog.wf (fold_left FileCatalog.register matched c)).
  { induction matched as [|[m p] rest IH]; intros c Hc; [exact Hc|].
    simpl. apply IH. apply wf_catalog_set; [apply toLowerCase_idempotent | exact Hc]. }
  apply Hgen. split; constructor.
Qed.

(** The methods that write an entry keep the catalog well formed. *)
Lemma markLoaded_wf (name : string) (rowCount now : Z) (c : FileCatalog.t) :
  FileCatalog.wf c -> FileCatalog.wf (FileCatalog.markLoaded name rowCount now c).
Proof.
  intros Hc. unfold FileCatalog.markLoaded.
  destruct (JsMap.get _ c); [|exact Hc].
  apply wf_catalog_set; [apply toLowerCase_idempotent | exact Hc].
Qed.

Lemma markUnloaded_wf (name : string) (c : FileCatalog.t) :
  FileCatalog.wf c -> FileCatalog.wf (FileCatalog.markUnloaded name c).
Proof.
  intros Hc. unfold FileCatalog.markUnloaded.
  destruct (JsMap.get _ c); [|exact Hc].
  apply wf_catalog_set; [apply toLowerCase_idempotent | exact Hc].
Qed.

Lemma wf_key_lower (c : FileCatalog.t) (k : string) :
  FileCatalog.wf c -> In k (JsMap.keys c) -> JsString.toLowerCase k = k.
Proof. intros [_ Hlow] Hin. rewrite Forall_forall in Hlow. auto. Qed.

Lemma getEntry_of_key (c : FileCatalog.t) (k : string) (e : CatalogEntry.t) :
  FileCatalog.wf c -> In (k, e) c -> FileCatalog.getEntry k c = Some e.
Proof.
  intros Hc Hin. unfold FileCatalog.getEntry.
  rewrite (wf_key_lower c k Hc).
  - apply In_get; [apply Hc | exact Hin].
  - change k with (fst (k, e)). now apply in_map.
Qed.

(** ** The loader: unloading *)

Section Unload.
Context `{Engine}.

(** [unloadTable] in one step: the statement goes to the engine; the
    catalog is written only when the engine accepts it. *)
Lemma unloadTable_run (tableName : string) (w : World) :
  TableLoader.unloadTable tableName w
  = (mkWorld (fst (conn_run (TableLoader.dropIfExistsSql tableName) (conn w)))
       (issued w ++ [TableLoader.dropIfExistsSql tableName])
       (match snd (conn_run (TableLoader.dropIfExistsSql tableName) (conn w)) with
        | Some _ => catalog w
        | None => FileCatalog.markUnloaded tableName (catalog w)
        end)
       (queryCache w) (clock w) (reads w),
     Returned tt).
Proof.
  unfold TableLoader.unloadTable, tryCatch, bind, HealthDataDB.run,
    modifyCatalog, ret.
  destruct (conn_run (TableLoader.dropIfExistsSql tableName) (conn w))
    as [c' [msg|]]; reflexivity.
Qed.

(** C10.  [unloadTable] returns normally for every table name and every
    state of the world: it issues the one statement
    [DROP TABLE IF EXISTS name] and throws nothing.  When the engine
    rejects the statement, [markUnloaded] is not reached and the
    catalog is unchanged, so the entry keeps [loaded] and [rowCount];
    when the engine accepts it, the catalog is the one [markUnloaded]
    gives. *)
Theorem unloadTable_swallows_engine_failure (tableName : string) (w : World) :
  snd (TableLoader.unloadTable tableName w) = Returned tt
  /\ issued (fst (TableLoader.unloadTable tableName w))
     = issued w ++ [TableLoader.dropIfExistsSql tableName]
  /\ catalog (fst (TableLoader.unloadTable tableName w))
     = match snd (conn_run (TableLoader.dropIfExistsSql tableName) (conn w)) with
       | Some _ => catalog w
       | None => FileCatalog.markUnloaded tableName (catalog w)
       end
  /\ FileCatalog.getEntry tableName (catalog (fst (TableLoader.unloadTable tableName w)))
     = match snd (conn_run (TableLoader.dropIfExistsSql tableName) (conn w)) with
       | Some _ => FileCatalog.getEntry tableName (catalog w)
       | None =>
           FileCatalog.getEntry tableName
             (FileCatalog.markUnloaded tableName (catalog w))
       end.
Proof.
  rewrite unloadTable_run. cbn [fst snd issued catalog].
  repeat split.
  destruct (snd (conn_run _ _)); reflexivity.
Qed.

End Unload.

(** ** The memory manager: eviction order *)

Section Eviction.
Context `{Engine}.

Lemma loaded_pair_sorted (c : FileCatalog.t) (a b : string)
                         (ea eb : CatalogEntry.t) :
  Permutation [(a, ea); (b, eb)] (filter FileCatalog.isLoaded (JsMap.entries c)) ->
  CatalogEntry.lastAccessed ea = Some 0 ->
  CatalogEntry.lastAccessed eb = Some 10 ->
  FileCatalog.loadedByLastAccess c = [(a, ea); (b, eb)].
Proof.
  intros Hperm Hea Heb. unfold FileCatalog.loadedByLastAccess.
  destruct (Permutation_length_2_inv Hperm) as [-> | ->];
    cbn [JsArray.sort fold_right JsArray.insert];
    unfold FileCatalog.byAccessTime, FileCatalog.accessTime; cbn [snd];
    rewrite Hea, Heb; reflexivity.
Qed.

(** C6.  For every catalog, [getTablesByLastAccess] returns exactly the
    names of the loaded tables, in ascending order of [lastAccessed] (a
    missing one counts as 0), and tables with equal [lastAccessed]
    keep their catalog insertion order.  Consequently, with two loaded
    tables [a] (accessed at 0) and [b] (accessed at 10),
    [forceEviction(1)] hands [a] and only [a] to [unloadTable]: it
    issues [DROP TABLE IF EXISTS a] and, the engine accepting it, [a]
    is marked not loaded while [b] stays loaded. *)
Theorem getTablesByLastAccess_is_lru_order :
  (forall c : FileCatalog.t,
      Permutation (FileCatalog.getTablesByLastAccess c)
                  (FileCatalog.getLoadedTables c)
      /\ FileCatalog.getTablesByLastAccess c
         = map fst (FileCatalog.loadedByLastAccess c)
      /\ Permutation (FileCatalog.loadedByLastAccess c)
                     (filter FileCatalog.isLoaded (JsMap.entries c))
      /\ StronglySorted
           (fun x y => FileCatalog.accessTime x <= FileCatalog.accessTime y)
           (FileCatalog.loadedByLastAccess c)
      /\ forall t : Z,
           filter (fun x => FileCatalog.accessTime x =? t)
                  (FileCatalog.loadedByLastAccess c)
           = filter (fun x => FileCatalog.accessTime x =? t)
                    (filter FileCatalog.isLoaded (JsMap.entries c)))
  /\ (forall (w : World) (a b : string) (ea eb : CatalogEntry.t),
         FileCatalog.wf (catalog w) ->
         Permutation [(a, ea); (b, eb)]
           (filter FileCatalog.isLoaded (JsMap.entries (catalog w))) ->
         CatalogEntry.lastAccessed ea = Some 0 ->
         CatalogEntry.lastAccessed eb = Some 10 ->
         snd (conn_run (TableLoader.dropIfExistsSql a) (conn w)) = None ->
         FileCatalog.getTablesByLastAccess (catalog w) = [a; b]
         /\ snd (MemoryManager.forceEviction 1 w) = Returned tt
         /\ issued (fst (MemoryManager.forceEviction 1 w))
            = issued w ++ [TableLoader.dropIfExistsSql a]
         /\ catalog (fst (MemoryManager.forceEviction 1 w))
            = FileCatalog.markUnloaded a (catalog w)
         /\ option_map CatalogEntry.loaded
              (FileCatalog.getEntry a (catalog (fst (MemoryManager.forceEviction 1 w))))
            = Some false
         /\ option_map CatalogEntry.loaded
              (FileCatalog.getEntry b (catalog (fst (MemoryManager.forceEviction 1 w))))
            = Some true).
Proof.
  split.
  - intros c. unfold FileCatalog.getTablesByLastAccess,
      FileCatalog.getLoadedTables, FileCatalog.loadedByLastAccess.
    split; [apply Permutation_map, sort_perm|].
    split; [reflexivity|].
    split; [apply sort_perm|].
    split.
    + apply (sort_sorted FileCatalog.accessTime). reflexivity.
    + intros t. apply (sort_stable FileCatalog.accessTime). reflexivity.
  - intros w a b ea eb Hwf Hperm Hea Heb Haccept.
    pose proof (loaded_pair_sorted _ _ _ _ _ Hperm Hea Heb) as Hsorted.
    assert (Htabs : FileCatalog.getTablesByLastAccess (catalog w) = [a; b]).
    { unfold FileCatalog.getTablesByLastAccess. now rewrite Hsorted. }
    assert (Hrun : MemoryManager.forceEviction 1 w
                   = (mkWorld
                        (fst (conn_run (TableLoader.dropIfExistsSql a) (conn w)))
                        (issued w ++ [TableLoader.dropIfExistsSql a])
                        (FileCatalog.markUnloaded a (catalog w))
                        (queryCache w) (clock w) (reads w),
                      Returned tt)).
    { unfold MemoryManager.forceEviction, bind at 1, getCatalog.
      rewrite Htabs.
      change (JsArray.slice0 1 [a; b]) with [a].
      cbn [MemoryManager.unloadEach].
      unfold bind. rewrite unloadTable_run, Haccept. reflexivity. }
    assert (Hina : In (a, ea) (catalog w)).
    { eapply (proj1 (filter_In _ _ _)).
      eapply Permutation_in; [exact Hperm | now left]. }
    assert (Hinb : In (b, eb) (catalog w) /\ FileCatalog.isLoaded (b, eb) = true).
    { eapply (proj1 (filter_In _ _ _)).
      eapply Permutation_in; [exact Hperm | right; now left]. }
    destruct Hinb as [Hinb Hloadedb].
    assert (Hla : JsString.toLowerCase a = a).
    { apply (wf_key_lower (catalog w)); [exact Hwf|].
      change a with (fst (a, ea)). now apply in_map. }
    assert (Hlb : JsString.toLowerCase b = b).
    { apply (wf_key_lower (catalog w)); [exact Hwf|].
      change b with (fst (b, eb)). now apply in_map. }
    assert (Hga : JsMap.get a (catalog w) = Some ea)
      by (apply In_get; [apply Hwf | exact Hina]).
    assert (Hgb : JsMap.get b (catalog w) = Some eb)
      by (apply In_get; [apply Hwf | exact Hinb]).
    assert (Hab : a <> b) by (intros ->; congruence).
    rewrite Hrun. cbn [fst snd issued catalog].
    split; [exact Htabs|]. split; [reflexivity|]. split; [reflexivity|].
    split; [reflexivity|].
    unfold FileCatalog.getEntry, FileCatalog.markUnloaded.
    rewrite Hla, Hlb, Hga. split.
    + now rewrite get_set_same.
    + rewrite get_set_other by exact Hab. rewrite Hgb. exact (f_equal Some Hloadedb).
Qed.

End Eviction.

Lemma getTablesByLastAccess_is_lru_order_witness :
  FileCatalog.getTablesByLastAccess Fixture.twoLoaded = [Fixture.steps; Fixture.heart]
  /\ snd (@MemoryManager.forceEviction (Fixture.scripted (Fixture.counting 0)) 1
            (Fixture.world0 (Fixture.counting 0) Fixture.twoLoaded))
     = Returned tt
  /\ issued (fst (@MemoryManager.forceEviction (Fixture.scripted (Fixture.counting 0)) 1
                    (Fixture.world0 (Fixture.counting 0) Fixture.twoLoaded)))
     = [] ++ ["DROP TABLE IF EXISTS hkquantitytypeidentifierstepcount"%string]
  /\ catalog (fst (@MemoryManager.forceEviction (Fixture.scripted (Fixture.counting 0)) 1
                     (Fixture.world0 (Fixture.counting 0) Fixture.twoLoaded)))
     = FileCatalog.markUnloaded Fixture.steps Fixture.twoLoaded
  /\ option_map CatalogEntry.loaded
       (FileCatalog.getEntry Fixture.steps
          (catalog (fst (@MemoryManager.forceEviction (Fixture.scripted (Fixture.counting 0)) 1
                           (Fixture.world0 (Fixture.counting 0) Fixture.twoLoaded)))))
     = Some false
  /\ option_map CatalogEntry.loaded
       (FileCatalog.getEntry Fixture.heart
          (catalog (fst (@MemoryManager.forceEviction (Fixture.scripted (Fixture.counting 0)) 1
                           (Fixture.world0 (Fixture.counting 0) Fixture.twoLoaded)))))
     = Some true.
Proof.
  apply (proj2 (@getTablesByLastAccess_is_lru_order (Fixture.scripted (Fixture.counting 0)))
           (Fixture.world0 (Fixture.counting 0) Fixture.twoLoaded)
           Fixture.steps Fixture.heart Fixture.stepsEntry Fixture.heartEntry).
  - split.
    + repeat constructor; simpl; intuition discriminate.
    + repeat constructor.
  - apply perm_swap.
  - reflexivity.
  - reflexivity.
  - reflexivity.
Defined.

(** ** The loader: loading *)

Section Loading.
Context `{Engine} `{Calendar}.

(** C5.  For a table of the catalog that is not loaded: when the
    engine creates the staging table, reports a count of zero for it
    and accepts the drop, [ensureTableLoaded] returns normally; the
    statements issued are the create, the count and
    [DROP TABLE IF EXISTS <table>_staging]; the catalog is the one
    before, so [markLoaded] was not called and the entry's [loaded]
    flag is still false. *)
Theorem ensureTableLoaded_zero_rows_is_no_load
    (tableName : string) (w : World) (entry : CatalogEntry.t)
    (conn1 conn2 conn3 : Conn) (countResult : list Row) :
  FileCatalog.getEntry tableName (catalog w) = Some entry ->
  CatalogEntry.loaded entry = false ->
  conn_run
    (TableLoader.createStagingSql (TableLoader.stagingName tableName)
       (CatalogEntry.path entry)
       (isoDayBefore (clock w (reads w)) TableLoader.rollingWindowDays))
    (conn w) = (conn1, None) ->
  conn_all (TableLoader.countSql (TableLoader.stagingName tableName)) conn1
    = (conn2, inr countResult) ->
  TableLoader.countOf countResult = 0 ->
  conn_run (TableLoader.dropIfExistsSql (TableLoader.stagingName tableName)) conn2
    = (conn3, None) ->
  TableLoader.ensureTableLoaded tableName w
  = (mkWorld conn3
       (issued w ++
          [TableLoader.createStagingSql (TableLoader.stagingName tableName)
             (CatalogEntry.path entry)
             (isoDayBefore (clock w (reads w)) TableLoader.rollingWindowDays);
           TableLoader.countSql (TableLoader.stagingName tableName);
           TableLoader.dropIfExistsSql (TableLoader.stagingName tableName)])
       (catalog w) (queryCache w) (clock w) (S (reads w)),
     Returned tt)
  /\ option_map CatalogEntry.loaded
       (FileCatalog.getEntry tableName
          (catalog (fst (TableLoader.ensureTableLoaded tableName w))))
     = Some false.
Proof.
  intros Hentry Hunloaded Hcreate Hcount Hzero Hdrop.
  assert (Hrun : TableLoader.ensureTableLoaded tableName w
                 = (mkWorld conn3
                      (issued w ++
                         [TableLoader.createStagingSql (TableLoader.stagingName tableName)
                            (CatalogEntry.path entry)
                            (isoDayBefore (clock w (reads w)) TableLoader.rollingWindowDays);
                          TableLoader.countSql (TableLoader.stagingName tableName);
                          TableLoader.dropIfExistsSql (TableLoader.stagingName tableName)])
                      (catalog w) (queryCache w) (clock w) (S (reads w)),
                    Returned tt)).
  { unfold TableLoader.ensureTableLoaded, bind at 1, getCatalog.
    rewrite Hentry, Hunloaded.
    unfold TableLoader.loadTable, TableLoader.loadAttempt, tryCatch, bind,
      dateNow, HealthDataDB.run,
      HealthDataDB.execute.
    cbn [conn issued catalog queryCache clock reads].
    rewrite Hcreate. cbn [conn issued catalog queryCache clock reads].
    rewrite Hcount, Hzero. cbn [conn issued catalog queryCache clock reads Z.gtb Z.compare].
    rewrite Hdrop. rewrite <- !app_assoc. reflexivity. }
  split; [exact Hrun|].
  rewrite Hrun. cbn [fst catalog]. rewrite Hentry. cbn [option_map].
  now rewrite Hunloaded.
Qed.

End Loading.

Section LoadFailure.
Context `{Engine} `{Calendar}.

(** A load attempt that throws has read the clock once and has written
    neither the catalog nor the cache: [markLoaded] is its last step.
    What it throws is the rejection of one of its statements by the
    engine. *)
Lemma loadAttempt_failure_world
    (tableName filePath : string) (w w1 : World) (cause : Exn) :
  TableLoader.loadAttempt tableName filePath w = (w1, Thrown cause) ->
  catalog w1 = catalog w /\ queryCache w1 = queryCache w
  /\ clock w1 = clock w /\ reads w1 = S (reads w)
  /\ exists msg, cause = EngineError msg.
Proof.
  unfold TableLoader.loadAttempt, TableLoader.cleanAndOptimizeTable,
    bind, dateNow, HealthDataDB.run, HealthDataDB.execute, modifyCatalog,
    throw, ret.
  cbn [conn issued catalog queryCache clock reads].
  repeat
    (match goal with
     | |- context [conn_run ?q ?c] => destruct (conn_run q c) as [? [?|]]
     | |- context [conn_all ?q ?c] => destruct (conn_all q c) as [? [?|?]]
     | |- context [?n >? 0] => destruct (n >? 0)
     end;
     cbn [conn issued catalog queryCache clock reads]).
  all: intros Heq; inversion Heq; subst; clear Heq.
  all: cbn [catalog queryCache clock reads].
  all: repeat (split; [reflexivity|]); eexists; reflexivity.
Qed.

(** C4, amended.  For a table of the catalog that is not loaded: when
    the load attempt - the [try] block of [loadTable] - throws [cause],
    [ensureTableLoaded] issues [DROP TABLE IF EXISTS <table>_staging]
    as its next and last statement and leaves the catalog as it was
    before the call.  When the engine accepts that statement, the caller
    gets the error [Failed to load table <table>: Error: <cause>], made
    of the table name and the text of the cause and of nothing else;
    when the engine rejects it, the caller gets that rejection.  The
    cause is the engine's rejection of a statement of the attempt. *)
Theorem ensureTableLoaded_failure_drops_staging
    (tableName : string) (w w1 : World) (entry : CatalogEntry.t) (cause : Exn) :
  FileCatalog.getEntry tableName (catalog w) = Some entry ->
  CatalogEntry.loaded entry = false ->
  TableLoader.loadAttempt tableName (CatalogEntry.path entry) w
  = (w1, Thrown cause) ->
  TableLoader.ensureTableLoaded tableName w
  = (mkWorld
       (fst (conn_run
               (TableLoader.dropIfExistsSql (TableLoader.stagingName tableName))
               (conn w1)))
       (issued w1
          ++ [TableLoader.dropIfExistsSql (TableLoader.stagingName tableName)])
       (catalog w) (queryCache w) (clock w) (S (reads w)),
     match snd (conn_run
                  (TableLoader.dropIfExistsSql (TableLoader.stagingName tableName))
                  (conn w1)) with
     | None => Thrown (FailedToLoad tableName cause)
     | Some msg => Thrown (EngineError msg)
     end)
  /\ message (FailedToLoad tableName cause)
     = ("Failed to load table " ++ tableName ++ ": Error: " ++ message cause)%string
  /\ exists msg, cause = EngineError msg.
Proof.
  intros Hentry Hunloaded Hattempt.
  destruct (loadAttempt_failure_world _ _ _ _ _ Hattempt)
    as (Hcatalog & Hcache & Hclock & Hreads & Hcause).
  split; [|split; [reflexivity | exact Hcause]].
  unfold TableLoader.ensureTableLoaded, bind at 1, getCatalog.
  rewrite Hentry, Hunloaded.
  unfold TableLoader.loadTable, tryCatch. rewrite Hattempt.
  unfold bind, HealthDataDB.run, throw.
  rewrite Hcatalog, Hcache, Hclock, Hreads.
  destruct (conn_run
              (TableLoader.dropIfExistsSql (TableLoader.stagingName tableName))
              (conn w1)) as [c' [msg|]]; reflexivity.
Qed.

End LoadFailure.

Lemma ensureTableLoaded_zero_rows_is_no_load_witness :
  @TableLoader.ensureTableLoaded (Fixture.scripted (Fixture.counting 0)) Fixture.fixedDay
    Fixture.heart (Fixture.world0 (Fixture.counting 0) Fixture.discovered)
  = (@mkWorld (Fixture.scripted (Fixture.counting 0)) tt
       ([] ++
          [@TableLoader.createStagingSql "hkquantitytypeidentifierheartrate_staging"
             "/data/HKQuantityTypeIdentifierHeartRate.csv" "2025-01-01";
           "SELECT COUNT(*) as count FROM hkquantitytypeidentifierheartrate_staging"%string;
           "DROP TABLE IF EXISTS hkquantitytypeidentifierheartrate_staging"%string])
       Fixture.discovered (QueryCache.create 100)
       (fun n => 1000 + Z.of_nat n) 1%nat,
     Returned tt)
  /\ option_map CatalogEntry.loaded
       (FileCatalog.getEntry Fixture.heart
          (catalog
             (fst (@TableLoader.ensureTableLoaded
                     (Fixture.scripted (Fixture.counting 0)) Fixture.fixedDay
                     Fixture.heart
                     (Fixture.world0 (Fixture.counting 0) Fixture.discovered)))))
     = Some false.
Proof.
  apply (@ensureTableLoaded_zero_rows_is_no_load
           (Fixture.scripted (Fixture.counting 0)) Fixture.fixedDay
           Fixture.heart (Fixture.world0 (Fixture.counting 0) Fixture.discovered)
           (CatalogEntry.mk "/data/HKQuantityTypeIdentifierHeartRate.csv" false None None)
           tt tt tt [[("count"%string, VNumber 0)]]);
    reflexivity.
Defined.

(** C4 as stated fails: the engine runs out of memory while it creates
    the staging table; the staging table is dropped, but the error the
    caller gets names the table and the cause only, not the source
    path the catalog holds for the table. *)
Lemma load_failure_message_omits_source_path :
  FileCatalog.getTablePath Fixture.heart Fixture.discovered
    = Some "/data/HKQuantityTypeIdentifierHeartRate.csv"%string
  /\ snd (@TableLoader.ensureTableLoaded (Fixture.scripted Fixture.outOfMemory)
            Fixture.fixedDay Fixture.heart
            (Fixture.world0 Fixture.outOfMemory Fixture.discovered))
     = Thrown (FailedToLoad Fixture.heart
                 (EngineError "Out of Memory Error: could not allocate block"))
  /\ message (FailedToLoad Fixture.heart
                (EngineError "Out of Memory Error: could not allocate block"))
     = "Failed to load table hkquantitytypeidentifierheartrate: Error: Out of Memory Error: could not allocate block"%string
  /\ JsString.includes
       (message (FailedToLoad Fixture.heart
                   (EngineError "Out of Memory Error: could not allocate block")))
       "/data/HKQuantityTypeIdentifierHeartRate.csv" = false.
Proof. repeat split; reflexivity. Qed.

(** The loader adds nothing to the text of the cause: the path is in
    the message exactly when the engine's own error quotes it. *)
Example load_failure_message_quotes_the_engine :
  snd (@TableLoader.ensureTableLoaded (Fixture.scripted Fixture.missingFile)
         Fixture.fixedDay Fixture.heart
         (Fixture.world0 Fixture.missingFile Fixture.discovered))
  = Thrown (FailedToLoad Fixture.heart
              (EngineError
                 "IO Error: No files found that match the pattern /data/HKQuantityTypeIdentifierHeartRate.csv"))
  /\ JsString.includes
       (message
          (FailedToLoad Fixture.heart
             (EngineError
                "IO Error: No files found that match the pattern /data/HKQuantityTypeIdentifierHeartRate.csv")))
       "/data/HKQuantityTypeIdentifierHeartRate.csv" = true.
Proof. split; reflexivity. Qed.

Lemma ensureTableLoaded_failure_drops_staging_witness :
  @TableLoader.ensureTableLoaded (Fixture.scripted Fixture.outOfMemory)
    Fixture.fixedDay Fixture.heart
    (Fixture.world0 Fixture.outOfMemory Fixture.discovered)
  = (@mkWorld (Fixture.scripted Fixture.outOfMemory) tt
       ([@TableLoader.createStagingSql "hkquantitytypeidentifierheartrate_staging"
           "/data/HKQuantityTypeIdentifierHeartRate.csv" "2025-01-01"]
          ++ ["DROP TABLE IF EXISTS hkquantitytypeidentifierheartrate_staging"%string])
       Fixture.discovered (QueryCache.create 100)
       (fun n => 1000 + Z.of_nat n) 1%nat,
     Thrown (FailedToLoad Fixture.heart
               (EngineError "Out of Memory Error: could not allocate block")))
  /\ message (FailedToLoad Fixture.heart
                (EngineError "Out of Memory Error: could not allocate block"))
     = ("Failed to load table " ++ Fixture.heart ++ ": Error: "
          ++ "Out of Memory Error: could not allocate block")%string
  /\ exists msg,
       EngineError "Out of Memory Error: could not allocate block"
       = EngineError msg.
Proof.
  exact (@ensureTableLoaded_failure_drops_staging
           (Fixture.scripted Fixture.outOfMemory) Fixture.fixedDay
           Fixture.heart (Fixture.world0 Fixture.outOfMemory Fixture.discovered)
           (@mkWorld (Fixture.scripted Fixture.outOfMemory) tt
              [@TableLoader.createStagingSql
                 "hkquantitytypeidentifierheartrate_staging"
                 "/data/HKQuantityTypeIdentifierHeartRate.csv" "2025-01-01"]
              Fixture.discovered (QueryCache.create 100)
              (fun n => 1000 + Z.of_nat n) 1%nat)
           (CatalogEntry.mk "/data/HKQuantityTypeIdentifierHeartRate.csv"
              false None None)
           (EngineError "Out of Memory Error: could not allocate block")
           eq_refl eq_refl eq_refl).
Defined.

(** C10 at work: the engine rejects the drop, [unloadTable] returns
    normally and the entry of the table is the one before. *)
Example unloadTable_on_broken_engine :
  snd (@TableLoader.unloadTable (Fixture.scripted Fixture.broken) Fixture.steps
         (Fixture.world0 Fixture.broken Fixture.twoLoaded))
    = Returned tt
  /\ FileCatalog.getEntry Fixture.steps
       (catalog (fst (@TableLoader.unloadTable (Fixture.scripted Fixture.broken)
                        Fixture.steps
                        (Fixture.world0 Fixture.broken Fixture.twoLoaded))))
     = Some Fixture.stepsEntry.
Proof. split; reflexivity. Qed.

(** ** The rewriter: substitution of view names *)

Section Substitution.

Local Open Scope string_scope.

Lemma toLowerCase_app (a b : string) :
  JsString.toLowerCase (a ++ b)
  = JsString.toLowerCase a ++ JsString.toLowerCase b.
Proof. induction a as [|c r IH]; simpl; [reflexivity | now rewrite IH]. Qed.

Lemma toLowerCase_length (s : string) :
  String.length (JsString.toLowerCase s) = String.length s.
Proof. induction s as [|c r IH]; simpl; [reflexivity | now rewrite IH]. Qed.

Lemma prefix_app_self (a b : string) : prefix a (a ++ b) = true.
Proof.
  induction a as [|c r IH]; simpl; [destruct b; reflexivity|].
  destruct (ascii_dec c c); [exact IH | contradiction].
Qed.

Lemma includes_unfold (s sub : string) :
  JsString.includes s sub
  = (prefix sub s
     || match s with
        | EmptyString => false
        | String _ r => JsString.includes r sub
        end)%bool.
Proof. destruct s; reflexivity. Qed.

Lemma includes_middle (a b c : string) :
  JsString.includes (a ++ b ++ c) b = true.
Proof.
  induction a as [|x r IH].
  - cbn [append]. rewrite includes_unfold, prefix_app_self. reflexivity.
  - cbn [append]. rewrite includes_unfold.
    cbv beta iota. rewrite IH. apply orb_true_r.
Qed.

(** Behind a match the scan resumes after the matched text. *)
Lemma replaceFrom_skip (pat rep occ post : string) :
  JsString.replaceFrom pat rep (String.length occ) (occ ++ post)
  = JsString.replaceFrom pat rep O post.
Proof.
  induction occ as [|c r IH]; cbn [String.length append].
  - destruct post; reflexivity.
  - cbn [JsString.replaceFrom]. exact IH.
Qed.

(** Text in which no match begins is copied. *)
Lemma replaceFrom_copy (pat rep pre rest : string) :
  Occurrence.noneStartsIn pat pre rest = true ->
  JsString.replaceFrom pat rep O (pre ++ rest)
  = pre ++ JsString.replaceFrom pat rep O rest.
Proof.
  induction pre as [|c r IH]; cbn [Occurrence.noneStartsIn append];
    [reflexivity|].
  intros Hnone. apply andb_prop in Hnone. destruct Hnone as [Hhere Hlater].
  apply negb_true_iff in Hhere. cbn [append] in Hhere.
  cbn [JsString.replaceFrom]. rewrite Hhere. f_equal. now apply IH.
Qed.

(** Every occurrence is replaced, whatever stands before and behind
    it. *)
Lemma replaceAllCI_occurrence (pat rep pre occ post : string) :
  pat <> EmptyString ->
  JsString.toLowerCase occ = JsString.toLowerCase pat ->
  Occurrence.noneStartsIn pat pre (occ ++ post) = true ->
  JsString.replaceAllCI pat rep (pre ++ occ ++ post)
  = pre ++ rep ++ JsString.replaceAllCI pat rep post.
Proof.
  intros Hpat Hocc Hnone. unfold JsString.replaceAllCI.
  rewrite (replaceFrom_copy _ _ _ _ Hnone). f_equal.
  assert (Hlen : String.length occ = String.length pat).
  { rewrite <- (toLowerCase_length occ), Hocc. apply toLowerCase_length. }
  assert (Hmatch : JsString.matchesAt pat (occ ++ post) = true).
  { unfold JsString.matchesAt. rewrite toLowerCase_app, Hocc.
    apply prefix_app_self. }
  destruct occ as [|c r].
  - destruct pat; [contradiction | discriminate].
  - cbn [append] in *. cbn [JsString.replaceFrom]. rewrite Hmatch.
    f_equal. rewrite <- Hlen. cbn [String.length Nat.pred].
    apply replaceFrom_skip.
Qed.

(** A text without a match is copied as it is. *)
Lemma replaceFrom_without_match (pat rep s : string) :
  JsString.includes (JsString.toLowerCase s) (JsString.toLowerCase pat) = false ->
  JsString.replaceFrom pat rep O s = s.
Proof.
  induction s as [|c r IH]; [reflexivity|].
  rewrite includes_unfold. cbn [JsString.toLowerCase].
  intros Hnone. apply orb_false_iff in Hnone. destruct Hnone as [Hhere Hlater].
  cbn [JsString.replaceFrom]. unfold JsString.matchesAt.
  cbn [JsString.toLowerCase]. rewrite Hhere. f_equal. now apply IH.
Qed.

Lemma includes_app_r (a b sub : string) :
  JsString.includes (a ++ b) sub = false -> JsString.includes b sub = false.
Proof.
  induction a as [|c r IH]; cbn [append]; [auto|].
  rewrite includes_unfold. intros Hnone.
  apply orb_false_iff in Hnone. apply IH. apply Hnone.
Qed.

(** *** Occurrences of different views do not meet

    The view names do not overlap each other or themselves, and the
    parenthesized definitions hold no view name; so the three
    replacements of [optimizeQuery], made one after the other, replace
    exactly the occurrences of the view names in the query. *)

Lemma string_app_assoc (a b c : string) : (a ++ b) ++ c = a ++ b ++ c.
Proof. induction a as [|x a IH]; cbn [append]; [reflexivity | now rewrite IH]. Qed.

Lemma string_app_nil_r (a : string) : a ++ "" = a.
Proof. induction a as [|x a IH]; cbn [append]; [reflexivity | now rewrite IH]. Qed.

Lemma prefix_empty (s : string) : prefix "" s = true.
Proof. destruct s; reflexivity. Qed.

Lemma prefix_length (x y : string) :
  prefix x y = true -> (String.length x <= String.length y)%nat.
Proof.
  revert x. induction y as [|b y IH]; intros [|a x]; cbn [prefix String.length];
    intros Hp; try discriminate; try lia.
  destruct (ascii_dec a b); [|discriminate]. apply IH in Hp. lia.
Qed.

Lemma prefix_app_mono (x y z : string) :
  prefix x y = true -> prefix x (y ++ z) = true.
Proof.
  revert x. induction y as [|b y IH]; intros [|a x]; cbn [prefix append];
    intros Hp.
  - apply prefix_empty.
  - discriminate.
  - reflexivity.
  - destruct (ascii_dec a b); [now apply IH | discriminate].
Qed.

(** A prefix of [y ++ z] lies in [y] or reaches into [z]. *)
Lemma prefix_app_split (x y z : string) :
  prefix x (y ++ z) = true ->
  prefix x y = true
  \/ exists t, x = y ++ t /\ t <> EmptyString /\ prefix t z = true.
Proof.
  revert x. induction y as [|b y IH]; intros x; cbn [append].
  - intros Hp. destruct x as [|a x]; [left; reflexivity|].
    right. exists (String a x). repeat split; [discriminate | exact Hp].
  - destruct x as [|a x]; [left; reflexivity|]. cbn [prefix].
    destruct (ascii_dec a b) as [->|]; [|discriminate].
    intros Hp. destruct (IH x Hp) as [Hl | (t & -> & Hne & Ht)];
      [left; exact Hl|].
    right. exists t. repeat split; assumption.
Qed.

Lemma tailsMiss_tail (y : string) :
  forall x t z : string,
    Occurrence.tailsMiss x z = true ->
    x = y ++ t -> y <> EmptyString -> t <> EmptyString ->
    prefix t z = false.
Proof.
  induction y as [|b y IH]; intros x t z Hm -> Hy Ht; [contradiction|].
  cbn [append Occurrence.tailsMiss] in Hm.
  destruct y as [|b' y].
  - cbn [append] in Hm. destruct t as [|c t]; [contradiction|].
    apply andb_prop in Hm. now apply negb_true_iff.
  - cbn [append] in Hm. apply andb_prop in Hm. destruct Hm as [_ Hm].
    apply (IH (String b' (y ++ t)) t z Hm eq_refl); [discriminate | exact Ht].
Qed.

(** The replacement works on [a] and on [rest] apart when no match
    that begins in [a] reaches into [rest]. *)
Lemma replaceFrom_app (pat rep rest : string) :
  Occurrence.tailsMiss (JsString.toLowerCase pat) (JsString.toLowerCase rest)
  = true ->
  forall (a : string) (skip : nat),
    (skip <= String.length a)%nat ->
    JsString.replaceFrom pat rep skip (a ++ rest)
    = JsString.replaceFrom pat rep skip a ++ JsString.replaceFrom pat rep O rest.
Proof.
  intros Hmiss. induction a as [|c a IH]; intros skip Hskip.
  - cbn [String.length] in Hskip. assert (skip = O) by lia. subst. reflexivity.
  - cbn [append]. destruct skip as [|k]; cbn [JsString.replaceFrom].
    + destruct (JsString.matchesAt pat (String c a)) eqn:Hhere.
      * assert (Hall : JsString.matchesAt pat (String c (a ++ rest)) = true).
        { unfold JsString.matchesAt in *.
          change (String c (a ++ rest)) with (String c a ++ rest).
          rewrite toLowerCase_app. now apply prefix_app_mono. }
        rewrite Hall, IH; [now rewrite string_app_assoc|].
        unfold JsString.matchesAt in Hhere. apply prefix_length in Hhere.
        rewrite !toLowerCase_length in Hhere. cbn [String.length] in Hhere. lia.
      * assert (Hall : JsString.matchesAt pat (String c (a ++ rest)) = false).
        { destruct (JsString.matchesAt pat (String c (a ++ rest))) eqn:E;
            [|reflexivity].
          unfold JsString.matchesAt in E, Hhere.
          change (String c (a ++ rest)) with (String c a ++ rest) in E.
          rewrite toLowerCase_app in E. apply prefix_app_split in E.
          destruct E as [E|(t & Heq & Hne & Ht)]; [congruence|].
          rewrite (tailsMiss_tail _ _ _ _ Hmiss Heq) in Ht;
            [discriminate | discriminate | exact Hne]. }
        rewrite Hall. cbn [append]. f_equal. apply IH. lia.
    + apply IH. cbn [String.length] in Hskip. lia.
Qed.

(** A block of text in which no match begins is copied, and the text
    before and behind it is rewritten apart. *)
Lemma replaceAllCI_block (pat rep a block b : string) :
  Occurrence.tailsMiss (JsString.toLowerCase pat)
    (JsString.toLowerCase (block ++ b)) = true ->
  Occurrence.noneStartsIn pat block b = true ->
  JsString.replaceAllCI pat rep (a ++ block ++ b)
  = JsString.replaceAllCI pat rep a ++ block ++ JsString.replaceAllCI pat rep b.
Proof.
  intros Hmiss Hnone. unfold JsString.replaceAllCI.
  rewrite (replaceFrom_app _ _ _ Hmiss a O) by lia. f_equal.
  now apply replaceFrom_copy.
Qed.

(** An occurrence is replaced, and the text before and behind it is
    rewritten apart. *)
Lemma replaceAllCI_match (pat rep a occ b : string) :
  pat <> EmptyString ->
  JsString.toLowerCase occ = JsString.toLowerCase pat ->
  Occurrence.tailsMiss (JsString.toLowerCase pat)
    (JsString.toLowerCase (occ ++ b)) = true ->
  JsString.replaceAllCI pat rep (a ++ occ ++ b)
  = JsString.replaceAllCI pat rep a ++ rep ++ JsString.replaceAllCI pat rep b.
Proof.
  intros Hpat Hocc Hmiss.
  change (JsString.replaceAllCI pat rep (a ++ occ ++ b))
    with (JsString.replaceFrom pat rep O (a ++ occ ++ b)).
  rewrite (replaceFrom_app _ _ _ Hmiss a O) by lia.
  change (JsString.replaceFrom pat rep O a) with (JsString.replaceAllCI pat rep a).
  f_equal.
  apply (replaceAllCI_occurrence pat rep EmptyString occ b Hpat Hocc).
  reflexivity.
Qed.

Lemma matchesAt_lower (pat s : string) :
  JsString.matchesAt pat (JsString.toLowerCase s) = JsString.matchesAt pat s.
Proof. unfold JsString.matchesAt. now rewrite toLowerCase_idempotent. Qed.

Lemma noneStartsIn_lower (pat x b : string) :
  Occurrence.noneStartsIn pat x b
  = Occurrence.noneStartsIn pat (JsString.toLowerCase x) (JsString.toLowerCase b).
Proof.
  induction x as [|c x IH]; [reflexivity|].
  cbn [Occurrence.noneStartsIn JsString.toLowerCase]. rewrite <- IH. f_equal.
  f_equal.
  change (String (JsString.lowerChar c) (JsString.toLowerCase x))
    with (JsString.toLowerCase (String c x)).
  rewrite <- toLowerCase_app. symmetry. apply matchesAt_lower.
Qed.

Lemma noneStartsIn_app (pat a b rest : string) :
  Occurrence.noneStartsIn pat (a ++ b) rest
  = Occurrence.noneStartsIn pat a (b ++ rest)
    && Occurrence.noneStartsIn pat b rest.
Proof.
  induction a as [|c a IH]; [reflexivity|].
  cbn [append Occurrence.noneStartsIn]. rewrite IH, andb_assoc. f_equal.
  f_equal. change (String c (a ++ b)) with (String c a ++ b).
  now rewrite string_app_assoc.
Qed.

(** The test of the guard, in terms of matches. *)
Lemma includes_noneStartsIn (name s : string) :
  name <> EmptyString ->
  JsString.includes (JsString.toLowerCase s) (JsString.toLowerCase name)
  = negb (Occurrence.noneStartsIn name s EmptyString).
Proof.
  intros Hname. induction s as [|c s IH].
  - destruct name as [|x name]; [contradiction | reflexivity].
  - rewrite includes_unfold. cbn [JsString.toLowerCase Occurrence.noneStartsIn].
    rewrite IH, string_app_nil_r, negb_andb, negb_involutive. reflexivity.
Qed.

(** A match of a name without metacharacters in the rewritten text was
    a match in the text: the parenthesis of a replacement stops it. *)
Lemma prefix_replaceFrom (pat d : string) :
  forall s m : string,
    JsString.allLiteral m = true ->
    prefix m (JsString.toLowerCase
                (JsString.replaceFrom pat ("(" ++ d ++ ")") O s)) = true ->
    prefix m (JsString.toLowerCase s) = true.
Proof.
  induction s as [|c s IH]; intros m Hlit Hp; [exact Hp|].
  destruct m as [|x m]; [reflexivity|].
  cbn [JsString.allLiteral] in Hlit. apply andb_prop in Hlit.
  destruct Hlit as [Hx Hm].
  cbn [JsString.replaceFrom] in Hp.
  destruct (JsString.matchesAt pat (String c s)).
  - cbn [append JsString.toLowerCase prefix] in Hp.
    destruct (ascii_dec x (JsString.lowerChar "(")) as [->|]; [|discriminate].
    discriminate Hx.
  - cbn [JsString.toLowerCase prefix] in Hp |- *.
    destruct (ascii_dec x (JsString.lowerChar c)); [|discriminate].
    now apply IH.
Qed.

(** A replacement does not make an occurrence of another name. *)
Lemma replaceFrom_keeps_clean (pat d name : string) :
  JsString.allLiteral (JsString.toLowerCase name) = true ->
  (forall y, Occurrence.noneStartsIn name ("(" ++ d ++ ")") y = true) ->
  forall (s : string) (skip : nat),
    Occurrence.noneStartsIn name s EmptyString = true ->
    Occurrence.noneStartsIn name
      (JsString.replaceFrom pat ("(" ++ d ++ ")") skip s) EmptyString = true.
Proof.
  intros Hlit Hrep. induction s as [|c s IH]; intros skip Hclean.
  - destruct skip; exact Hclean.
  - cbn [Occurrence.noneStartsIn] in Hclean. apply andb_prop in Hclean.
    destruct Hclean as [Hhere Hlater]. apply negb_true_iff in Hhere.
    rewrite string_app_nil_r in Hhere.
    destruct skip as [|k]; cbn [JsString.replaceFrom]; [|now apply IH].
    destruct (JsString.matchesAt pat (String c s)) eqn:Hpat.
    + rewrite noneStartsIn_app. apply andb_true_intro. split;
        [apply Hrep | now apply IH].
    + cbn [Occurrence.noneStartsIn]. apply andb_true_intro.
      split; [|now apply IH].
      apply negb_true_iff. rewrite string_app_nil_r.
      destruct (JsString.matchesAt name
                  (String c (JsString.replaceFrom pat ("(" ++ d ++ ")") O s)))
        eqn:Hnew; [|reflexivity].
      unfold JsString.matchesAt in Hnew, Hhere.
      assert (Hstep : JsString.replaceFrom pat ("(" ++ d ++ ")") O (String c s)
                      = String c (JsString.replaceFrom pat ("(" ++ d ++ ")") O s)).
      { cbn [JsString.replaceFrom]. now rewrite Hpat. }
      rewrite <- Hstep in Hnew.
      apply (prefix_replaceFrom pat d (String c s) _ Hlit) in Hnew. congruence.
Qed.

(** The views of the source, in the order [initializeViews] sets them. *)
Lemma viewDefinitions_entries :
  QueryOptimizer.viewDefinitions
  = [("daily_heart_rate", QueryOptimizer.daily_heart_rate);
     ("weekly_activity", QueryOptimizer.weekly_activity);
     ("sleep_summary", QueryOptimizer.sleep_summary)]%list.
Proof. reflexivity. Qed.

(** Their names are lower-case patterns without metacharacters and
    their parenthesized definitions hold no [$]: the replacement of the
    model is the source's [replace] on them. *)
Lemma viewDefinitions_literal (viewName viewDef : string) :
  In (viewName, viewDef) QueryOptimizer.viewDefinitions ->
  JsString.literalPattern viewName = true
  /\ JsString.toLowerCase viewName = viewName
  /\ JsString.literalReplacement ("(" ++ viewDef ++ ")") = true.
Proof.
  rewrite viewDefinitions_entries.
  intros [E|[E|[E|[]]]]; inversion E; subst; repeat split; vm_compute; reflexivity.
Qed.

(** The view names keep apart: no name begins inside an occurrence of
    another name, inside a parenthesized definition, or before one of
    them to reach into it. *)
Lemma viewName_misses_occurrence (name def name' def' y : string) :
  In (name, def) QueryOptimizer.viewDefinitions ->
  In (name', def') QueryOptimizer.viewDefinitions ->
  Occurrence.tailsMiss name (name' ++ y) = true.
Proof.
  rewrite viewDefinitions_entries.
  intros [E|[E|[E|[]]]] [E'|[E'|[E'|[]]]]; inversion E; inversion E';
    reflexivity.
Qed.

Lemma viewName_misses_replacement (name def name' def' y : string) :
  In (name, def) QueryOptimizer.viewDefinitions ->
  In (name', def') QueryOptimizer.viewDefinitions ->
  Occurrence.tailsMiss name
    (JsString.toLowerCase (("(" ++ def' ++ ")") ++ y)) = true.
Proof.
  rewrite viewDefinitions_entries.
  intros [E|[E|[E|[]]]] [E'|[E'|[E'|[]]]]; inversion E; inversion E';
    reflexivity.
Qed.

Lemma viewName_not_in_occurrence (name def name' def' y : string) :
  In (name, def) QueryOptimizer.viewDefinitions ->
  In (name', def') QueryOptimizer.viewDefinitions ->
  name <> name' ->
  Occurrence.noneStartsIn name name' y = true.
Proof.
  rewrite viewDefinitions_entries.
  intros [E|[E|[E|[]]]] [E'|[E'|[E'|[]]]] Hne; inversion E; inversion E';
    subst; try contradiction; reflexivity.
Qed.

Lemma viewName_not_in_replacement (name def name' def' y : string) :
  In (name, def) QueryOptimizer.viewDefinitions ->
  In (name', def') QueryOptimizer.viewDefinitions ->
  Occurrence.noneStartsIn name ("(" ++ def' ++ ")") y = true.
Proof.
  rewrite viewDefinitions_entries.
  intros [E|[E|[E|[]]]] [E'|[E'|[E'|[]]]]; inversion E; inversion E';
    vm_compute; reflexivity.
Qed.

Lemma viewName_not_empty (name def : string) :
  In (name, def) QueryOptimizer.viewDefinitions -> name <> EmptyString.
Proof.
  intros Hin ->. destruct (viewDefinitions_literal _ _ Hin) as (Hpat & _).
  discriminate Hpat.
Qed.

(** The replacement for one view replaces an occurrence of its name,
    copies an occurrence of another name and copies a parenthesized
    definition, and rewrites the text around them apart. *)
Lemma replaceView_own_occurrence (name def a occ b : string) :
  In (name, def) QueryOptimizer.viewDefinitions ->
  JsString.toLowerCase occ = name ->
  JsString.replaceAllCI name ("(" ++ def ++ ")") (a ++ occ ++ b)
  = JsString.replaceAllCI name ("(" ++ def ++ ")") a
      ++ ("(" ++ def ++ ")")
      ++ JsString.replaceAllCI name ("(" ++ def ++ ")") b.
Proof.
  intros Hin Hocc.
  destruct (viewDefinitions_literal _ _ Hin) as (_ & Hlower & _).
  apply replaceAllCI_match.
  - now apply (viewName_not_empty name def).
  - congruence.
  - rewrite Hlower, toLowerCase_app, Hocc.
    now apply (viewName_misses_occurrence name def name def).
Qed.

Lemma replaceView_other_occurrence (name def name' def' a occ b : string) :
  In (name, def) QueryOptimizer.viewDefinitions ->
  In (name', def') QueryOptimizer.viewDefinitions ->
  name <> name' ->
  JsString.toLowerCase occ = name' ->
  JsString.replaceAllCI name ("(" ++ def ++ ")") (a ++ occ ++ b)
  = JsString.replaceAllCI name ("(" ++ def ++ ")") a
      ++ occ
      ++ JsString.replaceAllCI name ("(" ++ def ++ ")") b.
Proof.
  intros Hin Hin' Hne Hocc.
  destruct (viewDefinitions_literal _ _ Hin) as (_ & Hlower & _).
  apply replaceAllCI_block.
  - rewrite Hlower, toLowerCase_app, Hocc.
    now apply (viewName_misses_occurrence name def name' def').
  - rewrite noneStartsIn_lower, Hocc.
    now apply (viewName_not_in_occurrence name def name' def').
Qed.

Lemma replaceView_replacement (name def name' def' a b : string) :
  In (name, def) QueryOptimizer.viewDefinitions ->
  In (name', def') QueryOptimizer.viewDefinitions ->
  JsString.replaceAllCI name ("(" ++ def ++ ")") (a ++ ("(" ++ def' ++ ")") ++ b)
  = JsString.replaceAllCI name ("(" ++ def ++ ")") a
      ++ ("(" ++ def' ++ ")")
      ++ JsString.replaceAllCI name ("(" ++ def ++ ")") b.
Proof.
  intros Hin Hin'.
  destruct (viewDefinitions_literal _ _ Hin) as (_ & Hlower & _).
  apply replaceAllCI_block.
  - rewrite Hlower. now apply (viewName_misses_replacement name def name' def').
  - now apply (viewName_not_in_replacement name def name' def').
Qed.

(** The guard of a step is redundant: where it fails, the replacement
    finds no match in the text rewritten so far. *)
Lemma substituteViews_unguarded (query : string) :
  QueryOptimizer.substituteViews QueryOptimizer.viewDefinitions query
  = fold_left
      (fun text view =>
         JsString.replaceAllCI (fst view) ("(" ++ snd view ++ ")") text)
      QueryOptimizer.viewDefinitions query.
Proof.
  unfold QueryOptimizer.substituteViews, JsMap.entries.
  assert (Hgen : forall (views : list (string * string)) (text : string),
             incl views QueryOptimizer.viewDefinitions ->
             (forall name def,
                 In (name, def) views ->
                 JsString.includes (JsString.toLowerCase query) name = false ->
                 Occurrence.noneStartsIn name text EmptyString = true) ->
             fold_left (QueryOptimizer.substituteView query) views text
             = fold_left
                 (fun text view =>
                    JsString.replaceAllCI (fst view) ("(" ++ snd view ++ ")") text)
                 views text).
  { induction views as [|[name def] rest IH]; intros text Hincl Hclean;
      [reflexivity|].
    assert (Hin : In (name, def) QueryOptimizer.viewDefinitions)
      by (apply Hincl; now left).
    destruct (viewDefinitions_literal _ _ Hin) as (_ & Hlower & _).
    pose proof (viewName_not_empty _ _ Hin) as Hname.
    cbn [fold_left fst snd].
    assert (Hstep : QueryOptimizer.substituteView query text (name, def)
                    = JsString.replaceAllCI name ("(" ++ def ++ ")") text).
    { unfold QueryOptimizer.substituteView.
      destruct (JsString.includes (JsString.toLowerCase query) name) eqn:Hguard;
        [reflexivity|].
      symmetry. apply replaceFrom_without_match.
      rewrite (includes_noneStartsIn name text Hname).
      now rewrite (Hclean name def (or_introl eq_refl) Hguard). }
    rewrite Hstep. apply IH.
    - intros v Hv. apply Hincl. now right.
    - intros name' def' Hin' Hguard.
      assert (Hin'V : In (name', def') QueryOptimizer.viewDefinitions)
        by (apply Hincl; now right).
      destruct (viewDefinitions_literal _ _ Hin'V) as (Hpat' & Hlower' & _).
      apply replaceFrom_keeps_clean.
      + rewrite Hlower'. destruct name'; [discriminate Hpat' | exact Hpat'].
      + intros y. now apply (viewName_not_in_replacement name' def' name def).
      + apply (Hclean name' def'); [now right | exact Hguard]. }
  apply Hgen; [apply incl_refl|].
  intros name def Hin Hguard.
  destruct (viewDefinitions_literal _ _ Hin) as (_ & Hlower & _).
  pose proof (includes_noneStartsIn name query (viewName_not_empty _ _ Hin)) as Hg.
  rewrite Hlower, Hguard in Hg. now apply negb_false_iff.
Qed.

(** Every occurrence of a view name is replaced, and the text before
    and behind it is rewritten apart. *)
Lemma substituteViews_occurrence (viewName viewDef pre occ post : string) :
  In (viewName, viewDef) QueryOptimizer.viewDefinitions ->
  JsString.toLowerCase occ = viewName ->
  QueryOptimizer.substituteViews QueryOptimizer.viewDefinitions
    (pre ++ occ ++ post)
  = QueryOptimizer.substituteViews QueryOptimizer.viewDefinitions pre
      ++ ("(" ++ viewDef ++ ")")
      ++ QueryOptimizer.substituteViews QueryOptimizer.viewDefinitions post.
Proof.
  intros Hin Hocc. rewrite !substituteViews_unguarded.
  assert (H1 : In ("daily_heart_rate", QueryOptimizer.daily_heart_rate)
                  QueryOptimizer.viewDefinitions)
    by (rewrite viewDefinitions_entries; cbn [In]; tauto).
  assert (H2 : In ("weekly_activity", QueryOptimizer.weekly_activity)
                  QueryOptimizer.viewDefinitions)
    by (rewrite viewDefinitions_entries; cbn [In]; tauto).
  assert (H3 : In ("sleep_summary", QueryOptimizer.sleep_summary)
                  QueryOptimizer.viewDefinitions)
    by (rewrite viewDefinitions_entries; cbn [In]; tauto).
  rewrite viewDefinitions_entries in Hin |- *. cbn [fold_left fst snd].
  revert Hocc.
  destruct Hin as [E|[E|[E|[]]]]; inversion E; subst; clear E; intros Hocc.
  - rewrite (replaceView_own_occurrence _ _ pre occ post H1 Hocc).
    rewrite (replaceView_replacement _ _ _ _ _ _ H2 H1).
    rewrite (replaceView_replacement _ _ _ _ _ _ H3 H1).
    reflexivity.
  - rewrite (replaceView_other_occurrence _ _ _ _ pre occ post H1 H2)
      by (discriminate || exact Hocc).
    rewrite (replaceView_own_occurrence _ _ _ occ _ H2 Hocc).
    rewrite (replaceView_replacement _ _ _ _ _ _ H3 H2).
    reflexivity.
  - rewrite (replaceView_other_occurrence _ _ _ _ pre occ post H1 H3)
      by (discriminate || exact Hocc).
    rewrite (replaceView_other_occurrence _ _ _ _ _ occ _ H2 H3)
      by (discriminate || exact Hocc).
    rewrite (replaceView_own_occurrence _ _ _ occ _ H3 Hocc).
    reflexivity.
Qed.

End Substitution.

Section Rewriting.
Context `{Engine} `{Calendar} `{Sha256}.

Local Open Scope string_scope.

(** C7, amended.  For each view of the optimizer and every query text
    [pre ++ occ ++ post] in which [occ] equals the view name up to
    letter case: [optimizeQuery] runs the loads of the catalog tables
    the query names and throws the error of a load that failed;
    otherwise it returns the text in which [occ] is replaced by the
    parenthesized definition, and in which the text before [occ] and
    the text behind it are rewritten in the same way.  Nothing is asked
    of the characters around [occ]: an occurrence inside a longer
    identifier is replaced like any other. *)
Theorem optimizeQuery_replaces_every_occurrence
    (viewName viewDef pre occ post : string) (w : World) :
  In (viewName, viewDef) QueryOptimizer.viewDefinitions ->
  JsString.toLowerCase occ = viewName ->
  QueryOptimizer.optimizeQuery (pre ++ occ ++ post) w
  = (fst (QueryOptimizer.awaitAll
            (map TableLoader.ensureTableLoaded
                 (TableLoader.extractTableNames (pre ++ occ ++ post) (catalog w)))
            w),
     match snd (QueryOptimizer.awaitAll
                  (map TableLoader.ensureTableLoaded
                       (TableLoader.extractTableNames (pre ++ occ ++ post)
                          (catalog w)))
                  w) with
     | Returned _ =>
         Returned
           (QueryOptimizer.substituteViews QueryOptimizer.viewDefinitions pre
              ++ ("(" ++ viewDef ++ ")")
              ++ QueryOptimizer.substituteViews QueryOptimizer.viewDefinitions
                   post)
     | Thrown e => Thrown e
     end).
Proof.
  intros Hin Hocc.
  change (QueryOptimizer.optimizeQuery (pre ++ occ ++ post) w)
    with ((QueryOptimizer.awaitAll
             (map TableLoader.ensureTableLoaded
                  (TableLoader.extractTableNames (pre ++ occ ++ post) (catalog w))) ;;
           ret (QueryOptimizer.substituteViews QueryOptimizer.viewDefinitions
                  (pre ++ occ ++ post))) w).
  unfold bind.
  destruct (QueryOptimizer.awaitAll _ w) as [w1 [u|e]]; cbn [fst snd];
    [|reflexivity].
  unfold ret. now rewrite (substituteViews_occurrence _ _ _ _ _ Hin Hocc).
Qed.

End Rewriting.

(** C7 as stated fails: the view name [daily_heart_rate] occurs in the
    query only inside the identifier [my_daily_heart_rate_v2], and
    [optimizeQuery] rewrites the query all the same. *)
Lemma view_name_inside_identifier_is_replaced :
  Occurrence.hasWholeWord "daily_heart_rate" "select * from my_daily_heart_rate_v2"
    = false
  /\ QueryOptimizer.substituteViews QueryOptimizer.viewDefinitions
    "select * from my_daily_heart_rate_v2"
  = ("select * from my_(" ++ QueryOptimizer.daily_heart_rate ++ ")_v2")%string
  /\ QueryOptimizer.substituteViews QueryOptimizer.viewDefinitions
       "select * from my_daily_heart_rate_v2"
     <> "select * from my_daily_heart_rate_v2"%string
  /\ snd (@QueryOptimizer.optimizeQuery Fixture.engine5 Fixture.fixedDay
            "select * from my_daily_heart_rate_v2" Fixture.fresh)
     = Returned
         ("select * from my_(" ++ QueryOptimizer.daily_heart_rate ++ ")_v2")%string.
Proof.
  split; [reflexivity | split; [reflexivity | split; [discriminate | reflexivity]]].
Qed.

Lemma optimizeQuery_replaces_every_occurrence_witness :
  @QueryOptimizer.optimizeQuery Fixture.engine5 Fixture.fixedDay
    ("select * from my_" ++ "Daily_Heart_Rate"
       ++ "_v2, sleep_summary_old")%string
    Fixture.fresh
  = (Fixture.fresh,
     Returned
       ("select * from my_" ++ ("(" ++ QueryOptimizer.daily_heart_rate ++ ")")
          ++ "_v2, (" ++ QueryOptimizer.sleep_summary ++ ")_old")%string).
Proof.
  rewrite (@optimizeQuery_replaces_every_occurrence
             Fixture.engine5 Fixture.fixedDay
             "daily_heart_rate" QueryOptimizer.daily_heart_rate
             "select * from my_" "Daily_Heart_Rate" "_v2, sleep_summary_old"
             Fixture.fresh).
  - reflexivity.
  - left. reflexivity.
  - reflexivity.
Defined.

(** ** The pipeline: tables the catalog does not hold *)

Section Pipeline.
Context `{Engine} `{Calendar} `{Sha256}.
Variable K : list string.

Lemma knows_ret {A : Type} (a : A) : knowsItsTables K (ret a).
Proof. intros w HK. split; [exact HK | discriminate]. Qed.

Lemma knows_throw {A : Type} (e : Exn) :
  (forall t, e <> TableNotFound t) -> knowsItsTables K (@throw _ A e).
Proof.
  intros Hne w HK. split; [exact HK|].
  intros t Heq. apply (Hne t). now inversion Heq.
Qed.

Lemma knows_bind {A B : Type} (m : M A) (k : A -> M B) :
  knowsItsTables K m -> (forall a, knowsItsTables K (k a)) ->
  knowsItsTables K (bind m k).
Proof.
  intros Hm Hk w HK. unfold bind.
  specialize (Hm w HK). destruct (m w) as [w1 [a|e]]; cbn [fst snd] in *.
  - apply Hk. apply Hm.
  - split; [apply Hm|]. intros t Heq. apply (proj2 Hm t).
    inversion Heq. reflexivity.
Qed.

Lemma knows_tryCatch {A : Type} (m : M A) (handler : Exn -> M A) :
  knowsItsTables K m -> (forall e, knowsItsTables K (handler e)) ->
  knowsItsTables K (tryCatch m handler).
Proof.
  intros Hm Hh w HK. unfold tryCatch.
  specialize (Hm w HK). destruct (m w) as [w1 [a|e]]; cbn [fst snd] in *.
  - split; [apply Hm | discriminate].
  - apply Hh. apply Hm.
Qed.

Lemma knows_run (query : string) : knowsItsTables K (HealthDataDB.run query).
Proof.
  intros w HK. unfold HealthDataDB.run.
  destruct (conn_run query (conn w)) as [c' [msg|]];
    (split; [exact HK | discriminate]).
Qed.

Lemma knows_execute (query : string) :
  knowsItsTables K (HealthDataDB.execute query).
Proof.
  intros w HK. unfold HealthDataDB.execute.
  destruct (conn_all query (conn w)) as [c' [msg|rows]];
    (split; [exact HK | discriminate]).
Qed.

Lemma knows_dateNow : knowsItsTables K dateNow.
Proof. intros w HK. split; [exact HK | discriminate]. Qed.

Lemma knows_getQueryCache : knowsItsTables K getQueryCache.
Proof. intros w HK. split; [exact HK | discriminate]. Qed.

Lemma knows_putQueryCache (c : QueryCache.t) : knowsItsTables K (putQueryCache c).
Proof. intros w HK. split; [exact HK | discriminate]. Qed.

Lemma knows_modifyCatalog (f : FileCatalog.t -> FileCatalog.t) :
  (forall c, JsMap.keys (f c) = JsMap.keys c) ->
  knowsItsTables K (modifyCatalog f).
Proof.
  intros Hf w HK. split; [|discriminate].
  cbn [modifyCatalog fst catalog]. now rewrite Hf.
Qed.

Lemma keys_markLoaded (name : string) (rowCount now : Z) (c : FileCatalog.t) :
  JsMap.keys (FileCatalog.markLoaded name rowCount now c) = JsMap.keys c.
Proof.
  unfold FileCatalog.markLoaded.
  destruct (JsMap.get _ c) eqn:Hg; [|reflexivity].
  exact (keys_set_present _ _ _ _ Hg).
Qed.

Lemma keys_setLastAccessed (name : string) (now : Z) (c : FileCatalog.t) :
  JsMap.keys (FileCatalog.setLastAccessed name now c) = JsMap.keys c.
Proof.
  unfold FileCatalog.setLastAccessed.
  destruct (JsMap.get _ c) eqn:Hg; [|reflexivity].
  exact (keys_set_present _ _ _ _ Hg).
Qed.

Lemma knows_loadTable (tableName filePath : string) :
  knowsItsTables K (TableLoader.loadTable tableName filePath).
Proof.
  unfold TableLoader.loadTable, TableLoader.loadAttempt, TableLoader.cleanAndOptimizeTable.
  apply knows_tryCatch.
  - apply knows_bind; [apply knows_dateNow | intros cutoffDate].
    apply knows_bind; [apply knows_run | intros _].
    apply knows_bind; [apply knows_execute | intros countResult].
    destruct (TableLoader.countOf countResult >? 0); [|apply knows_run].
    apply knows_bind.
    + repeat (apply knows_bind; [apply knows_run | intros _]).
      apply knows_run.
    + intros _. apply knows_bind; [apply knows_dateNow | intros now].
      apply knows_modifyCatalog. intros c. apply keys_markLoaded.
  - intros error. apply knows_bind; [apply knows_run | intros _].
    apply knows_throw. discriminate.
Qed.

Lemma ensureTableLoaded_run (tableName : string) (w : World) :
  TableLoader.ensureTableLoaded tableName w
  = match FileCatalog.getEntry tableName (catalog w) with
    | Some entry =>
        if CatalogEntry.loaded entry
        then (now <- dateNow ;;
              modifyCatalog (FileCatalog.setLastAccessed tableName now)) w
        else TableLoader.loadTable tableName (CatalogEntry.path entry) w
    | None => (w, Thrown (TableNotFound tableName))
    end.
Proof.
  unfold TableLoader.ensureTableLoaded, bind at 1, getCatalog.
  destruct (FileCatalog.getEntry tableName (catalog w)) as [entry|];
    [destruct (CatalogEntry.loaded entry)|]; reflexivity.
Qed.

Lemma optimizeQuery_run (query : string) (w : World) :
  QueryOptimizer.optimizeQuery query w
  = (QueryOptimizer.awaitAll
       (map TableLoader.ensureTableLoaded
            (TableLoader.extractTableNames query (catalog w))) ;;
     ret (QueryOptimizer.substituteViews QueryOptimizer.viewDefinitions query)) w.
Proof. reflexivity. Qed.

Hypothesis K_lower : Forall (fun k => JsString.toLowerCase k = k) K.

(** A name of the catalog is found by [getEntry]. *)
Lemma knows_ensureTableLoaded (tableName : string) :
  In tableName K -> knowsItsTables K (TableLoader.ensureTableLoaded tableName).
Proof.
  intros Hin w HK. rewrite ensureTableLoaded_run.
  destruct (FileCatalog.getEntry tableName (catalog w)) as [entry|] eqn:Hentry.
  - destruct (CatalogEntry.loaded entry).
    + apply knows_bind; [apply knows_dateNow | intros now | exact HK].
      apply knows_modifyCatalog. intros c. apply keys_setLastAccessed.
    + apply knows_loadTable. exact HK.
  - exfalso. unfold FileCatalog.getEntry in Hentry.
    rewrite Forall_forall in K_lower. rewrite (K_lower _ Hin) in Hentry.
    apply get_None_iff in Hentry. apply Hentry. now rewrite HK.
Qed.

Lemma knows_awaitAll (ps : list (M unit)) :
  Forall (knowsItsTables K) ps -> knowsItsTables K (QueryOptimizer.awaitAll ps).
Proof.
  induction 1 as [|p rest Hp Hrest IH]; [apply knows_ret|].
  intros w HK. cbn [QueryOptimizer.awaitAll].
  specialize (Hp w HK). destruct (p w) as [w1 [u|e]]; cbn [fst snd] in *.
  - apply IH. apply Hp.
  - split; [apply IH; apply Hp|]. intros t Heq. apply (proj2 Hp t). exact Heq.
Qed.

(** [extractTableNames] selects among the names of the catalog. *)
Lemma extractTableNames_selects (query : string) (c : FileCatalog.t) (t : string) :
  In t (TableLoader.extractTableNames query c) ->
  In t (FileCatalog.getAllTables c)
  /\ JsString.includes (JsString.toLowerCase query) t = true.
Proof.
  unfold TableLoader.extractTableNames, FileCatalog.getAllTables.
  assert (Hgen : forall names acc,
             In t (fold_left
                     (fun tables table =>
                        if JsString.includes (JsString.toLowerCase query) table
                        then JsArray.setAdd String.eqb tables table
                        else tables) names acc) ->
             In t acc
             \/ (In t names
                 /\ JsString.includes (JsString.toLowerCase query) t = true)).
  { induction names as [|n names IH]; intros acc Hin; [now left|].
    cbn [fold_left] in Hin. apply IH in Hin.
    destruct Hin as [Hacc | [Hnames Hinc]]; [|right; split; [now right | exact Hinc]].
    destruct (JsString.includes (JsString.toLowerCase query) n) eqn:Hn;
      [|now left].
    unfold JsArray.setAdd in Hacc.
    destruct (existsb (String.eqb n) acc); [now left|].
    apply in_app_or in Hacc. destruct Hacc as [Hacc | [<- | []]]; [now left|].
    right. split; [now left | exact Hn]. }
  intros Hin. destruct (Hgen _ _ Hin) as [[] | Hres]. exact Hres.
Qed.

Lemma knows_optimizeQuery (query : string) :
  knowsItsTables K (QueryOptimizer.optimizeQuery query).
Proof.
  intros w HK. rewrite optimizeQuery_run.
  apply knows_bind; [|intros _; apply knows_ret | exact HK].
  apply knows_awaitAll. apply Forall_forall. intros p Hp.
  apply in_map_iff in Hp. destruct Hp as (t & <- & Ht).
  apply knows_ensureTableLoaded.
  apply extractTableNames_selects in Ht. rewrite <- HK. apply Ht.
Qed.

Lemma knows_validateQuery (query : string) :
  knowsItsTables K (HealthQueryTool.validateQuery query).
Proof.
  unfold HealthQueryTool.validateQuery.
  destruct (find _ HealthQueryTool.forbidden).
  - apply knows_throw. discriminate.
  - destruct (negb _); [apply knows_throw; discriminate | apply knows_ret].
Qed.

Lemma knows_getOrExecute (query : string) (executor : M QueryResult.t)
                         (params : option string) :
  knowsItsTables K executor ->
  knowsItsTables K (QueryCacheAsync.getOrExecute query executor params).
Proof.
  intros Hexec. unfold QueryCacheAsync.getOrExecute, QueryCacheAsync.get,
    QueryCacheAsync.set.
  apply knows_bind.
  - apply knows_bind; [apply knows_getQueryCache | intros c].
    destruct (JsMap.get _ (QueryCache.cache c)); [|apply knows_ret].
    apply knows_bind; [apply knows_dateNow | intros now].
    destruct (QueryCache.get now query params c) as [c' r].
    apply knows_bind; [apply knows_putQueryCache | intros _; apply knows_ret].
  - intros [r|]; [apply knows_ret|].
    apply knows_bind; [exact Hexec | intros result].
    apply knows_bind; [|intros _; apply knows_ret].
    apply knows_bind; [apply knows_getQueryCache | intros c].
    apply knows_bind; [apply knows_dateNow | intros now].
    apply knows_putQueryCache.
Qed.

Lemma knows_execute_tool (query : string) :
  knowsItsTables K (HealthQueryTool.execute query).
Proof.
  unfold HealthQueryTool.execute.
  apply knows_bind; [apply knows_validateQuery | intros _].
  apply knows_bind; [apply knows_optimizeQuery | intros optimizedQuery].
  apply knows_getOrExecute. unfold HealthQueryTool.runQuery.
  apply knows_bind; [apply knows_dateNow | intros startTime].
  apply knows_bind; [apply knows_execute | intros rows].
  apply knows_bind; [apply knows_dateNow | intros endTime].
  apply knows_ret.
Qed.

End Pipeline.

Section UnknownTable.
Context `{Engine} `{Calendar} `{Sha256}.

Lemma validateQuery_world (query : string) (w : World) :
  fst (HealthQueryTool.validateQuery query w) = w.
Proof.
  unfold HealthQueryTool.validateQuery.
  destruct (find _ HealthQueryTool.forbidden); [reflexivity|].
  destruct (negb _); reflexivity.
Qed.

(** C1, amended.  For every query and every well-formed catalog:
    [extractTableNames] returns only names the catalog holds, and
    [getEntry] finds each of them; so neither [optimizeQuery] nor the
    whole pipeline ([validateQuery], [optimizeQuery], [getOrExecute])
    fails with "table not found", whatever tables the query mentions.
    A query that passes validation, whose loads succeed and whose
    rewritten text is not in the cache is handed to the engine; a
    table missing there is reported by the engine's own error. *)
Theorem pipeline_never_reports_unknown_table (query : string) (w : World) :
  FileCatalog.wf (catalog w) ->
  (forall t,
      In t (TableLoader.extractTableNames query (catalog w)) ->
      In t (FileCatalog.getAllTables (catalog w))
      /\ FileCatalog.getEntry t (catalog w) <> None)
  /\ (forall t,
         snd (QueryOptimizer.optimizeQuery query w) <> Thrown (TableNotFound t))
  /\ (forall t,
         snd (HealthQueryTool.execute query w) <> Thrown (TableNotFound t))
  /\ (forall (w1 : World) (optimizedQuery : string),
         snd (HealthQueryTool.validateQuery query w) = Returned tt ->
         QueryOptimizer.optimizeQuery query w = (w1, Returned optimizedQuery) ->
         JsMap.get (QueryCache.getCacheKey optimizedQuery None)
                   (QueryCache.cache (queryCache w1)) = None ->
         issued (fst (HealthQueryTool.execute query w))
         = issued w1 ++ [optimizedQuery]).
Proof.
  intros [Hnd Hlow].
  split; [|split; [|split]].
  - intros t Ht. apply extractTableNames_selects in Ht.
    destruct Ht as [Hin _]. split; [exact Hin|].
    unfold FileCatalog.getEntry. rewrite Forall_forall in Hlow.
    rewrite (Hlow _ Hin). intros Hnone.
    apply get_None_iff in Hnone. contradiction.
  - intros t.
    apply (knows_optimizeQuery (JsMap.keys (catalog w)) Hlow query w eq_refl).
  - intros t.
    apply (knows_execute_tool (JsMap.keys (catalog w)) Hlow query w eq_refl).
  - intros w1 optimizedQuery Hvalid Hopt Hmiss.
    unfold HealthQueryTool.execute, bind.
    pose proof (validateQuery_world query w) as Hw.
    destruct (HealthQueryTool.validateQuery query w) as [w0 r].
    cbn [fst snd] in Hw, Hvalid. subst w0 r.
    rewrite Hopt.
    unfold QueryCacheAsync.getOrExecute, QueryCacheAsync.get,
      QueryCacheAsync.set, HealthQueryTool.runQuery, HealthDataDB.execute,
      bind, getQueryCache, putQueryCache, dateNow, ret.
    rewrite Hmiss. cbn [conn issued catalog queryCache clock reads].
    destruct (conn_all optimizedQuery (conn w1)) as [c' [msg|rows]];
      reflexivity.
Qed.

End UnknownTable.

(** C1 as stated fails: the query names a table the catalog does not
    hold; [extractTableNames] finds no catalog name in it, no load is
    attempted, the query is executed by the engine, and the failure the
    caller gets is the engine's, not "table not found". *)
Lemma query_on_unknown_table_reaches_the_engine :
  FileCatalog.getEntry "nosuchtable" Fixture.discovered = None
  /\ JsString.includes (JsString.toLowerCase "SELECT * FROM nosuchtable") "nosuchtable"
     = true
  /\ @TableLoader.extractTableNames "SELECT * FROM nosuchtable" Fixture.discovered = []
  /\ snd (@HealthQueryTool.execute (Fixture.scripted Fixture.strict) Fixture.fixedDay
            Fixture.tagHash "SELECT * FROM nosuchtable"
            (Fixture.world0 Fixture.strict Fixture.discovered))
     = Thrown (EngineError "Catalog Error: Table with name nosuchtable does not exist!")
  /\ issued (fst (@HealthQueryTool.execute (Fixture.scripted Fixture.strict)
                    Fixture.fixedDay Fixture.tagHash "SELECT * FROM nosuchtable"
                    (Fixture.world0 Fixture.strict Fixture.discovered)))
     = ["SELECT * FROM nosuchtable"%string].
Proof. repeat split; reflexivity. Qed.

Lemma pipeline_never_reports_unknown_table_witness :
  (forall t,
      snd (@HealthQueryTool.execute (Fixture.scripted Fixture.strict) Fixture.fixedDay
             Fixture.tagHash "SELECT * FROM nosuchtable"
             (Fixture.world0 Fixture.strict Fixture.discovered))
      <> Thrown (TableNotFound t))
  /\ issued (fst (@HealthQueryTool.execute (Fixture.scripted Fixture.strict)
                    Fixture.fixedDay Fixture.tagHash "SELECT * FROM nosuchtable"
                    (Fixture.world0 Fixture.strict Fixture.discovered)))
     = [] ++ ["SELECT * FROM nosuchtable"%string].
Proof.
  destruct (@pipeline_never_reports_unknown_table
              (Fixture.scripted Fixture.strict) Fixture.fixedDay Fixture.tagHash
              "SELECT * FROM nosuchtable"
              (Fixture.world0 Fixture.strict Fixture.discovered))
    as (_ & _ & Hquiet & Hengine).
  - split.
    + repeat constructor; simpl; intuition discriminate.
    + repeat constructor.
  - split; [exact Hquiet|].
    apply (Hengine (Fixture.world0 Fixture.strict Fixture.discovered)
                   "SELECT * FROM nosuchtable"%string); reflexivity.
Defined.

(** ** The pipeline on a table the catalog holds

    A query on the heart-rate table, not yet loaded: [optimizeQuery]
    loads the table (five rows are reported), marks it loaded with the
    clock reading of that moment, and the query is then executed. *)
Example execute_loads_the_referenced_table :
  FileCatalog.getEntry Fixture.heart
    (catalog
       (fst (@HealthQueryTool.execute (Fixture.scripted (Fixture.counting 5))
               Fixture.fixedDay Fixture.tagHash
               "SELECT * FROM hkquantitytypeidentifierheartrate LIMIT 1"
               (Fixture.world0 (Fixture.counting 5) Fixture.discovered))))
  = Some (CatalogEntry.mk "/data/HKQuantityTypeIdentifierHeartRate.csv"
            true (Some 5) (Some 1001))
  /\ length
       (issued
          (fst (@HealthQueryTool.execute (Fixture.scripted (Fixture.counting 5))
                  Fixture.fixedDay Fixture.tagHash
                  "SELECT * FROM hkquantitytypeidentifierheartrate LIMIT 1"
                  (Fixture.world0 (Fixture.counting 5) Fixture.discovered))))
     = 8%nat
  /\ FileCatalog.getLoadedTables
       (catalog
          (fst (@HealthQueryTool.execute (Fixture.scripted (Fixture.counting 5))
                  Fixture.fixedDay Fixture.tagHash
                  "SELECT * FROM hkquantitytypeidentifierheartrate LIMIT 1"
                  (Fixture.world0 (Fixture.counting 5) Fixture.discovered))))
     = [Fixture.heart].
Proof. repeat split; reflexivity. Qed.

(* ================================================================== *)
(** * Part III: further properties of the code *)
(* ================================================================== *)

(** ** The query cache *)

Section CacheMore.
Context `{Sha256}.

Lemma keys_delete_subset {V : Type} (m : JsMap.t V) (k x : string) :
  In x (JsMap.keys (JsMap.delete k m)) -> In x (JsMap.keys m).
Proof.
  induction m as [|[k' v'] r IH]; simpl; [tauto|].
  destruct (String.eqb_spec k k'); simpl; [tauto|].
  intros [Hx|Hx]; [now left | right; now apply IH].
Qed.

Lemma wf_delete {V : Type} (m : JsMap.t V) (k : string) :
  JsMap.wf m -> JsMap.wf (JsMap.delete k m).
Proof.
  unfold JsMap.wf. induction m as [|[k' v'] r IH]; simpl; [tauto|].
  intros Hnd. inversion Hnd as [|? ? Hni Hnd']; subst.
  destruct (String.eqb_spec k k'); simpl; [exact Hnd'|].
  constructor; [|now apply IH].
  intros Hin. apply Hni. eapply keys_delete_subset. exact Hin.
Qed.

Lemma length_delete_le {V : Type} (m : JsMap.t V) (k : string) :
  (length (JsMap.delete k m) <= length m)%nat.
Proof.
  induction m as [|[k' v'] r IH]; simpl; [lia|].
  destruct (String.eqb k k'); simpl; lia.
Qed.

Lemma length_set_le {V : Type} (m : JsMap.t V) (k : string) (v : V) :
  (length (JsMap.set k v m) <= S (length m))%nat.
Proof.
  induction m as [|[k' v'] r IH]; simpl; [lia|].
  destruct (String.eqb k k'); simpl; lia.
Qed.

(** X1.  [set] followed by [get] for the same query and parameters
    gives back the result that was stored, as long as the age of the
    entry does not exceed the time-to-live of the query; beyond it the
    answer is absent.  This holds for every cache, full or not: the key
    is written after any eviction. *)
Theorem set_then_get_round_trip
    (now later : Z) (query : string) (result : QueryResult.t)
    (params : option string) (c : QueryCache.t) :
  snd (QueryCache.get later query params
         (QueryCache.set now query result params c))
  = if later - now <=? QueryCache.getTTL query then Some result else None.
Proof.
  unfold QueryCache.get. cbn [QueryCache.set QueryCache.cache].
  rewrite get_set_same. cbn [CachedResult.timestamp CachedResult.ttl CachedResult.result].
  rewrite Z.gtb_ltb, Z.ltb_antisym.
  destruct (later - now <=? QueryCache.getTTL query); reflexivity.
Qed.

(** The invariant of a cache in use: a key is stored once, no key is
    the empty string, and the size does not exceed a capacity of at
    least one. *)
Lemma set_keeps_invariant
    (now : Z) (query : string) (result : QueryResult.t)
    (params : option string) (c : QueryCache.t) :
  (forall input, sha256_hex input <> EmptyString) ->
  1 <= QueryCache.maxSize c ->
  JsMap.wf (QueryCache.cache c) ->
  Forall (fun k => JsString.truthy k = true) (JsMap.keys (QueryCache.cache c)) ->
  QueryCache.getSize c <= QueryCache.maxSize c ->
  JsMap.wf (QueryCache.cache (QueryCache.set now query result params c))
  /\ Forall (fun k => JsString.truthy k = true)
       (JsMap.keys (QueryCache.cache (QueryCache.set now query result params c)))
  /\ QueryCache.getSize (QueryCache.set now query result params c)
     <= QueryCache.maxSize c.
Proof.
  intros Hhash Hcap Hwf Htruthy Hsize.
  assert (Hkey : JsString.truthy (QueryCache.getCacheKey query params) = true).
  { unfold QueryCache.getCacheKey.
    specialize (Hhash (query ++ match params with
                                | Some j => j
                                | None => EmptyString
                                end)%string).
    destruct (sha256_hex _); [congruence | reflexivity]. }
  unfold QueryCache.getSize, JsMap.size in *.
  unfold QueryCache.set. cbn [QueryCache.cache QueryCache.maxSize].
  unfold JsMap.size. rewrite Z.geb_leb.
  destruct (Z.leb_spec (QueryCache.maxSize c)
                       (Z.of_nat (length (QueryCache.cache c)))) as [Hfull|Hroom].
  - destruct (findOldestEntry_first_minimum c)
      as (a & k & v & b & Hsplit & Hfind & _ & _).
    { intros Hnil. rewrite Hnil in Hfull. simpl in Hfull. lia. }
    assert (Hin : In k (JsMap.keys (QueryCache.cache c))).
    { rewrite Hsplit. unfold JsMap.keys. rewrite map_app. apply in_or_app.
      right. now left. }
    assert (Hg : exists v0, JsMap.get k (QueryCache.cache c) = Some v0).
    { destruct (JsMap.get k (QueryCache.cache c)) eqn:Hg; [eauto|].
      apply get_None_iff in Hg. contradiction. }
    destruct Hg as [v0 Hg].
    rewrite Hfind. rewrite Forall_forall in Htruthy. rewrite (Htruthy k Hin).
    pose proof (length_delete_present _ _ _ Hg) as Hlen.
    pose proof (length_set_le (JsMap.delete k (QueryCache.cache c))
                  (QueryCache.getCacheKey query params)
                  (CachedResult.mk result now (QueryCache.getTTL query))) as Hle.
    split; [apply wf_set, wf_delete, Hwf|]. split; [|lia].
    apply Forall_forall. intros x Hx.
    destruct (keys_set_subset _ _ _ _ Hx) as [->|Hx']; [exact Hkey|].
    apply Htruthy. eapply keys_delete_subset. exact Hx'.
  - pose proof (length_set_le (QueryCache.cache c)
                  (QueryCache.getCacheKey query params)
                  (CachedResult.mk result now (QueryCache.getTTL query))) as Hle.
    split; [apply wf_set, Hwf|]. split; [|lia].
    rewrite Forall_forall in *. intros x Hx.
    destruct (keys_set_subset _ _ _ _ Hx) as [->|Hx']; [exact Hkey | auto].
Qed.

Lemma get_keeps_invariant
    (now : Z) (query : string) (params : option string) (c : QueryCache.t) :
  JsMap.wf (QueryCache.cache c) ->
  Forall (fun k => JsString.truthy k = true) (JsMap.keys (QueryCache.cache c)) ->
  QueryCache.getSize c <= QueryCache.maxSize c ->
  JsMap.wf (QueryCache.cache (fst (QueryCache.get now query params c)))
  /\ Forall (fun k => JsString.truthy k = true)
       (JsMap.keys (QueryCache.cache (fst (QueryCache.get now query params c))))
  /\ QueryCache.getSize (fst (QueryCache.get now query params c))
     <= QueryCache.maxSize c
  /\ QueryCache.maxSize (fst (QueryCache.get now query params c))
     = QueryCache.maxSize c.
Proof.
  intros Hwf Htruthy Hsize. unfold QueryCache.get.
  destruct (JsMap.get _ (QueryCache.cache c)) as [cached|]; [|now auto].
  destruct (_ >? _); cbn [fst]; [|now auto].
  unfold QueryCache.getSize, JsMap.size in *. cbn [QueryCache.cache QueryCache.maxSize].
  pose proof (length_delete_le (QueryCache.cache c)
                (QueryCache.getCacheKey query params)) as Hle.
  split; [now apply wf_delete|]. split; [|split; [lia | reflexivity]].
  rewrite Forall_forall in *. intros x Hx. apply Htruthy.
  eapply keys_delete_subset. exact Hx.
Qed.

(** X2.  A cache created with a capacity [N >= 1] never holds more than
    [N] entries, and never holds a key twice, whatever sequence of
    [set], [get] and [clear] calls is made on it and whatever the clock
    readings are. *)
Theorem cache_never_exceeds_capacity (N : Z) (ops : list CacheRun.Op) :
  (forall input, sha256_hex input <> EmptyString) ->
  1 <= N ->
  QueryCache.getSize (CacheRun.runOps ops (QueryCache.create N)) <= N
  /\ JsMap.wf (QueryCache.cache (CacheRun.runOps ops (QueryCache.create N)))
  /\ QueryCache.maxSize (CacheRun.runOps ops (QueryCache.create N)) = N.
Proof.
  intros Hhash HN.
  assert (Hgen : forall c,
             QueryCache.maxSize c = N ->
             JsMap.wf (QueryCache.cache c) ->
             Forall (fun k => JsString.truthy k = true)
                    (JsMap.keys (QueryCache.cache c)) ->
             QueryCache.getSize c <= N ->
             QueryCache.getSize (CacheRun.runOps ops c) <= N
             /\ JsMap.wf (QueryCache.cache (CacheRun.runOps ops c))
             /\ QueryCache.maxSize (CacheRun.runOps ops c) = N).
  { induction ops as [|o ops IH]; intros c Hmax Hwf Htruthy Hsize; [now auto|].
    unfold CacheRun.runOps in *. cbn [fold_left].
    destruct o as [s | time q p |]; cbn [CacheRun.applyOp].
    - destruct (set_keeps_invariant (CacheRun.now s) (CacheRun.query s)
                  (CacheRun.result s) (CacheRun.params s) c Hhash)
        as (Hwf' & Htruthy' & Hsize'); try assumption; try lia.
      apply IH.
      + exact Hmax.
      + exact Hwf'.
      + exact Htruthy'.
      + lia.
    - destruct (get_keeps_invariant time q p c Hwf Htruthy)
        as (Hwf' & Htruthy' & Hsize' & Hmax'); [lia|].
      apply IH.
      + lia.
      + exact Hwf'.
      + exact Htruthy'.
      + lia.
    - apply IH.
      + exact Hmax.
      + constructor.
      + constructor.
      + unfold QueryCache.getSize, JsMap.size. simpl. lia. }
  apply Hgen; [reflexivity | constructor | constructor |].
  unfold QueryCache.getSize, JsMap.size. simpl. lia.
Qed.

(** X3.  [set] touches at most two keys: the key it writes and, on a
    full cache, the key of the oldest entry.  Every other key reads as
    before. *)
Theorem set_leaves_other_entries
    (now : Z) (query : string) (result : QueryResult.t)
    (params : option string) (c : QueryCache.t) (other : string) :
  other <> QueryCache.getCacheKey query params ->
  JsMap.size (QueryCache.cache c) < QueryCache.maxSize c
  \/ QueryCache.findOldestEntry c <> Some other ->
  JsMap.get other (QueryCache.cache (QueryCache.set now query result params c))
  = JsMap.get other (QueryCache.cache c).
Proof.
  intros Hkey Hold. unfold QueryCache.set. cbn [QueryCache.cache].
  rewrite get_set_other by congruence.
  rewrite Z.geb_leb.
  destruct (Z.leb_spec (QueryCache.maxSize c) (JsMap.size (QueryCache.cache c)))
    as [Hfull|Hroom]; [|reflexivity].
  destruct Hold as [Hroom|Hold]; [lia|].
  destruct (QueryCache.findOldestEntry c) as [k|]; [|reflexivity].
  destruct (JsString.truthy k); [|reflexivity].
  apply get_delete_other. congruence.
Qed.

(** X4.  [findOldestEntry] returns nothing exactly on the empty cache;
    on any other cache it returns the key of the first entry, in
    insertion order, whose timestamp is the least: every entry before it
    is strictly younger and no entry behind it is older. *)
Theorem findOldestEntry_characterised (c : QueryCache.t) :
  match QueryCache.cache c with
  | [] => QueryCache.findOldestEntry c = None
  | _ :: _ =>
      exists a k v b,
        QueryCache.cache c = a ++ (k, v) :: b
        /\ QueryCache.findOldestEntry c = Some k
        /\ Forall (fun x => CachedResult.timestamp v
                            < CachedResult.timestamp (snd x)) a
        /\ Forall (fun x => CachedResult.timestamp v
                            <= CachedResult.timestamp (snd x)) b
  end.
Proof.
  destruct (QueryCache.cache c) as [|kv m] eqn:Hc.
  - unfold QueryCache.findOldestEntry, JsMap.entries. now rewrite Hc.
  - rewrite <- Hc. apply findOldestEntry_first_minimum. rewrite Hc. discriminate.
Qed.

End CacheMore.

Section CachedExecution.
Context `{Engine} `{Calendar} `{Sha256}.

(** X5.  When the key of the query is stored and the clock reading is
    not beyond the time-to-live of the entry, [getOrExecute] returns the
    stored result and does not run the executor, whatever the executor
    is: nothing is issued to the engine, and neither the cache nor the
    catalog changes. *)
Theorem getOrExecute_hit_skips_executor
    (query : string) (params : option string) (executor : M QueryResult.t)
    (w : World) (cached : CachedResult.t) :
  JsMap.get (QueryCache.getCacheKey query params)
            (QueryCache.cache (queryCache w)) = Some cached ->
  clock w (reads w) - CachedResult.timestamp cached <= CachedResult.ttl cached ->
  QueryCacheAsync.getOrExecute query executor params w
  = (mkWorld (conn w) (issued w) (catalog w) (queryCache w) (clock w)
             (S (reads w)),
     Returned (CachedResult.result cached)).
Proof.
  intros Hstored Hfresh.
  unfold QueryCacheAsync.getOrExecute, QueryCacheAsync.get, bind at 1 2,
    getQueryCache.
  rewrite Hstored. unfold bind, dateNow, putQueryCache, ret, QueryCache.get.
  cbn [conn issued catalog queryCache clock reads].
  rewrite Hstored.
  destruct (Z.gtb_spec (clock w (reads w) - CachedResult.timestamp cached)
                       (CachedResult.ttl cached)) as [Hexp|_]; [lia|].
  destruct (queryCache w); reflexivity.
Qed.

(** X6.  After a miss whose executor returned [r], the same query is
    served from the cache: a second [getOrExecute], made while the
    clock has not advanced by more than the time-to-live of the query,
    returns [r] without running its executor. *)
Theorem getOrExecute_memoizes
    (query : string) (params : option string)
    (executor executor' : M QueryResult.t) (w w1 : World) (r : QueryResult.t) :
  JsMap.get (QueryCache.getCacheKey query params)
            (QueryCache.cache (queryCache w)) = None ->
  executor w = (w1, Returned r) ->
  clock w1 (S (reads w1)) - clock w1 (reads w1) <= QueryCache.getTTL query ->
  QueryCacheAsync.getOrExecute query executor params w
  = (mkWorld (conn w1) (issued w1) (catalog w1)
       (QueryCache.set (clock w1 (reads w1)) query r params (queryCache w1))
       (clock w1) (S (reads w1)),
     Returned r)
  /\ QueryCacheAsync.getOrExecute query executor' params
       (fst (QueryCacheAsync.getOrExecute query executor params w))
     = (mkWorld (conn w1) (issued w1) (catalog w1)
          (QueryCache.set (clock w1 (reads w1)) query r params (queryCache w1))
          (clock w1) (S (S (reads w1))),
        Returned r).
Proof.
  intros Hmiss Hexec Hsoon.
  assert (Hfirst : QueryCacheAsync.getOrExecute query executor params w
                   = (mkWorld (conn w1) (issued w1) (catalog w1)
                        (QueryCache.set (clock w1 (reads w1)) query r params
                           (queryCache w1))
                        (clock w1) (S (reads w1)),
                      Returned r)).
  { unfold QueryCacheAsync.getOrExecute, QueryCacheAsync.get, bind at 1 2,
      getQueryCache.
    rewrite Hmiss. unfold ret at 1. cbv beta iota.
    unfold bind at 1. rewrite Hexec.
    unfold QueryCacheAsync.set, bind, getQueryCache, dateNow, putQueryCache, ret.
    reflexivity. }
  split; [exact Hfirst|].
  rewrite Hfirst. cbn [fst].
  rewrite (getOrExecute_hit_skips_executor query params executor' _
             (CachedResult.mk r (clock w1 (reads w1)) (QueryCache.getTTL query))).
  - reflexivity.
  - cbn [queryCache QueryCache.set QueryCache.cache]. apply get_set_same.
  - cbn [clock reads CachedResult.timestamp CachedResult.ttl]. exact Hsoon.
Qed.

(** X7.  A query the engine rejects is not cached: on a miss,
    [getOrExecute] with the executor of the query tool hands the query
    to the engine, throws the engine's error, and leaves the cache and
    the catalog as they were. *)
Theorem getOrExecute_does_not_cache_failures
    (query : string) (params : option string) (w : World)
    (conn' : Conn) (msg : string) :
  JsMap.get (QueryCache.getCacheKey query params)
            (QueryCache.cache (queryCache w)) = None ->
  conn_all query (conn w) = (conn', inl msg) ->
  QueryCacheAsync.getOrExecute query (HealthQueryTool.runQuery query) params w
  = (mkWorld conn' (issued w ++ [query]) (catalog w) (queryCache w) (clock w)
             (S (reads w)),
     Thrown (EngineError msg)).
Proof.
  intros Hmiss Hreject.
  unfold QueryCacheAsync.getOrExecute, QueryCacheAsync.get, bind at 1 2,
    getQueryCache.
  rewrite Hmiss.
  unfold HealthQueryTool.runQuery, HealthDataDB.execute, bind, dateNow, ret.
  cbn [conn issued catalog queryCache clock reads].
  rewrite Hreject. reflexivity.
Qed.

End CachedExecution.

(** ** The catalog *)

Section CatalogMore.

Lemma In_set_inv {V : Type} (m : JsMap.t V) (k x : string) (v e : V) :
  In (x, e) (JsMap.set k v m) -> (x, e) = (k, v) \/ In (x, e) m.
Proof.
  induction m as [|[k' v'] r IH]; simpl.
  - intros [Heq|[]]. left. now symmetry.
  - destruct (String.eqb_spec k k'); simpl.
    + intros [Heq|Hin]; [left; now symmetry | right; now right].
    + intros [Heq|Hin]; [right; now left|].
      destruct (IH Hin); [now left | right; now right].
Qed.

Lemma In_set_same {V : Type} (m : JsMap.t V) (k : string) (v : V) :
  In (k, v) (JsMap.set k v m).
Proof.
  induction m as [|[k' v'] r IH]; simpl; [now left|].
  destruct (String.eqb_spec k k'); simpl; [now left | now right].
Qed.

Lemma In_set_other {V : Type} (m : JsMap.t V) (k x : string) (v e : V) :
  x <> k -> In (x, e) m -> In (x, e) (JsMap.set k v m).
Proof.
  intros Hne. induction m as [|[k' v'] r IH]; simpl; [tauto|].
  destruct (String.eqb_spec k k') as [->|Hk]; simpl.
  - intros [Heq|Hin]; [inversion Heq; congruence | now right].
  - intros [Heq|Hin]; [now left | right; now apply IH].
Qed.

Lemma keys_set_grow {V : Type} (m : JsMap.t V) (k x : string) (v : V) :
  x = k \/ In x (JsMap.keys m) -> In x (JsMap.keys (JsMap.set k v m)).
Proof.
  induction m as [|[k' v'] r IH]; simpl.
  - intros [->|[]]. now left.
  - destruct (String.eqb_spec k k') as [->|Hk]; simpl.
    + intros [->|[->|Hin]]; [now left | now left | now right].
    + intros [->|[->|Hin]]; [right; apply IH; now left | now left |
                             right; apply IH; now right].
Qed.

(** Files registered later do not touch the entry of another table. *)
Lemma register_all_other (files : list (string * string)) :
  forall (c : FileCatalog.t) (k : string),
    (forall m p, In (m, p) files -> JsString.toLowerCase m <> k) ->
    JsMap.get k (fold_left FileCatalog.register files c) = JsMap.get k c.
Proof.
  induction files as [|[m p] rest IH]; intros c k Hother; [reflexivity|].
  cbn [fold_left FileCatalog.register]. rewrite IH.
  - apply get_set_other. apply (Hother m p). now left.
  - intros m' p' Hin. apply (Hother m' p'). now right.
Qed.

Lemma register_all_fresh (files : list (string * string)) :
  forall (c : FileCatalog.t) (k : string) (e : CatalogEntry.t),
    (forall k0 e0, In (k0, e0) c ->
                   exists p0, e0 = CatalogEntry.mk p0 false None None) ->
    In (k, e) (fold_left FileCatalog.register files c) ->
    exists p, e = CatalogEntry.mk p false None None.
Proof.
  induction files as [|[m p] rest IH]; intros c k e Hc Hin; [eauto|].
  cbn [fold_left FileCatalog.register] in Hin.
  apply (IH _ k e) in Hin; [exact Hin|].
  intros k0 e0 Hin0. apply In_set_inv in Hin0.
  destruct Hin0 as [Heq|Hin0]; [inversion Heq; eauto | eauto].
Qed.

(** X8.  The catalog [scanDirectory] builds holds every table name once,
    in lower case; every entry is not loaded and has neither a row count
    nor an access time, so no table is loaded; and a matched file is
    found by [getTablePath] under its name in any letter case.  When
    several files give the same table name, the path of the last one is
    kept. *)
Theorem scanDirectory_registers_every_file
    (before : list (string * string)) (match1 filePath : string)
    (after : list (string * string)) (asked : string) :
  (forall m p, In (m, p) after ->
               JsString.toLowerCase m <> JsString.toLowerCase match1) ->
  JsString.toLowerCase asked = JsString.toLowerCase match1 ->
  FileCatalog.wf
    (FileCatalog.scanDirectory (before ++ (match1, filePath) :: after))
  /\ FileCatalog.getLoadedTables
       (FileCatalog.scanDirectory (before ++ (match1, filePath) :: after)) = []
  /\ FileCatalog.getEntry asked
       (FileCatalog.scanDirectory (before ++ (match1, filePath) :: after))
     = Some (CatalogEntry.mk filePath false None None)
  /\ FileCatalog.getTablePath asked
       (FileCatalog.scanDirectory (before ++ (match1, filePath) :: after))
     = Some filePath.
Proof.
  intros Hlast Hasked.
  assert (Hentry : FileCatalog.getEntry asked
                     (FileCatalog.scanDirectory (before ++ (match1, filePath) :: after))
                   = Some (CatalogEntry.mk filePath false None None)).
  { unfold FileCatalog.getEntry, FileCatalog.scanDirectory.
    rewrite Hasked, fold_left_app. cbn [fold_left FileCatalog.register].
    rewrite register_all_other by exact Hlast. apply get_set_same. }
  split; [apply scanDirectory_wf|]. split; [|split; [exact Hentry|]].
  - unfold FileCatalog.getLoadedTables, JsMap.entries.
    assert (Hnone : forall l : FileCatalog.t,
               (forall k e, In (k, e) l ->
                            exists p, e = CatalogEntry.mk p false None None) ->
               filter FileCatalog.isLoaded l = []).
    { induction l as [|[k e] r IH]; intros Hall; [reflexivity|].
      cbn [filter]. destruct (Hall k e (or_introl eq_refl)) as [p ->].
      cbn. apply IH. intros k0 e0 Hin. apply (Hall k0 e0). now right. }
    rewrite Hnone; [reflexivity|].
    intros k e Hin. unfold FileCatalog.scanDirectory in Hin.
    eapply register_all_fresh; [|exact Hin]. intros k0 e0 [].
  - unfold FileCatalog.getTablePath. unfold FileCatalog.getEntry in Hentry.
    now rewrite Hentry.
Qed.

(** X9.  [markLoaded] followed by [markUnloaded] on a table of the
    catalog leaves its entry not loaded but with the row count and the
    access time of the load; the list of table names, in order, and the
    entry of every other table are as before. *)
Theorem markUnloaded_after_markLoaded
    (name : string) (rowCount now : Z) (c : FileCatalog.t) (entry : CatalogEntry.t) :
  FileCatalog.getEntry name c = Some entry ->
  FileCatalog.getEntry name
    (FileCatalog.markUnloaded name (FileCatalog.markLoaded name rowCount now c))
  = Some (CatalogEntry.mk (CatalogEntry.path entry) false (Some rowCount) (Some now))
  /\ FileCatalog.getAllTables
       (FileCatalog.markUnloaded name (FileCatalog.markLoaded name rowCount now c))
     = FileCatalog.getAllTables c
  /\ forall other,
       JsString.toLowerCase other <> JsString.toLowerCase name ->
       FileCatalog.getEntry other
         (FileCatalog.markUnloaded name (FileCatalog.markLoaded name rowCount now c))
       = FileCatalog.getEntry other c.
Proof.
  unfold FileCatalog.getEntry, FileCatalog.getAllTables. intros Hentry.
  assert (Hloaded : JsMap.get (JsString.toLowerCase name)
                      (FileCatalog.markLoaded name rowCount now c)
                    = Some (CatalogEntry.mk (CatalogEntry.path entry) true
                              (Some rowCount) (Some now))).
  { unfold FileCatalog.markLoaded. rewrite Hentry. apply get_set_same. }
  unfold FileCatalog.markUnloaded at 1 2 3. rewrite Hloaded.
  cbn [CatalogEntry.path CatalogEntry.rowCount CatalogEntry.lastAccessed].
  split; [apply get_set_same|]. split.
  - rewrite (keys_set_present _ _ _ _ Hloaded).
    unfold FileCatalog.markLoaded. rewrite Hentry.
    apply (keys_set_present _ _ _ _ Hentry).
  - intros other Hother. rewrite get_set_other by congruence.
    unfold FileCatalog.markLoaded. rewrite Hentry.
    apply get_set_other. congruence.
Qed.

Lemma filter_absent (k : string) (l : list string) :
  ~ In k l -> filter (fun t => negb (String.eqb t k)) l = l.
Proof.
  induction l as [|x r IH]; simpl; [reflexivity|]. intros Hni.
  destruct (String.eqb_spec x k) as [->|Hne]; [tauto|].
  cbn. f_equal. apply IH. tauto.
Qed.

Lemma loaded_names_subset (c : FileCatalog.t) (t : string) :
  In t (FileCatalog.getLoadedTables c) -> In t (JsMap.keys c).
Proof.
  unfold FileCatalog.getLoadedTables, JsMap.entries, JsMap.keys.
  intros Hin. apply in_map_iff in Hin. destruct Hin as ([k e] & <- & Hin).
  apply filter_In in Hin. apply in_map_iff. exists (k, e). tauto.
Qed.

Lemma loaded_after_unset (c : FileCatalog.t) (k : string) (e : CatalogEntry.t) :
  JsMap.wf c -> CatalogEntry.loaded e = false ->
  FileCatalog.getLoadedTables (JsMap.set k e c)
  = filter (fun t => negb (String.eqb t k)) (FileCatalog.getLoadedTables c).
Proof.
  unfold JsMap.wf. intros Hnd He.
  induction c as [|[k' e'] r IH].
  - cbn. unfold FileCatalog.isLoaded. cbn. now rewrite He.
  - inversion Hnd as [|? ? Hni Hnd']; subst. cbn [JsMap.set].
    unfold FileCatalog.getLoadedTables, JsMap.entries in *.
    destruct (String.eqb_spec k k') as [->|Hk]; cbn [filter].
    + change (FileCatalog.isLoaded (k', e)) with (CatalogEntry.loaded e).
      change (FileCatalog.isLoaded (k', e')) with (CatalogEntry.loaded e').
      rewrite He.
      assert (Hrest : filter (fun t => negb (String.eqb t k'))
                        (map fst (filter FileCatalog.isLoaded r))
                      = map fst (filter FileCatalog.isLoaded r)).
      { apply filter_absent. intros Hin. apply Hni.
        apply (loaded_names_subset r). exact Hin. }
      destruct (CatalogEntry.loaded e'); cbn [map filter fst].
      * rewrite String.eqb_refl. cbn [negb]. now rewrite Hrest.
      * now rewrite Hrest.
    + change (FileCatalog.isLoaded (k', e')) with (CatalogEntry.loaded e').
      destruct (CatalogEntry.loaded e'); cbn [map filter fst].
      * destruct (String.eqb_spec k' k); [congruence|]. cbn [negb].
        f_equal. now apply IH.
      * now apply IH.
Qed.

(** X10.  [getLoadedTables] follows the marks: after [markUnloaded] it is
    the list before without the table, in the same order; after
    [markLoaded] of a table of the catalog it holds the table and
    otherwise the same names. *)
Theorem getLoadedTables_follows_marks
    (name : string) (rowCount now : Z) (c : FileCatalog.t) (entry : CatalogEntry.t) :
  JsMap.wf c ->
  FileCatalog.getEntry name c = Some entry ->
  FileCatalog.getLoadedTables (FileCatalog.markUnloaded name c)
  = filter (fun t => negb (String.eqb t (JsString.toLowerCase name)))
           (FileCatalog.getLoadedTables c)
  /\ forall t,
       In t (FileCatalog.getLoadedTables (FileCatalog.markLoaded name rowCount now c))
       <-> t = JsString.toLowerCase name \/ In t (FileCatalog.getLoadedTables c).
Proof.
  unfold FileCatalog.getEntry. intros Hwf Hentry. split.
  - unfold FileCatalog.markUnloaded. rewrite Hentry.
    apply loaded_after_unset; [exact Hwf | reflexivity].
  - intros t. unfold FileCatalog.markLoaded. rewrite Hentry.
    unfold FileCatalog.getLoadedTables, JsMap.entries. split.
    + intros Hin. apply in_map_iff in Hin. destruct Hin as ([k e] & <- & Hin).
      apply filter_In in Hin. destruct Hin as [Hin Hl].
      apply In_set_inv in Hin. destruct Hin as [Heq|Hin].
      * left. now inversion Heq.
      * right. apply in_map_iff. exists (k, e). split; [reflexivity|].
        apply filter_In. tauto.
    + intros [->|Hin].
      * apply in_map_iff.
        exists (JsString.toLowerCase name,
                CatalogEntry.mk (CatalogEntry.path entry) true (Some rowCount) (Some now)).
        split; [reflexivity|]. apply filter_In. split; [apply In_set_same | reflexivity].
      * apply in_map_iff in Hin. destruct Hin as ([k e] & <- & Hin).
        apply filter_In in Hin. destruct Hin as [Hin Hl].
        destruct (String.eqb_spec k (JsString.toLowerCase name)) as [->|Hne].
        -- apply in_map_iff.
           exists (JsString.toLowerCase name,
                   CatalogEntry.mk (CatalogEntry.path entry) true
                     (Some rowCount) (Some now)).
           split; [reflexivity|]. apply filter_In.
           split; [apply In_set_same | reflexivity].
        -- apply in_map_iff. exists (k, e). split; [reflexivity|].
           apply filter_In. split; [now apply In_set_other | exact Hl].
Qed.

End CatalogMore.

(** ** The loader *)

Section LoaderMore.
Context `{Engine} `{Calendar}.

Lemma existsb_eqb_absent (x : string) (l : list string) :
  ~ In x l -> existsb (String.eqb x) l = false.
Proof.
  induction l as [|y r IH]; simpl; [reflexivity|]. intros Hni.
  destruct (String.eqb_spec x y) as [->|Hne]; [tauto|]. apply IH. tauto.
Qed.

(** X11.  On a catalog that holds every name once, [extractTableNames]
    returns exactly the table names that occur somewhere in the
    lower-cased query text, each once and in catalog order: no such name
    is left out, and a name is selected wherever in the text it occurs
    (inside a longer word or a string literal as well). *)
Theorem extractTableNames_is_catalog_filter (query : string) (c : FileCatalog.t) :
  JsMap.wf c ->
  TableLoader.extractTableNames query c
  = filter (fun table => JsString.includes (JsString.toLowerCase query) table)
           (FileCatalog.getAllTables c).
Proof.
  unfold JsMap.wf, TableLoader.extractTableNames, FileCatalog.getAllTables.
  generalize (JsMap.keys c) as names. intros names Hnd.
  assert (Hgen : forall (l acc : list string),
             NoDup (acc ++ l) ->
             fold_left
               (fun tables table =>
                  if JsString.includes (JsString.toLowerCase query) table
                  then JsArray.setAdd String.eqb tables table
                  else tables) l acc
             = acc ++ filter
                        (fun table =>
                           JsString.includes (JsString.toLowerCase query) table) l).
  { induction l as [|n l IH]; intros acc Hacc; cbn [fold_left filter].
    - now rewrite app_nil_r.
    - assert (Hni : ~ In n acc).
      { apply NoDup_remove_2 in Hacc. intros Hin. apply Hacc.
        apply in_or_app. now left. }
      destruct (JsString.includes (JsString.toLowerCase query) n).
      + unfold JsArray.setAdd. rewrite (existsb_eqb_absent n acc Hni).
        rewrite IH; [now rewrite <- app_assoc|].
        now rewrite <- app_assoc.
      + apply IH. eapply NoDup_remove_1. exact Hacc. }
  apply (Hgen names []). exact Hnd.
Qed.

(** X12.  [ensureTableLoaded] on a table that is loaded only stamps it:
    the entry gets the clock reading as [lastAccessed] and keeps its
    path, [loaded] and row count; no statement is issued to the engine
    and the call returns normally. *)
Theorem ensureTableLoaded_on_loaded_table_only_stamps
    (tableName : string) (w : World) (entry : CatalogEntry.t) :
  FileCatalog.getEntry tableName (catalog w) = Some entry ->
  CatalogEntry.loaded entry = true ->
  TableLoader.ensureTableLoaded tableName w
  = (mkWorld (conn w) (issued w)
       (FileCatalog.setLastAccessed tableName (clock w (reads w)) (catalog w))
       (queryCache w) (clock w) (S (reads w)),
     Returned tt)
  /\ FileCatalog.getEntry tableName
       (catalog (fst (TableLoader.ensureTableLoaded tableName w)))
     = Some (CatalogEntry.mk (CatalogEntry.path entry) true
               (CatalogEntry.rowCount entry) (Some (clock w (reads w)))).
Proof.
  intros Hentry Hloaded.
  assert (Hrun : TableLoader.ensureTableLoaded tableName w
                 = (mkWorld (conn w) (issued w)
                      (FileCatalog.setLastAccessed tableName (clock w (reads w))
                         (catalog w))
                      (queryCache w) (clock w) (S (reads w)),
                    Returned tt)).
  { rewrite ensureTableLoaded_run, Hentry, Hloaded. reflexivity. }
  split; [exact Hrun|]. rewrite Hrun. cbn [fst catalog].
  unfold FileCatalog.getEntry in *. unfold FileCatalog.setLastAccessed.
  rewrite Hentry, Hloaded. apply get_set_same.
Qed.

(** X13.  [ensureTableLoaded] on a name [getEntry] does not find throws
    [Table <name> not found in catalog] and leaves the world as it is:
    nothing is issued to the engine and the catalog is unchanged. *)
Theorem ensureTableLoaded_on_unknown_table_throws
    (tableName : string) (w : World) :
  FileCatalog.getEntry tableName (catalog w) = None ->
  TableLoader.ensureTableLoaded tableName w = (w, Thrown (TableNotFound tableName))
  /\ message (TableNotFound tableName)
     = ("Table " ++ tableName ++ " not found in catalog")%string.
Proof.
  intros Hnone. rewrite ensureTableLoaded_run, Hnone. split; reflexivity.
Qed.

(** X14.  A load that goes through: for a table of the catalog that is
    not loaded, an engine that accepts every statement and reports a
    positive count [n] for the staging table, [ensureTableLoaded] issues
    seven statements in this order - create staging, count, drop final
    if it exists, create final, the two indexes, drop staging - returns
    normally and marks the table loaded with row count [n] and the
    clock reading taken after the statements. *)
Theorem ensureTableLoaded_loads_the_table
    (tableName : string) (w : World) (entry : CatalogEntry.t)
    (conn2 : Conn) (countResult : list Row) :
  FileCatalog.getEntry tableName (catalog w) = Some entry ->
  CatalogEntry.loaded entry = false ->
  (forall query c, snd (conn_run query c) = None) ->
  conn_all (TableLoader.countSql (TableLoader.stagingName tableName))
    (fst (conn_run
            (TableLoader.createStagingSql (TableLoader.stagingName tableName)
               (CatalogEntry.path entry)
               (isoDayBefore (clock w (reads w)) TableLoader.rollingWindowDays))
            (conn w)))
  = (conn2, inr countResult) ->
  0 < TableLoader.countOf countResult ->
  snd (TableLoader.ensureTableLoaded tableName w) = Returned tt
  /\ issued (fst (TableLoader.ensureTableLoaded tableName w))
     = issued w ++
       [TableLoader.createStagingSql (TableLoader.stagingName tableName)
          (CatalogEntry.path entry)
          (isoDayBefore (clock w (reads w)) TableLoader.rollingWindowDays);
        TableLoader.countSql (TableLoader.stagingName tableName);
        TableLoader.dropIfExistsSql tableName;
        TableLoader.createFinalSql (TableLoader.stagingName tableName) tableName;
        TableLoader.indexStartDateSql tableName;
        TableLoader.indexTypeSql tableName;
        TableLoader.dropSql (TableLoader.stagingName tableName)]
  /\ catalog (fst (TableLoader.ensureTableLoaded tableName w))
     = FileCatalog.markLoaded tableName (TableLoader.countOf countResult)
         (clock w (S (reads w))) (catalog w)
  /\ FileCatalog.getEntry tableName
       (catalog (fst (TableLoader.ensureTableLoaded tableName w)))
     = Some (CatalogEntry.mk (CatalogEntry.path entry) true
               (Some (TableLoader.countOf countResult))
               (Some (clock w (S (reads w))))).
Proof.
  intros Hentry Hunloaded Haccept Hcount Hrows.
  rewrite ensureTableLoaded_run, Hentry, Hunloaded.
  unfold TableLoader.loadTable, TableLoader.loadAttempt,
    TableLoader.cleanAndOptimizeTable, tryCatch,
    bind, dateNow, HealthDataDB.run, HealthDataDB.execute, modifyCatalog,
    throw, ret.
  cbn [conn issued catalog queryCache clock reads].
  destruct (conn_run
              (TableLoader.createStagingSql (TableLoader.stagingName tableName)
                 (CatalogEntry.path entry)
                 (isoDayBefore (clock w (reads w)) TableLoader.rollingWindowDays))
              (conn w)) as [c1 r1] eqn:E1.
  match type of E1 with
  | conn_run ?q ?c = _ => pose proof (Haccept q c) as A1
  end.
  rewrite E1 in A1. cbn [snd] in A1. subst r1.
  cbn [fst conn issued catalog queryCache clock reads] in *.
  rewrite Hcount. cbn [conn issued catalog queryCache clock reads].
  destruct (Z.gtb_spec (TableLoader.countOf countResult) 0) as [_|Hle]; [|lia].
  repeat
    (match goal with
     | |- context [conn_run ?q ?c] =>
         let E := fresh "E" in
         let A := fresh "A" in
         destruct (conn_run q c) as [? ?] eqn:E;
         pose proof (Haccept q c) as A; rewrite E in A; cbn [snd] in A; subst
     end;
     cbn [conn issued catalog queryCache clock reads]).
  cbn [fst snd issued catalog].
  split; [reflexivity|]. split; [now rewrite <- !app_assoc|].
  split; [reflexivity|].
  unfold FileCatalog.getEntry in *. unfold FileCatalog.markLoaded.
  rewrite Hentry. apply get_set_same.
Qed.

(** X15.  A failure after the final table was created: when the engine
    rejects the first index, the only statement issued afterwards is the
    drop of the staging table.  The final table the load created is not
    dropped, the error names the table, and the catalog still says that
    the table is not loaded. *)
Theorem index_failure_leaves_the_final_table
    (tableName : string) (w : World) (entry : CatalogEntry.t)
    (c1 c2 c3 c4 c5 c6 : Conn) (countResult : list Row) (msg : string) :
  FileCatalog.getEntry tableName (catalog w) = Some entry ->
  CatalogEntry.loaded entry = false ->
  conn_run
    (TableLoader.createStagingSql (TableLoader.stagingName tableName)
       (CatalogEntry.path entry)
       (isoDayBefore (clock w (reads w)) TableLoader.rollingWindowDays))
    (conn w) = (c1, None) ->
  conn_all (TableLoader.countSql (TableLoader.stagingName tableName)) c1
    = (c2, inr countResult) ->
  0 < TableLoader.countOf countResult ->
  conn_run (TableLoader.dropIfExistsSql tableName) c2 = (c3, None) ->
  conn_run (TableLoader.createFinalSql (TableLoader.stagingName tableName) tableName) c3
    = (c4, None) ->
  conn_run (TableLoader.indexStartDateSql tableName) c4 = (c5, Some msg) ->
  conn_run (TableLoader.dropIfExistsSql (TableLoader.stagingName tableName)) c5
    = (c6, None) ->
  TableLoader.ensureTableLoaded tableName w
  = (mkWorld c6
       (issued w ++
          [TableLoader.createStagingSql (TableLoader.stagingName tableName)
             (CatalogEntry.path entry)
             (isoDayBefore (clock w (reads w)) TableLoader.rollingWindowDays);
           TableLoader.countSql (TableLoader.stagingName tableName);
           TableLoader.dropIfExistsSql tableName;
           TableLoader.createFinalSql (TableLoader.stagingName tableName) tableName;
           TableLoader.indexStartDateSql tableName;
           TableLoader.dropIfExistsSql (TableLoader.stagingName tableName)])
       (catalog w) (queryCache w) (clock w) (S (reads w)),
     Thrown (FailedToLoad tableName (EngineError msg))).
Proof.
  intros Hentry Hunloaded E1 E2 Hrows E3 E4 E5 E6.
  rewrite ensureTableLoaded_run, Hentry, Hunloaded.
  unfold TableLoader.loadTable, TableLoader.loadAttempt,
    TableLoader.cleanAndOptimizeTable, tryCatch,
    bind, dateNow, HealthDataDB.run, HealthDataDB.execute, modifyCatalog,
    throw, ret.
  cbn [conn issued catalog queryCache clock reads].
  rewrite E1. cbn [conn issued catalog queryCache clock reads].
  rewrite E2. cbn [conn issued catalog queryCache clock reads].
  destruct (Z.gtb_spec (TableLoader.countOf countResult) 0) as [_|Hle]; [|lia].
  cbn [conn issued catalog queryCache clock reads].
  rewrite E3. cbn [conn issued catalog queryCache clock reads].
  rewrite E4. cbn [conn issued catalog queryCache clock reads].
  rewrite E5. cbn [conn issued catalog queryCache clock reads].
  rewrite E6. now rewrite <- !app_assoc.
Qed.

Lemma set_same {V : Type} (m : JsMap.t V) (k : string) (v : V) :
  JsMap.get k m = Some v -> JsMap.set k v m = m.
Proof.
  induction m as [|[k' v'] r IH]; simpl; [discriminate|].
  destruct (String.eqb_spec k k') as [->|Hne].
  - now intros [= ->].
  - intros Hg. now rewrite IH.
Qed.

(** X16.  [unloadTable] is idempotent on the catalog: for a table that
    is not loaded, or a name the catalog does not hold, it returns
    normally and leaves the catalog exactly as it was, whether the
    engine accepts the drop or not. *)
Theorem unloadTable_of_unloaded_table_changes_nothing
    (tableName : string) (w : World) :
  (forall entry,
      FileCatalog.getEntry tableName (catalog w) = Some entry ->
      CatalogEntry.loaded entry = false) ->
  snd (TableLoader.unloadTable tableName w) = Returned tt
  /\ catalog (fst (TableLoader.unloadTable tableName w)) = catalog w.
Proof.
  intros Hnot. rewrite unloadTable_run. cbn [fst snd catalog].
  split; [reflexivity|].
  destruct (snd (conn_run _ _)); [reflexivity|].
  unfold FileCatalog.markUnloaded. unfold FileCatalog.getEntry in Hnot.
  destruct (JsMap.get (JsString.toLowerCase tableName) (catalog w))
    as [entry|] eqn:Hentry; [|reflexivity].
  apply set_same. rewrite Hentry. f_equal.
  specialize (Hnot entry eq_refl). destruct entry as [p l rc la].
  cbn in *. now subst l.
Qed.

End LoaderMore.

Section Prewarm.
Context `{Engine} `{Calendar}.

Lemma ensureTableLoaded_keeps_names (tableName : string) (w : World) :
  JsMap.keys (catalog (fst (TableLoader.ensureTableLoaded tableName w)))
  = JsMap.keys (catalog w).
Proof.
  rewrite ensureTableLoaded_run.
  destruct (FileCatalog.getEntry tableName (catalog w)) as [entry|];
    [|reflexivity].
  destruct (CatalogEntry.loaded entry).
  - cbn. apply keys_setLastAccessed.
  - apply (knows_loadTable (JsMap.keys (catalog w)) tableName
             (CatalogEntry.path entry) w eq_refl).
Qed.

Lemma loadEach_returns (tables : list string) :
  forall w : World,
    snd (TableLoader.loadEach tables w) = Returned tt
    /\ JsMap.keys (catalog (fst (TableLoader.loadEach tables w)))
       = JsMap.keys (catalog w).
Proof.
  induction tables as [|t rest IH]; intros w; [split; reflexivity|].
  cbn [TableLoader.loadEach]. unfold bind, tryCatch.
  pose proof (ensureTableLoaded_keeps_names t w) as Hkeys.
  destruct (TableLoader.ensureTableLoaded t w) as [w1 [u|e]];
    cbn [fst snd ret] in *;
    destruct (IH w1) as [Hret Hk]; (split; [exact Hret | congruence]).
Qed.

Hypothesis accepts_all : forall query c, snd (conn_run query c) = None.
Hypothesis counts_rows :
  forall query c,
    exists countResult,
      snd (conn_all query c) = inr countResult
      /\ 0 < TableLoader.countOf countResult.

(** On such an engine [ensureTableLoaded] of a catalog table returns
    normally and writes a loaded entry at the table's key. *)
Lemma ensureTableLoaded_accepting
    (tableName : string) (w : World) (entry : CatalogEntry.t) :
  FileCatalog.getEntry tableName (catalog w) = Some entry ->
  exists (e' : CatalogEntry.t) (w' : World),
    TableLoader.ensureTableLoaded tableName w = (w', Returned tt)
    /\ CatalogEntry.loaded e' = true
    /\ catalog w' = JsMap.set (JsString.toLowerCase tableName) e' (catalog w).
Proof.
  intros Hentry. rewrite ensureTableLoaded_run, Hentry.
  destruct (CatalogEntry.loaded entry) eqn:Hloaded.
  - exists (CatalogEntry.mk (CatalogEntry.path entry) true
              (CatalogEntry.rowCount entry) (Some (clock w (reads w)))).
    eexists. split; [reflexivity|]. split; [reflexivity|].
    cbn [catalog]. unfold FileCatalog.setLastAccessed.
    unfold FileCatalog.getEntry in Hentry. now rewrite Hentry, Hloaded.
  - unfold TableLoader.loadTable, TableLoader.loadAttempt,
      TableLoader.cleanAndOptimizeTable, tryCatch,
      bind, dateNow, HealthDataDB.run, HealthDataDB.execute, modifyCatalog,
      throw, ret.
    cbn [conn issued catalog queryCache clock reads].
    repeat
      (match goal with
       | |- context [conn_run ?q ?c] =>
           let E := fresh "E" in
           let A := fresh "A" in
           destruct (conn_run q c) as [? ?] eqn:E;
           pose proof (accepts_all q c) as A; rewrite E in A; cbn [snd] in A; subst
       | |- context [conn_all ?q ?c] =>
           let E := fresh "E" in
           let rows := fresh "rows" in
           let Hr := fresh "Hr" in
           let Hpos := fresh "Hpos" in
           destruct (conn_all q c) as [? ?] eqn:E;
           destruct (counts_rows q c) as (rows & Hr & Hpos);
           rewrite E in Hr; cbn [snd] in Hr; subst;
           destruct (Z.gtb_spec (TableLoader.countOf rows) 0); [|lia]
       end;
       cbn [conn issued catalog queryCache clock reads]).
    eexists. eexists. split; [reflexivity|].
    cbn [catalog]. unfold FileCatalog.markLoaded.
    unfold FileCatalog.getEntry in Hentry. rewrite Hentry.
    split; [|reflexivity]. reflexivity.
Qed.

Lemma loadEach_accepting (tables : list string) :
  forall w : World,
    FileCatalog.wf (catalog w) ->
    (forall t, In t tables -> In t (JsMap.keys (catalog w))) ->
    JsMap.keys (catalog (fst (TableLoader.loadEach tables w)))
    = JsMap.keys (catalog w)
    /\ (forall k e,
           JsMap.get k (catalog w) = Some e -> CatalogEntry.loaded e = true ->
           exists e',
             JsMap.get k (catalog (fst (TableLoader.loadEach tables w))) = Some e'
             /\ CatalogEntry.loaded e' = true)
    /\ (forall t,
           In t tables ->
           exists e',
             JsMap.get t (catalog (fst (TableLoader.loadEach tables w))) = Some e'
             /\ CatalogEntry.loaded e' = true).
Proof.
  induction tables as [|t rest IH]; intros w Hwf Hin.
  - cbn. split; [reflexivity|]. split; [eauto | intros t []].
  - assert (Hlow : JsString.toLowerCase t = t).
    { apply (wf_key_lower (catalog w)); [exact Hwf | apply Hin; now left]. }
    assert (Hentry : exists entry, FileCatalog.getEntry t (catalog w) = Some entry).
    { unfold FileCatalog.getEntry. rewrite Hlow.
      destruct (JsMap.get t (catalog w)) eqn:Hg; [eauto|].
      apply get_None_iff in Hg. exfalso. apply Hg. apply Hin. now left. }
    destruct Hentry as [entry Hentry].
    destruct (ensureTableLoaded_accepting t w entry Hentry)
      as (e' & w1 & Hrun & Hloaded & Hcat).
    rewrite Hlow in Hcat.
    assert (Hg : JsMap.get t (catalog w) = Some entry).
    { unfold FileCatalog.getEntry in Hentry. now rewrite Hlow in Hentry. }
    cbn [TableLoader.loadEach]. unfold bind, tryCatch. rewrite Hrun.
    destruct (IH w1) as (Hkeys & Hkeep & Hnew).
    { rewrite Hcat. apply wf_catalog_set; assumption. }
    { intros t' Ht'. rewrite Hcat, (keys_set_present _ _ _ _ Hg).
      apply Hin. now right. }
    split; [|split].
    + rewrite Hkeys, Hcat. apply (keys_set_present _ _ _ _ Hg).
    + intros k e Hk He. destruct (String.eqb_spec k t) as [->|Hne].
      * apply (Hkeep t e'); [|exact Hloaded]. rewrite Hcat. apply get_set_same.
      * apply (Hkeep k e); [|exact He]. rewrite Hcat.
        rewrite get_set_other by congruence. exact Hk.
    + intros t' [<-|Ht'].
      * apply (Hkeep t e'); [|exact Hloaded]. rewrite Hcat. apply get_set_same.
      * apply Hnew. exact Ht'.
Qed.

Lemma all_loaded (c : FileCatalog.t) :
  JsMap.wf c ->
  (forall k, In k (JsMap.keys c) ->
             exists e, JsMap.get k c = Some e /\ CatalogEntry.loaded e = true) ->
  FileCatalog.getLoadedTables c = JsMap.keys c.
Proof.
  intros Hwf Hall.
  assert (Hevery : forall kv, In kv c -> FileCatalog.isLoaded kv = true).
  { intros [k e] Hin. destruct (Hall k) as (e' & Hg & Hl).
    - change k with (fst (k, e)). now apply in_map.
    - rewrite (In_get c k e Hwf Hin) in Hg. inversion Hg. subst. exact Hl. }
  unfold FileCatalog.getLoadedTables, JsMap.entries, JsMap.keys. f_equal.
  clear Hwf Hall. induction c as [|kv r IH]; [reflexivity|].
  cbn [filter]. rewrite (Hevery kv (or_introl eq_refl)). f_equal.
  apply IH. intros kv' Hin. apply Hevery. now right.
Qed.

(** X18.  With an engine that accepts every statement and reports at
    least one row for every staging table, [loadAllTables] on a
    well-formed catalog leaves every table of the catalog loaded:
    afterwards [getLoadedTables] is [getAllTables], in catalog order. *)
Theorem loadAllTables_loads_every_table (w : World) :
  FileCatalog.wf (catalog w) ->
  snd (TableLoader.loadAllTables w) = Returned tt
  /\ FileCatalog.getLoadedTables (catalog (fst (TableLoader.loadAllTables w)))
     = FileCatalog.getAllTables (catalog w).
Proof.
  intros Hwf.
  assert (Hrun : TableLoader.loadAllTables w
                 = TableLoader.loadEach (FileCatalog.getAllTables (catalog w)) w)
    by reflexivity.
  rewrite Hrun. split; [apply loadEach_returns|].
  destruct (loadEach_accepting (FileCatalog.getAllTables (catalog w)) w Hwf)
    as (Hkeys & _ & Hnew); [auto|].
  unfold FileCatalog.getAllTables in *.
  rewrite all_loaded.
  - exact Hkeys.
  - destruct Hwf as [Hnd _]. unfold JsMap.wf in *. now rewrite Hkeys.
  - intros k Hk. apply Hnew. now rewrite <- Hkeys.
Qed.

End Prewarm.

(** ** The memory manager *)

Section EvictionMore.
Context `{Engine}.

Lemma unloadEach_run (tables : list string) :
  forall w : World,
    snd (MemoryManager.unloadEach tables w) = Returned tt
    /\ issued (fst (MemoryManager.unloadEach tables w))
       = issued w ++ map TableLoader.dropIfExistsSql tables.
Proof.
  induction tables as [|t rest IH]; intros w.
  - cbn. now rewrite app_nil_r.
  - cbn [MemoryManager.unloadEach map]. unfold bind.
    rewrite unloadTable_run.
    match goal with
    | |- context [MemoryManager.unloadEach rest ?w1] =>
        destruct (IH w1) as [Hret Hiss]
    end.
    split; [exact Hret|]. rewrite Hiss. cbn [issued].
    now rewrite <- app_assoc.
Qed.

Lemma unloadEach_accepting (tables : list string) :
  (forall query c, snd (conn_run query c) = None) ->
  forall w : World,
    catalog (fst (MemoryManager.unloadEach tables w))
    = fold_left (fun c t => FileCatalog.markUnloaded t c) tables (catalog w).
Proof.
  intros Haccept. induction tables as [|t rest IH]; intros w; [reflexivity|].
  cbn [MemoryManager.unloadEach fold_left]. unfold bind.
  rewrite unloadTable_run, Haccept. rewrite IH. reflexivity.
Qed.

Lemma filter_twice {A : Type} (f g : A -> bool) (l : list A) :
  filter f (filter g l) = filter (fun x => g x && f x) l.
Proof.
  induction l as [|x r IH]; [reflexivity|]. cbn [filter].
  destruct (g x); cbn [filter andb]; [destruct (f x)|]; now rewrite IH.
Qed.

Lemma markUnloaded_all_loaded (tables : list string) :
  forall c : FileCatalog.t,
    FileCatalog.wf c ->
    (forall t, In t tables -> In t (JsMap.keys c)) ->
    FileCatalog.getLoadedTables
      (fold_left (fun c t => FileCatalog.markUnloaded t c) tables c)
    = filter (fun x => negb (existsb (String.eqb x) tables))
             (FileCatalog.getLoadedTables c).
Proof.
  induction tables as [|t rest IH]; intros c Hwf Hin.
  - cbn [fold_left existsb negb].
    generalize (FileCatalog.getLoadedTables c). intros l.
    induction l as [|x r IHr]; [reflexivity | cbn; now rewrite <- IHr].
  - cbn [fold_left].
    assert (Hlow : JsString.toLowerCase t = t).
    { apply (wf_key_lower c); [exact Hwf | apply Hin; now left]. }
    assert (Hkeys : JsMap.keys (FileCatalog.markUnloaded t c) = JsMap.keys c).
    { unfold FileCatalog.markUnloaded.
      destruct (JsMap.get _ c) eqn:Hg; [|reflexivity].
      apply (keys_set_present _ _ _ _ Hg). }
    rewrite IH.
    + assert (Hone : FileCatalog.getLoadedTables (FileCatalog.markUnloaded t c)
                     = filter (fun x => negb (String.eqb x t))
                              (FileCatalog.getLoadedTables c)).
      { unfold FileCatalog.markUnloaded. rewrite Hlow.
        destruct (JsMap.get t c) as [e|] eqn:Hg.
        - apply loaded_after_unset; [apply Hwf | reflexivity].
        - symmetry. apply filter_absent. intros Hl.
          apply loaded_names_subset in Hl. apply get_None_iff in Hg. contradiction. }
      rewrite Hone, filter_twice. apply filter_ext. intros x.
      cbn [existsb]. now rewrite negb_orb.
    + now apply markUnloaded_wf.
    + intros t' Ht'. rewrite Hkeys. apply Hin. now right.
Qed.

Lemma lru_names_in_catalog (c : FileCatalog.t) (t : string) :
  In t (FileCatalog.getTablesByLastAccess c) -> In t (JsMap.keys c).
Proof.
  intros Hin. apply loaded_names_subset.
  eapply Permutation_in; [|exact Hin].
  unfold FileCatalog.getTablesByLastAccess, FileCatalog.getLoadedTables,
    FileCatalog.loadedByLastAccess.
  apply Permutation_map, sort_perm.
Qed.

Lemma slice0_subset {A : Type} (count : Z) (l : list A) (x : A) :
  In x (JsArray.slice0 count l) -> In x l.
Proof.
  assert (Hfirst : forall n, In x (firstn n l) -> In x l).
  { intros n Hin. rewrite <- (firstn_skipn n l). apply in_or_app. now left. }
  unfold JsArray.slice0. destruct (count <? 0); apply Hfirst.
Qed.

(** X19.  [forceEviction(count)] returns normally and issues one
    [DROP TABLE IF EXISTS] per table of the first [count] entries of the
    least-recently-used order, in that order ([slice(0, count)]: all of
    them when there are fewer, none for 0, all but the last [-count]
    for a negative [count]).  On a well-formed catalog and with an
    engine that accepts the drops, the loaded tables afterwards are the
    loaded tables before without those. *)
Theorem forceEviction_unloads_first_of_lru (count : Z) (w : World) :
  FileCatalog.wf (catalog w) ->
  (forall query c, snd (conn_run query c) = None) ->
  snd (MemoryManager.forceEviction count w) = Returned tt
  /\ issued (fst (MemoryManager.forceEviction count w))
     = issued w ++
       map TableLoader.dropIfExistsSql
           (JsArray.slice0 count (FileCatalog.getTablesByLastAccess (catalog w)))
  /\ FileCatalog.getLoadedTables (catalog (fst (MemoryManager.forceEviction count w)))
     = filter
         (fun t =>
            negb (existsb (String.eqb t)
                    (JsArray.slice0 count
                       (FileCatalog.getTablesByLastAccess (catalog w)))))
         (FileCatalog.getLoadedTables (catalog w)).
Proof.
  intros Hwf Haccept.
  assert (Hrun : MemoryManager.forceEviction count w
                 = MemoryManager.unloadEach
                     (JsArray.slice0 count
                        (FileCatalog.getTablesByLastAccess (catalog w))) w)
    by reflexivity.
  rewrite Hrun.
  destruct (unloadEach_run
              (JsArray.slice0 count (FileCatalog.getTablesByLastAccess (catalog w))) w)
    as [Hret Hiss].
  split; [exact Hret|]. split; [exact Hiss|].
  rewrite (unloadEach_accepting _ Haccept).
  apply markUnloaded_all_loaded; [exact Hwf|].
  intros t Ht. apply lru_names_in_catalog. eapply slice0_subset. exact Ht.
Qed.

End EvictionMore.

Section Pressure.
Context `{Engine} `{MemoryManager.MemoryPolicy}.

Lemma evictWhileAbove_step (t : string) (rest : list string) (w : World) :
  MemoryManager.evictWhileAbove (t :: rest) w
  = if MemoryManager.underLowWater (catalog w)
    then (w, Returned tt)
    else MemoryManager.evictWhileAbove rest (fst (TableLoader.unloadTable t w)).
Proof.
  cbn [MemoryManager.evictWhileAbove]. unfold bind at 1, getCatalog.
  destruct (MemoryManager.underLowWater (catalog w)); [reflexivity|].
  unfold bind. now rewrite unloadTable_run.
Qed.

Lemma evictWhileAbove_returns (tables : list string) :
  forall w : World, snd (MemoryManager.evictWhileAbove tables w) = Returned tt.
Proof.
  induction tables as [|t rest IH]; intros w; [reflexivity|].
  rewrite evictWhileAbove_step.
  destruct (MemoryManager.underLowWater (catalog w)); [reflexivity | apply IH].
Qed.

Lemma evictWhileAbove_run (tables : list string) :
  (forall query c, snd (conn_run query c) = None) ->
  forall w : World,
    exists k : nat,
      (k <= length tables)%nat
      /\ issued (fst (MemoryManager.evictWhileAbove tables w))
         = issued w ++ map TableLoader.dropIfExistsSql (firstn k tables)
      /\ catalog (fst (MemoryManager.evictWhileAbove tables w))
         = fold_left (fun c t => FileCatalog.markUnloaded t c)
                     (firstn k tables) (catalog w)
      /\ ((k < length tables)%nat ->
          MemoryManager.underLowWater
            (catalog (fst (MemoryManager.evictWhileAbove tables w))) = true)
      /\ (forall j, (j < k)%nat ->
                    MemoryManager.underLowWater
                      (fold_left (fun c t => FileCatalog.markUnloaded t c)
                                 (firstn j tables) (catalog w)) = false).
Proof.
  intros Haccept. induction tables as [|t rest IH]; intros w.
  - exists O. cbn. rewrite app_nil_r.
    split; [lia|]. split; [reflexivity|]. split; [reflexivity|].
    split; intros; lia.
  - rewrite evictWhileAbove_step.
    destruct (MemoryManager.underLowWater (catalog w)) eqn:Hlow.
    + exists O. cbn. rewrite app_nil_r.
      split; [lia|]. split; [reflexivity|]. split; [reflexivity|].
      split; [intros _; exact Hlow | intros; lia].
    + destruct (IH (fst (TableLoader.unloadTable t w)))
        as (k & Hk & Hiss & Hcat & Hstop & Habove).
      rewrite unloadTable_run, Haccept in Hiss, Hcat, Hstop, Habove |- *.
      exists (S k). cbn [fst length firstn map fold_left issued catalog] in *.
      split; [lia|]. split; [rewrite Hiss; now rewrite <- app_assoc|].
      split; [exact Hcat|]. split; [intros Hlt; apply Hstop; lia|].
      intros [|j] Hj; [exact Hlow|]. cbn [firstn fold_left]. apply Habove. lia.
Qed.

(** X20.  [evictLRUTables], with an engine that accepts the drops,
    unloads a prefix of the least-recently-used order taken at its
    start: it goes on while the estimate is not below the low-water
    mark, and stops at the first table before which the estimate is
    below it, or at the end of the list.  It returns normally. *)
Theorem evictLRUTables_unloads_lru_prefix (w : World) :
  (forall query c, snd (conn_run query c) = None) ->
  snd (MemoryManager.evictLRUTables w) = Returned tt
  /\ exists k : nat,
       (k <= length (FileCatalog.getTablesByLastAccess (catalog w)))%nat
       /\ issued (fst (MemoryManager.evictLRUTables w))
          = issued w ++
            map TableLoader.dropIfExistsSql
                (firstn k (FileCatalog.getTablesByLastAccess (catalog w)))
       /\ catalog (fst (MemoryManager.evictLRUTables w))
          = fold_left (fun c t => FileCatalog.markUnloaded t c)
              (firstn k (FileCatalog.getTablesByLastAccess (catalog w)))
              (catalog w)
       /\ ((k < length (FileCatalog.getTablesByLastAccess (catalog w)))%nat ->
           MemoryManager.underLowWater
             (catalog (fst (MemoryManager.evictLRUTables w))) = true)
       /\ (forall j, (j < k)%nat ->
                     MemoryManager.underLowWater
                       (fold_left (fun c t => FileCatalog.markUnloaded t c)
                          (firstn j (FileCatalog.getTablesByLastAccess (catalog w)))
                          (catalog w)) = false).
Proof.
  intros Haccept.
  assert (Hrun : MemoryManager.evictLRUTables w
                 = MemoryManager.evictWhileAbove
                     (FileCatalog.getTablesByLastAccess (catalog w)) w)
    by reflexivity.
  rewrite Hrun. split; [apply evictWhileAbove_returns|].
  apply evictWhileAbove_run. exact Haccept.
Qed.

(** X21.  [checkMemoryPressure] never throws, whatever the engine
    answers, and leaves the world untouched unless the estimate is over
    the high-water mark; only then does it run [evictLRUTables]. *)
Theorem checkMemoryPressure_acts_only_over_high_water (w : World) :
  MemoryManager.checkMemoryPressure w
  = if MemoryManager.overHighWater (catalog w)
    then (fst (MemoryManager.evictLRUTables w), Returned tt)
    else (w, Returned tt).
Proof.
  unfold MemoryManager.checkMemoryPressure, tryCatch, bind at 1, getCatalog.
  destruct (MemoryManager.overHighWater (catalog w)); [|reflexivity].
  assert (Hret : snd (MemoryManager.evictLRUTables w) = Returned tt)
    by (apply (evictWhileAbove_returns
                 (FileCatalog.getTablesByLastAccess (catalog w)) w)).
  destruct (MemoryManager.evictLRUTables w) as [w1 r]. cbn [fst snd] in *.
  now subst r.
Qed.

End Pressure.

(** ** The rewriter and the query tool *)

Section RewriterMore.
Context `{Engine} `{Calendar} `{Sha256}.

Local Open Scope string_scope.

(** X22.  A query whose lower-cased text contains none of the view names
    of the optimizer comes back from [optimizeQuery] unchanged, unless a
    load of a table it names fails, whose error is thrown; and this is
    not only the doing of the guard before the replacement: the
    replacement for each of the views changes nothing in such a text. *)
Theorem optimizeQuery_without_view_names (query : string) (w : World) :
  (forall viewName viewDef,
      In (viewName, viewDef) QueryOptimizer.viewDefinitions ->
      JsString.includes (JsString.toLowerCase query) viewName = false) ->
  QueryOptimizer.optimizeQuery query w
  = (fst (QueryOptimizer.awaitAll
            (map TableLoader.ensureTableLoaded
                 (TableLoader.extractTableNames query (catalog w)))
            w),
     match snd (QueryOptimizer.awaitAll
                  (map TableLoader.ensureTableLoaded
                       (TableLoader.extractTableNames query (catalog w)))
                  w) with
     | Returned _ => Returned query
     | Thrown e => Thrown e
     end)
  /\ forall viewName viewDef,
       In (viewName, viewDef) QueryOptimizer.viewDefinitions ->
       JsString.replaceAllCI viewName ("(" ++ viewDef ++ ")") query = query.
Proof.
  intros Hnone. split.
  - assert (Htext : QueryOptimizer.substituteViews QueryOptimizer.viewDefinitions
                      query = query).
    { unfold QueryOptimizer.substituteViews, JsMap.entries.
      generalize QueryOptimizer.viewDefinitions, Hnone.
      intros views Hviews.
      assert (Hgen : forall l : list (string * string),
                 (forall name def, In (name, def) l -> In (name, def) views) ->
                 fold_left (QueryOptimizer.substituteView query) l query = query).
      { induction l as [|[name def] r IH]; intros Hsub; [reflexivity|].
        cbn [fold_left QueryOptimizer.substituteView].
        rewrite (Hviews name def (Hsub name def (or_introl eq_refl))).
        apply IH. intros n d Hin. apply Hsub. now right. }
      apply Hgen. auto. }
    rewrite optimizeQuery_run. unfold bind.
    destruct (QueryOptimizer.awaitAll _ w) as [w1 [u|e]]; cbn [fst snd];
      [|reflexivity].
    unfold ret. now rewrite Htext.
  - intros viewName viewDef Hin.
    destruct (viewDefinitions_literal _ _ Hin) as (_ & Hlower & _).
    apply replaceFrom_without_match. rewrite Hlower. now apply (Hnone _ viewDef).
Qed.

End RewriterMore.

Section ToolMore.
Context `{Engine} `{Calendar} `{Sha256}.

(** X23.  [validateQuery] accepts a query exactly when its lower-cased
    text contains none of the seven forbidden keywords, anywhere, and
    contains [select].  A query it rejects goes no further: [execute]
    throws the validation error and the world - catalog, cache, engine,
    clock - is untouched. *)
Theorem validateQuery_gates_the_pipeline (query : string) (w : World) :
  (snd (HealthQueryTool.validateQuery query w) = Returned tt
   <-> (forall keyword,
           In keyword HealthQueryTool.forbidden ->
           JsString.includes (JsString.toLowerCase query) keyword = false)
       /\ JsString.includes (JsString.toLowerCase query) "select" = true)
  /\ HealthQueryTool.execute query w
     = match snd (HealthQueryTool.validateQuery query w) with
       | Thrown e => (w, Thrown e)
       | Returned _ =>
           (optimizedQuery <- QueryOptimizer.optimizeQuery query ;;
            QueryCacheAsync.getOrExecute optimizedQuery
              (HealthQueryTool.runQuery optimizedQuery) None) w
       end.
Proof.
  split.
  - unfold HealthQueryTool.validateQuery.
    destruct (find _ HealthQueryTool.forbidden) as [kw|] eqn:Hfind.
    + apply find_some in Hfind. destruct Hfind as [Hin Hinc].
      cbn [throw snd]. split; [discriminate|].
      intros [Hall _]. rewrite (Hall kw Hin) in Hinc. discriminate.
    + pose proof (find_none _ _ Hfind) as Hall. cbn beta in Hall.
      destruct (JsString.includes (JsString.toLowerCase query) "select");
        cbn [negb throw ret snd].
      * split; [intros _; split; [exact Hall | reflexivity] | reflexivity].
      * split; [discriminate | intros [_ Hsel]; discriminate].
  - unfold HealthQueryTool.execute, bind at 1.
    pose proof (validateQuery_world query w) as Hw.
    destruct (HealthQueryTool.validateQuery query w) as [w0 [u|e]];
      cbn [fst snd] in *; subst w0; reflexivity.
Qed.

(** X24.  The pipeline keeps the catalog's tables: after [execute], on a
    well-formed catalog, the table names and their order are as before
    and the catalog is still well formed, whether the query succeeded
    or failed. *)
Theorem execute_keeps_the_catalog_tables (query : string) (w : World) :
  FileCatalog.wf (catalog w) ->
  FileCatalog.getAllTables (catalog (fst (HealthQueryTool.execute query w)))
  = FileCatalog.getAllTables (catalog w)
  /\ FileCatalog.wf (catalog (fst (HealthQueryTool.execute query w))).
Proof.
  intros [Hnd Hlow].
  pose proof (proj1 (knows_execute_tool (JsMap.keys (catalog w)) Hlow query w
                       eq_refl)) as Hkeys.
  unfold FileCatalog.getAllTables, FileCatalog.wf, JsMap.wf.
  rewrite Hkeys. auto.
Qed.

End ToolMore.

(** ** Laziness: tables the query does not mention *)

Section Laziness.
Context `{Engine} `{Calendar} `{Sha256}.
Variable k : string.

Lemma leaves_ret {A : Type} (a : A) : leavesEntry k (ret a).
Proof. intros w. reflexivity. Qed.

Lemma leaves_throw {A : Type} (e : Exn) : leavesEntry k (@throw _ A e).
Proof. intros w. reflexivity. Qed.

Lemma leaves_bind {A B : Type} (m : M A) (f : A -> M B) :
  leavesEntry k m -> (forall a, leavesEntry k (f a)) -> leavesEntry k (bind m f).
Proof.
  intros Hm Hf w. unfold bind. specialize (Hm w).
  destruct (m w) as [w1 [a|e]]; cbn [fst] in *; [|exact Hm].
  rewrite <- Hm. apply Hf.
Qed.

Lemma leaves_tryCatch {A : Type} (m : M A) (handler : Exn -> M A) :
  leavesEntry k m -> (forall e, leavesEntry k (handler e)) ->
  leavesEntry k (tryCatch m handler).
Proof.
  intros Hm Hh w. unfold tryCatch. specialize (Hm w).
  destruct (m w) as [w1 [a|e]]; cbn [fst] in *; [exact Hm|].
  rewrite <- Hm. apply Hh.
Qed.

Lemma leaves_run (query : string) : leavesEntry k (HealthDataDB.run query).
Proof.
  intros w. unfold HealthDataDB.run.
  destruct (conn_run query (conn w)) as [c' [msg|]]; reflexivity.
Qed.

Lemma leaves_execute (query : string) : leavesEntry k (HealthDataDB.execute query).
Proof.
  intros w. unfold HealthDataDB.execute.
  destruct (conn_all query (conn w)) as [c' [msg|rows]]; reflexivity.
Qed.

Lemma leaves_dateNow : leavesEntry k dateNow.
Proof. intros w. reflexivity. Qed.

Lemma leaves_getQueryCache : leavesEntry k getQueryCache.
Proof. intros w. reflexivity. Qed.

Lemma leaves_putQueryCache (c : QueryCache.t) : leavesEntry k (putQueryCache c).
Proof. intros w. reflexivity. Qed.

Lemma leaves_modifyCatalog (f : FileCatalog.t -> FileCatalog.t) :
  (forall c, JsMap.get k (f c) = JsMap.get k c) -> leavesEntry k (modifyCatalog f).
Proof. intros Hf w. cbn [modifyCatalog fst catalog]. apply Hf. Qed.

Lemma leaves_loadTable (tableName filePath : string) :
  JsString.toLowerCase tableName <> k ->
  leavesEntry k (TableLoader.loadTable tableName filePath).
Proof.
  intros Hother.
  unfold TableLoader.loadTable, TableLoader.loadAttempt, TableLoader.cleanAndOptimizeTable.
  apply leaves_tryCatch.
  - apply leaves_bind; [apply leaves_dateNow | intros cutoffDate].
    apply leaves_bind; [apply leaves_run | intros _].
    apply leaves_bind; [apply leaves_execute | intros countResult].
    destruct (TableLoader.countOf countResult >? 0); [|apply leaves_run].
    apply leaves_bind.
    + repeat (apply leaves_bind; [apply leaves_run | intros _]).
      apply leaves_run.
    + intros _. apply leaves_bind; [apply leaves_dateNow | intros now].
      apply leaves_modifyCatalog. intros c. unfold FileCatalog.markLoaded.
      destruct (JsMap.get _ c); [|reflexivity]. now apply get_set_other.
  - intros error. apply leaves_bind; [apply leaves_run | intros _].
    apply leaves_throw.
Qed.

(** A load or a stamp writes the entry of its own table only. *)
Lemma leaves_ensureTableLoaded (tableName : string) :
  JsString.toLowerCase tableName <> k ->
  leavesEntry k (TableLoader.ensureTableLoaded tableName).
Proof.
  intros Hother w. rewrite ensureTableLoaded_run.
  destruct (FileCatalog.getEntry tableName (catalog w)) as [entry|];
    [|reflexivity].
  destruct (CatalogEntry.loaded entry).
  - apply (leaves_bind dateNow); [apply leaves_dateNow | intros now].
    apply leaves_modifyCatalog. intros c. unfold FileCatalog.setLastAccessed.
    destruct (JsMap.get _ c); [|reflexivity]. now apply get_set_other.
  - now apply leaves_loadTable.
Qed.

Lemma leaves_awaitAll (ps : list (M unit)) :
  Forall (leavesEntry k) ps -> leavesEntry k (QueryOptimizer.awaitAll ps).
Proof.
  induction 1 as [|p rest Hp Hrest IH]; [apply leaves_ret|].
  intros w. cbn [QueryOptimizer.awaitAll]. specialize (Hp w).
  destruct (p w) as [w1 [u|e]]; cbn [fst] in *; rewrite <- Hp; apply IH.
Qed.

Lemma leaves_getOrExecute (query : string) (executor : M QueryResult.t)
                          (params : option string) :
  leavesEntry k executor ->
  leavesEntry k (QueryCacheAsync.getOrExecute query executor params).
Proof.
  intros Hexec. unfold QueryCacheAsync.getOrExecute, QueryCacheAsync.get,
    QueryCacheAsync.set.
  apply leaves_bind.
  - apply leaves_bind; [apply leaves_getQueryCache | intros c].
    destruct (JsMap.get _ (QueryCache.cache c)); [|apply leaves_ret].
    apply leaves_bind; [apply leaves_dateNow | intros now].
    destruct (QueryCache.get now query params c) as [c' r].
    apply leaves_bind; [apply leaves_putQueryCache | intros _; apply leaves_ret].
  - intros [r|]; [apply leaves_ret|].
    apply leaves_bind; [exact Hexec | intros result].
    apply leaves_bind; [|intros _; apply leaves_ret].
    apply leaves_bind; [apply leaves_getQueryCache | intros c].
    apply leaves_bind; [apply leaves_dateNow | intros now].
    apply leaves_putQueryCache.
Qed.

Lemma leaves_runQuery (query : string) :
  leavesEntry k (HealthQueryTool.runQuery query).
Proof.
  unfold HealthQueryTool.runQuery.
  apply leaves_bind; [apply leaves_dateNow | intros startTime].
  apply leaves_bind; [apply leaves_execute | intros rows].
  apply leaves_bind; [apply leaves_dateNow | intros endTime].
  apply leaves_ret.
Qed.

(** X25.  Laziness.  A table whose name [extractTableNames] does not
    select for the query is not touched by the pipeline: after
    [execute] its catalog entry - path, [loaded], row count and access
    time - is exactly the one before, whether the query succeeded or
    failed.  In particular the pipeline never loads a table the query
    text does not contain. *)
Theorem execute_leaves_unmentioned_tables (query : string) (w : World) :
  FileCatalog.wf (catalog w) ->
  ~ In k (TableLoader.extractTableNames query (catalog w)) ->
  JsMap.get k (catalog (fst (HealthQueryTool.execute query w)))
  = JsMap.get k (catalog w).
Proof.
  intros Hwf Hnot.
  assert (Hopt : forall w0,
             w0 = w ->
             JsMap.get k (catalog (fst (QueryOptimizer.optimizeQuery query w0)))
             = JsMap.get k (catalog w0)).
  { intros w0 ->. rewrite optimizeQuery_run.
    apply (leaves_bind
             (QueryOptimizer.awaitAll
                (map TableLoader.ensureTableLoaded
                     (TableLoader.extractTableNames query (catalog w))))).
    - apply leaves_awaitAll. apply Forall_forall. intros p Hp.
      apply in_map_iff in Hp. destruct Hp as (t & <- & Ht).
      apply leaves_ensureTableLoaded.
      assert (Hlow : JsString.toLowerCase t = t).
      { apply (wf_key_lower (catalog w)); [exact Hwf|].
        apply (extractTableNames_selects query (catalog w) t Ht). }
      rewrite Hlow. intros ->. contradiction.
    - intros _. apply leaves_ret. }
  unfold HealthQueryTool.execute, bind.
  pose proof (validateQuery_world query w) as Hw.
  destruct (HealthQueryTool.validateQuery query w) as [w0 [u|e]];
    cbn [fst snd] in *; subst w0; [|reflexivity].
  specialize (Hopt w eq_refl).
  destruct (QueryOptimizer.optimizeQuery query w) as [w1 [q'|e]];
    cbn [fst] in *; [|exact Hopt].
  rewrite <- Hopt.
  apply (leaves_getOrExecute q' (HealthQueryTool.runQuery q') None
           (leaves_runQuery q') w1).
Qed.

End Laziness.

(** ** Start-up loading and failing tables *)

Section PrewarmFailures.
Context `{Engine} `{Calendar} `{Sha256}.

(** [ensureTableLoaded] adds to the statements issued, and for a table
    that is not loaded the first one it adds creates the staging
    table. *)
Lemma ensureTableLoaded_issues (tableName : string) (w : World) :
  exists l,
    issued (fst (TableLoader.ensureTableLoaded tableName w)) = (issued w ++ l)%list
    /\ forall entry,
         FileCatalog.getEntry tableName (catalog w) = Some entry ->
         CatalogEntry.loaded entry = false ->
         exists l',
           l = (TableLoader.createStagingSql (TableLoader.stagingName tableName)
                  (CatalogEntry.path entry)
                  (isoDayBefore (clock w (reads w)) TableLoader.rollingWindowDays)
                  :: l')%list.
Proof.
  rewrite ensureTableLoaded_run.
  destruct (FileCatalog.getEntry tableName (catalog w)) as [entry|].
  2:{ exists []. split; [now rewrite app_nil_r | discriminate]. }
  destruct (CatalogEntry.loaded entry) eqn:Hloaded.
  { exists []. split; [now rewrite app_nil_r|].
    intros e He. inversion He. subst. congruence. }
  unfold TableLoader.loadTable, TableLoader.loadAttempt,
    TableLoader.cleanAndOptimizeTable, tryCatch,
    bind, dateNow, HealthDataDB.run, HealthDataDB.execute, modifyCatalog,
    throw, ret.
  cbn [conn issued catalog queryCache clock reads].
  repeat
    (match goal with
     | |- context [conn_run ?q ?c] => destruct (conn_run q c) as [? [?|]]
     | |- context [conn_all ?q ?c] => destruct (conn_all q c) as [? [?|?]]
     | |- context [?n >? 0] => destruct (n >? 0)
     end;
     cbn [conn issued catalog queryCache clock reads]).
  all: cbn [fst issued]; rewrite <- ?app_assoc.
  all: eexists; split; [reflexivity|].
  all: intros e He _; inversion He; subst; eexists; reflexivity.
Qed.

(** One round of the loop: whether the load returned or threw, the loop
    goes on from the world the load left. *)
Lemma loadEach_step (table : string) (rest : list string) (w : World) :
  TableLoader.loadEach (table :: rest) w
  = TableLoader.loadEach rest (fst (TableLoader.ensureTableLoaded table w)).
Proof.
  cbn [TableLoader.loadEach]. unfold bind, tryCatch.
  destruct (TableLoader.ensureTableLoaded table w) as [w1 [u|e]]; reflexivity.
Qed.

Lemma loadEach_fold (tables : list string) :
  forall w : World,
    fst (TableLoader.loadEach tables w)
    = fold_left (fun w' table => fst (TableLoader.ensureTableLoaded table w'))
        tables w.
Proof.
  induction tables as [|t rest IH]; intros w; [reflexivity|].
  rewrite loadEach_step. cbn [fold_left]. apply IH.
Qed.

Lemma loadEach_issues (tables : list string) :
  forall w : World,
    exists l, issued (fst (TableLoader.loadEach tables w)) = (issued w ++ l)%list.
Proof.
  induction tables as [|t rest IH]; intros w.
  - exists []. cbn. now rewrite app_nil_r.
  - rewrite loadEach_step.
    destruct (IH (fst (TableLoader.ensureTableLoaded t w))) as (l2 & Hl2).
    destruct (ensureTableLoaded_issues t w) as (l1 & Hl1 & _).
    exists (l1 ++ l2)%list. now rewrite Hl2, Hl1, app_assoc.
Qed.

(** Every table of the list that is not loaded is attempted, whatever
    became of the tables before it. *)
Lemma loadEach_attempts (tables : list string) :
  NoDup tables ->
  Forall (fun t => JsString.toLowerCase t = t) tables ->
  forall (w : World) (table : string) (entry : CatalogEntry.t),
    In table tables ->
    FileCatalog.getEntry table (catalog w) = Some entry ->
    CatalogEntry.loaded entry = false ->
    exists cutoffStr,
      In (TableLoader.createStagingSql (TableLoader.stagingName table)
            (CatalogEntry.path entry) cutoffStr)
         (issued (fst (TableLoader.loadEach tables w))).
Proof.
  induction tables as [|t rest IH]; intros Hnodup Hlower w table entry Hin Hentry
    Hunloaded; [contradiction|].
  inversion Hnodup as [|? ? Hfresh Hnodup']. subst.
  inversion Hlower as [|? ? Ht Hlower']. subst.
  rewrite loadEach_step.
  destruct Hin as [->|Hin].
  - destruct (ensureTableLoaded_issues table w) as (l1 & Hl1 & Hfirst).
    destruct (Hfirst entry Hentry Hunloaded) as (l' & ->).
    destruct (loadEach_issues rest (fst (TableLoader.ensureTableLoaded table w)))
      as (l2 & Hl2).
    eexists. rewrite Hl2, Hl1. apply in_or_app. left. apply in_or_app. right.
    left. reflexivity.
  - apply IH; try assumption.
    unfold FileCatalog.getEntry in *.
    rewrite (leaves_ensureTableLoaded (JsString.toLowerCase table) t); [exact Hentry|].
    rewrite Ht. rewrite Forall_forall in Hlower'. rewrite (Hlower' table Hin).
    intros ->. contradiction.
Qed.

(** X17.  [loadAllTables] returns normally whatever the engine does, and
    a table whose load fails is skipped: the world it leaves is the one
    reached by attempting [ensureTableLoaded] on every table of the
    catalog in catalog order, each attempt starting from the world the
    attempt before it left, whether that one returned or threw.  The
    names of the catalog and their order are as before.  On a
    well-formed catalog every table that was not loaded has had its
    staging table created, also when tables before it failed. *)
Theorem loadAllTables_attempts_every_table (w : World) :
  snd (TableLoader.loadAllTables w) = Returned tt
  /\ fst (TableLoader.loadAllTables w)
     = fold_left (fun w' table => fst (TableLoader.ensureTableLoaded table w'))
         (FileCatalog.getAllTables (catalog w)) w
  /\ FileCatalog.getAllTables (catalog (fst (TableLoader.loadAllTables w)))
     = FileCatalog.getAllTables (catalog w)
  /\ (FileCatalog.wf (catalog w) ->
      forall (table : string) (entry : CatalogEntry.t),
        In table (FileCatalog.getAllTables (catalog w)) ->
        FileCatalog.getEntry table (catalog w) = Some entry ->
        CatalogEntry.loaded entry = false ->
        exists cutoffStr,
          In (TableLoader.createStagingSql (TableLoader.stagingName table)
                (CatalogEntry.path entry) cutoffStr)
             (issued (fst (TableLoader.loadAllTables w)))).
Proof.
  assert (Hrun : TableLoader.loadAllTables w
                 = TableLoader.loadEach (FileCatalog.getAllTables (catalog w)) w)
    by reflexivity.
  rewrite Hrun.
  destruct (loadEach_returns (FileCatalog.getAllTables (catalog w)) w)
    as [Hret Hkeys].
  split; [exact Hret|]. split; [apply loadEach_fold|]. split; [exact Hkeys|].
  intros [Hnodup Hlower] table entry Hin Hentry Hunloaded.
  now apply loadEach_attempts.
Qed.

End PrewarmFailures.

(** ** The further properties on concrete runs *)

#[local] Existing Instance Fixture.fixedDay.
#[local] Existing Instance Fixture.tagHash.

Lemma cache_never_exceeds_capacity_witness :
  QueryCache.getSize
    (CacheRun.runOps
       [CacheRun.OpSet (Fixture.callAt 10 "q1");
        CacheRun.OpSet (Fixture.callAt 5 "q2");
        CacheRun.OpGet 400000 "q1" None;
        CacheRun.OpSet (Fixture.callAt 20 "q3");
        CacheRun.OpSet (Fixture.callAt 30 "q4");
        CacheRun.OpSet (Fixture.callAt 40 "q3")]
       (QueryCache.create 2)) <= 2
  /\ JsMap.wf
       (QueryCache.cache
          (CacheRun.runOps
             [CacheRun.OpSet (Fixture.callAt 10 "q1");
              CacheRun.OpSet (Fixture.callAt 5 "q2");
              CacheRun.OpGet 400000 "q1" None;
              CacheRun.OpSet (Fixture.callAt 20 "q3");
              CacheRun.OpSet (Fixture.callAt 30 "q4");
              CacheRun.OpSet (Fixture.callAt 40 "q3")]
             (QueryCache.create 2)))
  /\ QueryCache.maxSize
       (CacheRun.runOps
          [CacheRun.OpSet (Fixture.callAt 10 "q1");
           CacheRun.OpSet (Fixture.callAt 5 "q2");
           CacheRun.OpGet 400000 "q1" None;
           CacheRun.OpSet (Fixture.callAt 20 "q3");
           CacheRun.OpSet (Fixture.callAt 30 "q4");
           CacheRun.OpSet (Fixture.callAt 40 "q3")]
          (QueryCache.create 2)) = 2.
Proof.
  apply cache_never_exceeds_capacity.
  - intros input. discriminate.
  - lia.
Defined.

Lemma set_leaves_other_entries_witness :
  JsMap.get "h:q1"
    (QueryCache.cache
       (QueryCache.set 30 "q3" Fixture.emptyResult None Fixture.fullOfTwo))
  = JsMap.get "h:q1" (QueryCache.cache Fixture.fullOfTwo).
Proof.
  apply set_leaves_other_entries.
  - discriminate.
  - right. discriminate.
Defined.

Lemma getOrExecute_hit_skips_executor_witness :
  QueryCacheAsync.getOrExecute "SELECT 1" (HealthQueryTool.runQuery "SELECT 1")
    None Fixture.cached
  = (@mkWorld Fixture.engine5 tt [] Fixture.twoLoaded Fixture.oneEntry
       (fun n => 1000 + Z.of_nat n) 1%nat,
     Returned Fixture.emptyResult).
Proof.
  apply (getOrExecute_hit_skips_executor "SELECT 1" None
           (HealthQueryTool.runQuery "SELECT 1") Fixture.cached
           (CachedResult.mk Fixture.emptyResult 0 300000)).
  - reflexivity.
  - apply Z.leb_le. reflexivity.
Defined.

Lemma getOrExecute_memoizes_witness :
  snd (QueryCacheAsync.getOrExecute "SELECT 1" (throw OnlySelect) None
         (fst (QueryCacheAsync.getOrExecute "SELECT 1"
                 (HealthQueryTool.runQuery "SELECT 1") None Fixture.warm)))
  = Returned (QueryResult.mk ["count"%string] [[VNumber 5]] 1 1)
  /\ issued
       (fst (QueryCacheAsync.getOrExecute "SELECT 1" (throw OnlySelect) None
               (fst (QueryCacheAsync.getOrExecute "SELECT 1"
                       (HealthQueryTool.runQuery "SELECT 1") None Fixture.warm))))
     = ["SELECT 1"%string].
Proof.
  destruct (getOrExecute_memoizes "SELECT 1" None
              (HealthQueryTool.runQuery "SELECT 1") (throw OnlySelect)
              Fixture.warm
              (fst (HealthQueryTool.runQuery "SELECT 1" Fixture.warm))
              (QueryResult.mk ["count"%string] [[VNumber 5]] 1 1))
    as [_ Hsecond].
  - reflexivity.
  - reflexivity.
  - apply Z.leb_le. reflexivity.
  - rewrite Hsecond. split; reflexivity.
Defined.

Lemma getOrExecute_does_not_cache_failures_witness :
  QueryCacheAsync.getOrExecute "SELECT 1" (HealthQueryTool.runQuery "SELECT 1")
    None Fixture.warmBroken
  = (@mkWorld Fixture.engineBroken tt ([] ++ ["SELECT 1"%string])
       Fixture.twoLoaded (QueryCache.create 100)
       (fun n => 1000 + Z.of_nat n) 1%nat,
     Thrown (EngineError "IO Error: connection closed")).
Proof.
  apply (getOrExecute_does_not_cache_failures "SELECT 1" None Fixture.warmBroken
           tt "IO Error: connection closed");
    reflexivity.
Defined.

Lemma scanDirectory_registers_every_file_witness :
  FileCatalog.getLoadedTables
    (FileCatalog.scanDirectory
       ([("HKQuantityTypeIdentifierHeartRate"%string, "/old/hr.csv"%string)]
          ++ ("HKQuantityTypeIdentifierHeartRate"%string, "/data/hr.csv"%string)
          :: [("HKCategoryTypeIdentifierSleepAnalysis"%string,
               "/data/sleep.csv"%string)])) = []
  /\ FileCatalog.getTablePath "HKQUANTITYTYPEIDENTIFIERHEARTRATE"
       (FileCatalog.scanDirectory
          ([("HKQuantityTypeIdentifierHeartRate"%string, "/old/hr.csv"%string)]
             ++ ("HKQuantityTypeIdentifierHeartRate"%string, "/data/hr.csv"%string)
             :: [("HKCategoryTypeIdentifierSleepAnalysis"%string,
                  "/data/sleep.csv"%string)]))
     = Some "/data/hr.csv"%string.
Proof.
  destruct (scanDirectory_registers_every_file
              [("HKQuantityTypeIdentifierHeartRate"%string, "/old/hr.csv"%string)]
              "HKQuantityTypeIdentifierHeartRate" "/data/hr.csv"
              [("HKCategoryTypeIdentifierSleepAnalysis"%string,
                "/data/sleep.csv"%string)]
              "HKQUANTITYTYPEIDENTIFIERHEARTRATE")
    as (_ & Hloaded & _ & Hpath).
  - intros m p [Heq|[]]. inversion Heq. discriminate.
  - reflexivity.
  - split; [exact Hloaded | exact Hpath].
Defined.

Lemma markUnloaded_after_markLoaded_witness :
  FileCatalog.getEntry "HKQuantityTypeIdentifierHeartRate"
    (FileCatalog.markUnloaded "HKQuantityTypeIdentifierHeartRate"
       (FileCatalog.markLoaded "HKQuantityTypeIdentifierHeartRate" 5 7
          Fixture.discovered))
  = Some (CatalogEntry.mk "/data/HKQuantityTypeIdentifierHeartRate.csv" false
            (Some 5) (Some 7))
  /\ FileCatalog.getAllTables
       (FileCatalog.markUnloaded "HKQuantityTypeIdentifierHeartRate"
          (FileCatalog.markLoaded "HKQuantityTypeIdentifierHeartRate" 5 7
             Fixture.discovered))
     = FileCatalog.getAllTables Fixture.discovered
  /\ forall other,
       JsString.toLowerCase other
       <> JsString.toLowerCase "HKQuantityTypeIdentifierHeartRate" ->
       FileCatalog.getEntry other
         (FileCatalog.markUnloaded "HKQuantityTypeIdentifierHeartRate"
            (FileCatalog.markLoaded "HKQuantityTypeIdentifierHeartRate" 5 7
               Fixture.discovered))
       = FileCatalog.getEntry other Fixture.discovered.
Proof.
  apply (markUnloaded_after_markLoaded "HKQuantityTypeIdentifierHeartRate" 5 7
           Fixture.discovered
           (CatalogEntry.mk "/data/HKQuantityTypeIdentifierHeartRate.csv" false
              None None)).
  reflexivity.
Defined.

Lemma getLoadedTables_follows_marks_witness :
  FileCatalog.getLoadedTables (FileCatalog.markUnloaded Fixture.heart Fixture.twoLoaded)
  = [Fixture.steps]
  /\ forall t,
       In t (FileCatalog.getLoadedTables
               (FileCatalog.markLoaded Fixture.sleep 9 50 Fixture.twoLoaded))
       <-> t = Fixture.sleep \/ In t (FileCatalog.getLoadedTables Fixture.twoLoaded).
Proof.
  split.
  - apply (proj1 (getLoadedTables_follows_marks Fixture.heart 0 0 Fixture.twoLoaded
                    Fixture.heartEntry
                    ltac:(repeat constructor; simpl; intuition discriminate)
                    eq_refl)).
  - apply (proj2 (getLoadedTables_follows_marks Fixture.sleep 9 50 Fixture.twoLoaded
                    Fixture.sleepEntry
                    ltac:(repeat constructor; simpl; intuition discriminate)
                    eq_refl)).
Defined.

Lemma extractTableNames_is_catalog_filter_witness :
  TableLoader.extractTableNames
    "SELECT * FROM HKQuantityTypeIdentifierStepCount WHERE note = 'hkcategorytypeidentifiersleepanalysis'"
    Fixture.twoLoaded
  = [Fixture.sleep; Fixture.steps].
Proof.
  apply (extractTableNames_is_catalog_filter
           "SELECT * FROM HKQuantityTypeIdentifierStepCount WHERE note = 'hkcategorytypeidentifiersleepanalysis'"
           Fixture.twoLoaded).
  repeat constructor; simpl; intuition discriminate.
Defined.

Lemma ensureTableLoaded_on_loaded_table_only_stamps_witness :
  TableLoader.ensureTableLoaded Fixture.heart Fixture.warm
  = (@mkWorld Fixture.engine5 tt []
       (FileCatalog.setLastAccessed Fixture.heart 1000 Fixture.twoLoaded)
       (QueryCache.create 100) (fun n => 1000 + Z.of_nat n) 1%nat,
     Returned tt)
  /\ FileCatalog.getEntry Fixture.heart
       (catalog (fst (TableLoader.ensureTableLoaded Fixture.heart Fixture.warm)))
     = Some (CatalogEntry.mk "/data/HKQuantityTypeIdentifierHeartRate.csv" true
               (Some 5000) (Some 1000)).
Proof.
  apply (ensureTableLoaded_on_loaded_table_only_stamps Fixture.heart Fixture.warm
           Fixture.heartEntry);
    reflexivity.
Defined.

Lemma ensureTableLoaded_on_unknown_table_throws_witness :
  TableLoader.ensureTableLoaded "nosuchtable" Fixture.fresh
  = (Fixture.fresh, Thrown (TableNotFound "nosuchtable"))
  /\ message (TableNotFound "nosuchtable")
     = "Table nosuchtable not found in catalog"%string.
Proof.
  apply (ensureTableLoaded_on_unknown_table_throws "nosuchtable" Fixture.fresh).
  reflexivity.
Defined.

Lemma ensureTableLoaded_loads_the_table_witness :
  snd (TableLoader.ensureTableLoaded Fixture.heart Fixture.fresh) = Returned tt
  /\ length (issued (fst (TableLoader.ensureTableLoaded Fixture.heart Fixture.fresh)))
     = 7%nat
  /\ FileCatalog.getEntry Fixture.heart
       (catalog (fst (TableLoader.ensureTableLoaded Fixture.heart Fixture.fresh)))
     = Some (CatalogEntry.mk "/data/HKQuantityTypeIdentifierHeartRate.csv" true
               (Some 5) (Some 1001)).
Proof.
  destruct (ensureTableLoaded_loads_the_table Fixture.heart Fixture.fresh
              (CatalogEntry.mk "/data/HKQuantityTypeIdentifierHeartRate.csv"
                 false None None)
              tt [[("count"%string, VNumber 5)]])
    as (Hret & Hissued & _ & Hentry).
  - reflexivity.
  - reflexivity.
  - intros query c. reflexivity.
  - reflexivity.
  - reflexivity.
  - split; [exact Hret|]. split; [rewrite Hissued; reflexivity | exact Hentry].
Defined.

Lemma index_failure_leaves_the_final_table_witness :
  snd (TableLoader.ensureTableLoaded Fixture.heart Fixture.freshNoIndex)
  = Thrown (FailedToLoad Fixture.heart
              (EngineError "Out of Memory Error: could not allocate block"))
  /\ catalog (fst (TableLoader.ensureTableLoaded Fixture.heart Fixture.freshNoIndex))
     = Fixture.discovered
  /\ skipn 3 (issued (fst (TableLoader.ensureTableLoaded Fixture.heart
                             Fixture.freshNoIndex)))
     = [TableLoader.createFinalSql "hkquantitytypeidentifierheartrate_staging"
          "hkquantitytypeidentifierheartrate";
        TableLoader.indexStartDateSql "hkquantitytypeidentifierheartrate";
        "DROP TABLE IF EXISTS hkquantitytypeidentifierheartrate_staging"%string].
Proof.
  rewrite (index_failure_leaves_the_final_table Fixture.heart Fixture.freshNoIndex
             (CatalogEntry.mk "/data/HKQuantityTypeIdentifierHeartRate.csv"
                false None None)
             tt tt tt tt tt tt [[("count"%string, VNumber 5)]]
             "Out of Memory Error: could not allocate block");
    [repeat split; reflexivity | reflexivity ..].
Defined.

Lemma unloadTable_of_unloaded_table_changes_nothing_witness :
  snd (TableLoader.unloadTable Fixture.heart Fixture.fresh) = Returned tt
  /\ catalog (fst (TableLoader.unloadTable Fixture.heart Fixture.fresh))
     = Fixture.discovered.
Proof.
  apply (unloadTable_of_unloaded_table_changes_nothing Fixture.heart Fixture.fresh).
  intros entry Hentry. inversion Hentry. reflexivity.
Defined.

Lemma loadAllTables_loads_every_table_witness :
  snd (TableLoader.loadAllTables Fixture.fresh) = Returned tt
  /\ FileCatalog.getLoadedTables
       (catalog (fst (TableLoader.loadAllTables Fixture.fresh)))
     = [Fixture.heart; Fixture.sleep].
Proof.
  apply (@loadAllTables_loads_every_table Fixture.engine5 Fixture.fixedDay
           (fun query c => eq_refl)
           (fun query c =>
              ex_intro _ [[("count"%string, VNumber 5)]] (conj eq_refl eq_refl))
           Fixture.fresh).
  apply scanDirectory_wf.
Defined.

Lemma forceEviction_unloads_first_of_lru_witness :
  snd (MemoryManager.forceEviction 1 Fixture.warm) = Returned tt
  /\ issued (fst (MemoryManager.forceEviction 1 Fixture.warm))
     = [] ++ ["DROP TABLE IF EXISTS hkquantitytypeidentifierstepcount"%string]
  /\ FileCatalog.getLoadedTables
       (catalog (fst (MemoryManager.forceEviction 1 Fixture.warm)))
     = [Fixture.heart].
Proof.
  apply (forceEviction_unloads_first_of_lru 1 Fixture.warm).
  - split.
    + repeat constructor; simpl; intuition discriminate.
    + repeat constructor.
  - intros query c. reflexivity.
Defined.

Lemma evictLRUTables_unloads_lru_prefix_witness :
  snd (@MemoryManager.evictLRUTables Fixture.engine5 Fixture.byLoadedCount
         Fixture.warm) = Returned tt
  /\ exists k : nat,
       (k <= length (FileCatalog.getTablesByLastAccess Fixture.twoLoaded))%nat
       /\ issued (fst (@MemoryManager.evictLRUTables Fixture.engine5
                         Fixture.byLoadedCount Fixture.warm))
          = [] ++
            map TableLoader.dropIfExistsSql
                (firstn k (FileCatalog.getTablesByLastAccess Fixture.twoLoaded))
       /\ catalog (fst (@MemoryManager.evictLRUTables Fixture.engine5
                          Fixture.byLoadedCount Fixture.warm))
          = fold_left (fun c t => FileCatalog.markUnloaded t c)
              (firstn k (FileCatalog.getTablesByLastAccess Fixture.twoLoaded))
              Fixture.twoLoaded
       /\ ((k < length (FileCatalog.getTablesByLastAccess Fixture.twoLoaded))%nat ->
           @MemoryManager.underLowWater Fixture.byLoadedCount
             (catalog (fst (@MemoryManager.evictLRUTables Fixture.engine5
                              Fixture.byLoadedCount Fixture.warm))) = true)
       /\ (forall j, (j < k)%nat ->
                     @MemoryManager.underLowWater Fixture.byLoadedCount
                       (fold_left (fun c t => FileCatalog.markUnloaded t c)
                          (firstn j (FileCatalog.getTablesByLastAccess
                                       Fixture.twoLoaded))
                          Fixture.twoLoaded) = false).
Proof.
  apply (@evictLRUTables_unloads_lru_prefix Fixture.engine5 Fixture.byLoadedCount
           Fixture.warm).
  intros query c. reflexivity.
Defined.

(** The run behind it: with two loaded tables the policy asks for one
    eviction, and the least recently used table goes. *)
Example checkMemoryPressure_evicts_the_oldest :
  FileCatalog.getLoadedTables
    (catalog (fst (@MemoryManager.checkMemoryPressure Fixture.engine5
                     Fixture.byLoadedCount Fixture.warm)))
  = [Fixture.heart]
  /\ issued (fst (@MemoryManager.checkMemoryPressure Fixture.engine5
                    Fixture.byLoadedCount Fixture.warm))
     = ["DROP TABLE IF EXISTS hkquantitytypeidentifierstepcount"%string].
Proof. split; reflexivity. Qed.

Lemma optimizeQuery_without_view_names_witness :
  @QueryOptimizer.optimizeQuery Fixture.engine5 Fixture.fixedDay
    "SELECT COUNT(*) FROM hkquantitytypeidentifierheartrate" Fixture.warm
  = (@mkWorld Fixture.engine5 tt []
       (FileCatalog.setLastAccessed Fixture.heart 1000 Fixture.twoLoaded)
       (QueryCache.create 100) (fun n => 1000 + Z.of_nat n) 1%nat,
     Returned "SELECT COUNT(*) FROM hkquantitytypeidentifierheartrate"%string)
  /\ forall viewName viewDef,
       In (viewName, viewDef) QueryOptimizer.viewDefinitions ->
       JsString.replaceAllCI viewName ("(" ++ viewDef ++ ")")%string
         "SELECT COUNT(*) FROM hkquantitytypeidentifierheartrate"
       = "SELECT COUNT(*) FROM hkquantitytypeidentifierheartrate"%string.
Proof.
  apply (@optimizeQuery_without_view_names Fixture.engine5 Fixture.fixedDay
           "SELECT COUNT(*) FROM hkquantitytypeidentifierheartrate" Fixture.warm).
  intros viewName viewDef [E|[E|[E|[]]]]; inversion E; reflexivity.
Defined.

Lemma execute_keeps_the_catalog_tables_witness :
  FileCatalog.getAllTables
    (catalog (fst (HealthQueryTool.execute
                     "SELECT * FROM hkquantitytypeidentifierheartrate"
                     Fixture.fresh)))
  = FileCatalog.getAllTables Fixture.discovered
  /\ FileCatalog.wf
       (catalog (fst (HealthQueryTool.execute
                        "SELECT * FROM hkquantitytypeidentifierheartrate"
                        Fixture.fresh))).
Proof.
  apply (execute_keeps_the_catalog_tables
           "SELECT * FROM hkquantitytypeidentifierheartrate" Fixture.fresh).
  apply scanDirectory_wf.
Defined.

Lemma execute_leaves_unmentioned_tables_witness :
  JsMap.get Fixture.sleep
    (catalog (fst (HealthQueryTool.execute
                     "SELECT * FROM hkquantitytypeidentifierheartrate"
                     Fixture.fresh)))
  = JsMap.get Fixture.sleep Fixture.discovered.
Proof.
  apply (execute_leaves_unmentioned_tables Fixture.sleep
           "SELECT * FROM hkquantitytypeidentifierheartrate" Fixture.fresh).
  - apply scanDirectory_wf.
  - intros [Heq|[]]. discriminate.
Defined.

Lemma loadAllTables_attempts_every_table_witness :
  snd (@TableLoader.loadAllTables Fixture.engineNoHeart Fixture.fixedDay
         Fixture.freshNoHeart) = Returned tt
  /\ exists cutoffStr,
       In (TableLoader.createStagingSql (TableLoader.stagingName Fixture.sleep)
             "/data/HKCategoryTypeIdentifierSleepAnalysis.csv" cutoffStr)
          (issued (fst (@TableLoader.loadAllTables Fixture.engineNoHeart
                          Fixture.fixedDay Fixture.freshNoHeart))).
Proof.
  destruct (@loadAllTables_attempts_every_table Fixture.engineNoHeart
              Fixture.fixedDay Fixture.freshNoHeart)
    as (Hret & _ & _ & Hattempts).
  split; [exact Hret|].
  apply (Hattempts (scanDirectory_wf _) Fixture.sleep
           (CatalogEntry.mk "/data/HKCategoryTypeIdentifierSleepAnalysis.csv"
              false None None)).
  - right. left. reflexivity.
  - reflexivity.
  - reflexivity.
Defined.

(** The run behind it: the load of the heart-rate table fails, with the
    clean-up statement rejected as well, and the sleep table, which
    comes after it, is loaded all the same. *)
Example loadAllTables_goes_on_after_a_failure :
  snd (@TableLoader.ensureTableLoaded Fixture.engineNoHeart Fixture.fixedDay
         Fixture.heart Fixture.freshNoHeart)
  = Thrown (EngineError "IO Error: could not read the file")
  /\ snd (@TableLoader.loadAllTables Fixture.engineNoHeart Fixture.fixedDay
            Fixture.freshNoHeart) = Returned tt
  /\ FileCatalog.getLoadedTables
       (catalog (fst (@TableLoader.loadAllTables Fixture.engineNoHeart
                        Fixture.fixedDay Fixture.freshNoHeart)))
     = [Fixture.sleep].
Proof. repeat split; reflexivity. Qed.
